(** * inkmap: the layer render tasks, the WFS request builder, the scale bar
      and the worker-side Image polyfill

    A shallow embedding of
      - [src/printer/layers.js]    (createLayer and the four layer variants),
      - [src/printer/utils.js]     (setFrameState, generateGetFeatureUrl),
      - [src/printer/scalebar.js]  (getScaleBarParams, renderScaleBar),
      - [src/worker/polyfills.js]  (the Image class of the worker thread).

    Conventions of the embedding.
      - A JavaScript number is a [number]: an exact rational, the two
        infinities or NaN.  Signed zeros and binary rounding are not
        represented: the arithmetic is exact, and it neither overflows nor
        underflows.  Properties of the scale bar are therefore stated for
        point resolutions of moderate size and in a form that does not
        depend on the last bit of a quotient.
      - [undefined] is [None].
      - Code that writes to the console or throws runs in the monad [Js].
      - OpenLayers, RxJS and the browser are libraries: what the code asks of
        them (the tile queue, URL parsing, text measuring, ...) is either
        modelled next to its use, with a comment saying what it stands for, or
        taken as a section variable.  Their constructors are taken to
        succeed: a TypeError raised inside [new WFS] (a version without a
        GML format) or [new WMTSTileGrid] (a grid without resolutions) is
        not represented.  Where a task is said to be returned, it is
        under that assumption. *)

From Stdlib Require Import ZArith QArith Qround List String Ascii Bool Lia.
From Stdlib Require Import DecimalString Qpower Lqa.
Import ListNotations.

Local Open Scope string_scope.
Local Open Scope Z_scope.

(* ------------------------------------------------------------------------- *)
(** ** JavaScript numbers *)

Module JsNumber.

Inductive number : Type :=
| Fin (q : Q)
| PosInf
| NegInf
| NaN.

Definition ofZ (z : Z) : number := Fin (inject_Z z).
Definition ofNat (n : nat) : number := ofZ (Z.of_nat n).

Definition isNaN (x : number) : bool :=
  match x with NaN => true | _ => false end.

(** Equality of numbers as values: rationals are compared by [Qeq]. *)
Definition num_eq (x y : number) : Prop :=
  match x, y with
  | Fin a, Fin b => (a == b)%Q
  | PosInf, PosInf | NegInf, NegInf | NaN, NaN => True
  | _, _ => False
  end.

(** [x === y] on numbers: NaN is different from everything. *)
Definition strictEq (x y : number) : bool :=
  match x, y with
  | Fin a, Fin b => Qeq_bool a b
  | PosInf, PosInf | NegInf, NegInf => true
  | _, _ => false
  end.

(** [x < y] *)
Definition lt (x y : number) : bool :=
  match x, y with
  | NaN, _ | _, NaN => false
  | Fin a, Fin b => match (a ?= b)%Q with Lt => true | _ => false end
  | NegInf, (Fin _ | PosInf) => true
  | Fin _, PosInf => true
  | _, _ => false
  end.

(** [x >= y] *)
Definition ge (x y : number) : bool :=
  match x, y with
  | NaN, _ | _, NaN => false
  | Fin a, Fin b => Qle_bool b a
  | PosInf, _ => true
  | _, NegInf => true
  | _, _ => false
  end.

Definition neg (x : number) : number :=
  match x with
  | Fin a => Fin (- a)
  | PosInf => NegInf
  | NegInf => PosInf
  | NaN => NaN
  end.

Definition add (x y : number) : number :=
  match x, y with
  | NaN, _ | _, NaN => NaN
  | Fin a, Fin b => Fin (a + b)
  | PosInf, NegInf | NegInf, PosInf => NaN
  | PosInf, _ | _, PosInf => PosInf
  | NegInf, _ | _, NegInf => NegInf
  end.

Definition sub (x y : number) : number := add x (neg y).

(** The infinity with the sign of [s * t], NaN when one of them is zero. *)
Definition signedInf (s t : comparison) : number :=
  match s, t with
  | Eq, _ | _, Eq => NaN
  | Gt, Gt | Lt, Lt => PosInf
  | _, _ => NegInf
  end.

Definition sign (x : number) : comparison :=
  match x with
  | Fin a => (a ?= 0)%Q
  | PosInf => Gt
  | NegInf => Lt
  | NaN => Eq
  end.

Definition mul (x y : number) : number :=
  match x, y with
  | NaN, _ | _, NaN => NaN
  | Fin a, Fin b => Fin (a * b)
  | _, _ => signedInf (sign x) (sign y)
  end.

Definition div (x y : number) : number :=
  match x, y with
  | NaN, _ | _, NaN => NaN
  | Fin a, Fin b =>
      if Qeq_bool b 0 then signedInf (sign x) Gt else Fin (a / b)
  | Fin _, _ => Fin 0
  | _, Fin b => if Qeq_bool b 0 then x else signedInf (sign x) (sign y)
  | _, _ => NaN
  end.

(** [Math.floor] and [Math.round] (round half up: [floor (x + 1/2)]). *)
Definition floor (x : number) : number :=
  match x with Fin a => ofZ (Qfloor a) | _ => x end.

Definition round (x : number) : number :=
  match x with Fin a => ofZ (Qfloor (a + (1 # 2))) | _ => x end.

(** [Math.pow(10, d)] for an integer [d]. *)
Definition pow10 (d : Z) : Q :=
  match d with
  | Z0 => 1
  | Zpos p => inject_Z (10 ^ Zpos p)
  | Zneg p => / inject_Z (10 ^ Zpos p)
  end.

(** The integer part of the decimal logarithm of a positive rational:
    [ilog10_up] counts the divisions by ten of an integer [n >= 1],
    [ilog10_down a b] the multiplications by ten that bring [a] up to [b]. *)
Fixpoint ilog10_up (fuel : nat) (n : Z) : Z :=
  match fuel with
  | O => 0
  | S fuel' => if n <? 10 then 0 else 1 + ilog10_up fuel' (n / 10)
  end.

Fixpoint ilog10_down (fuel : nat) (a b : Z) : Z :=
  match fuel with
  | O => 1
  | S fuel' => if b <=? a * 10 then 1 else 1 + ilog10_down fuel' (a * 10) b
  end.

Definition floorLog10Q (q : Q) : Z :=
  let a := Qnum q in
  let b := Zpos (Qden q) in
  if b <=? a
  then ilog10_up (S (Z.to_nat (Z.log2 a))) (a / b)
  else - ilog10_down (S (Z.to_nat (Z.log2 b))) a b.

(** [Math.floor(Math.log(x) / Math.log(10))]: the logarithm of zero is
    -Infinity, that of a negative number NaN. *)
Definition floorLog10 (x : number) : number :=
  match x with
  | Fin a =>
      match (a ?= 0)%Q with
      | Gt => ofZ (floorLog10Q a)
      | Eq => NegInf
      | Lt => NaN
      end
  | PosInf => PosInf
  | NegInf | NaN => NaN
  end.

(** Number to string.  [showNumber] agrees with JavaScript's conversion on
    the integers (below 1e21) and on the three special values; the
    conversion of other numbers is left to the callers' [numberToString]
    parameter. *)
Definition showZ (z : Z) : string := NilZero.string_of_int (Z.to_int z).

Definition showNumber (x : number) : string :=
  match x with
  | Fin a => showZ (Qfloor a)
  | PosInf => "Infinity"
  | NegInf => "-Infinity"
  | NaN => "NaN"
  end.

End JsNumber.
Import JsNumber.

(* ------------------------------------------------------------------------- *)
(** ** Effects: console output and exceptions *)

Inductive completion (A : Type) : Type :=
| Normal (a : A)
| Throw (e : string)
| OutOfFuel.
Arguments Normal {A} a.
Arguments Throw {A} e.
Arguments OutOfFuel {A}.

(** The console is the list of the messages written so far, oldest first. *)
Definition Console := list string.

Definition Js (A : Type) : Type := Console -> completion A * Console.

Definition ret {A} (a : A) : Js A := fun c => (Normal a, c).

Definition bind {A B} (m : Js A) (k : A -> Js B) : Js B :=
  fun c =>
    match m c with
    | (Normal a, c') => k a c'
    | (Throw e, c') => (Throw e, c')
    | (OutOfFuel, c') => (OutOfFuel, c')
    end.

Definition throw {A} (e : string) : Js A := fun c => (Throw e, c).
Definition diverge {A} : Js A := fun c => (OutOfFuel, c).
Definition console_error (msg : string) : Js unit :=
  fun c => (Normal tt, (c ++ [msg])%list).

Declare Scope js_scope.
Delimit Scope js_scope with js.
Notation "x <- m ;; k" := (bind m (fun x => k))
  (at level 61, m at next level, right associativity) : js_scope.
Notation "m ;;; k" := (bind m (fun _ => k))
  (at level 61, right associativity) : js_scope.

(** The outcome of running a computation on an empty console. *)
Definition run {A} (m : Js A) : completion A * Console := m [].

(* ------------------------------------------------------------------------- *)
(** ** Frame state (the fields the code reads) *)

(** A projection is identified by its code ([projection.getCode()]). *)
Definition Projection := string.

Definition Extent := list number.

Module Frame.

Record ViewState : Type := {
  center : number * number;
  projection : Projection;
  resolution : number
}.

(** The root frame state of a job. *)
Record FrameState : Type := {
  size : number * number;
  pixelRatio : number;
  viewState : ViewState
}.

End Frame.

(** * src/printer/scalebar.js *)

Module ScaleBar.
Import Frame.

Record ScaleBarSpec : Type := {
  template : option string;
  position : option string;
  units : option string
}.

(** Modelled from the spec: the values of [Units] of ol/control/ScaleLine,
    a library that is not part of the sources; the specification names the
    units `metric`, `degrees`, `imperial`, `nautical` and `us`. *)
Definition Units_DEGREES := "degrees".
Definition Units_IMPERIAL := "imperial".
Definition Units_NAUTICAL := "nautical".
Definition Units_METRIC := "metric".
Definition Units_US := "us".

(** The two members of [ProjUnits] of ol/proj/Units the code names. *)
Inductive ProjUnits : Type := ProjUnits_DEGREES | ProjUnits_METERS.

Definition knownUnits : list string :=
  [Units_METRIC; Units_DEGREES; Units_IMPERIAL; Units_NAUTICAL; Units_US].

Record ScaleBarParams : Type := {
  width : number;
  scalenumber : number;
  suffix : string
}.

Definition minWidth : number := ofZ 64.
Definition LEADING_DIGITS : list number := [ofZ 1; ofZ 2; ofZ 5].

Definition dec (n : Z) (d : positive) : number := Fin (n # d).

(** [Math.pow(10, d)], [x % 3] and [LEADING_DIGITS[x]] on numbers; the
    finite arguments they get in the loop are integers. *)
Definition pow10n (d : number) : number :=
  match d with
  | Fin q => Fin (pow10 (Qfloor q))
  | PosInf => PosInf
  | NegInf => Fin 0
  | NaN => NaN
  end.

Definition rem3 (x : number) : number :=
  match x with
  | Fin q => ofZ (Z.rem (Qfloor q) 3)
  | _ => NaN
  end.

Definition leadingDigit (x : number) : option number :=
  match x with
  | Fin q => if 0 <=? Qfloor q then nth_error LEADING_DIGITS (Z.to_nat (Qfloor q))
             else None
  | _ => None
  end.

(** [undefined * decimal] is NaN. *)
Definition mulUndef (d : option number) (y : number) : number :=
  match d with
  | Some x => mul x y
  | None => NaN
  end.

(** The [while (true)] loop of getScaleBarParams; [None] when the fuel runs
    out, [Some None] for the [return;] of the NaN test, [Some (Some (width,
    count))] for [break]. *)
Fixpoint scaleLoop (fuel : nat) (pointResolution i : number)
  : option (option (number * number)) :=
  match fuel with
  | O => None
  | S fuel' =>
      let decimalCount := floor (div i (ofZ 3)) in
      let decimal := pow10n decimalCount in
      let count :=
        mulUndef (leadingDigit (rem3 (add (rem3 i) (ofZ 3)))) decimal in
      let width := round (div count pointResolution) in
      if isNaN width then Some None
      else if ge width minWidth then Some (Some (width, count))
      else scaleLoop fuel' pointResolution (add i (ofZ 1))
  end.

(** The unit ladder: the suffix and the point resolution in the unit chosen;
    the flag says whether the units were recognised. *)
Definition unitLadder (metersPerDegree : number) (units : string)
  (pointResolution : number) : bool * string * number :=
  let nominalCount := mul minWidth pointResolution in
  if String.eqb units Units_DEGREES then
    let nominalCount := mul nominalCount metersPerDegree in
    if lt nominalCount (div metersPerDegree (ofZ 60)) then
      (true, "″", mul pointResolution (ofZ 3600))
    else if lt nominalCount metersPerDegree then
      (true, "′", mul pointResolution (ofZ 60))
    else (true, "°", pointResolution)
  else if String.eqb units Units_IMPERIAL then
    if lt nominalCount (dec 9144 10000) then
      (true, "in", div pointResolution (dec 254 10000))
    else if lt nominalCount (dec 1609344 1000) then
      (true, "ft", div pointResolution (dec 3048 10000))
    else (true, "mi", div pointResolution (dec 1609344 1000))
  else if String.eqb units Units_NAUTICAL then
    (true, "nm", div pointResolution (ofZ 1852))
  else if String.eqb units Units_METRIC then
    if lt nominalCount (dec 1 1000) then
      (true, "μm", mul pointResolution (ofZ 1000000))
    else if lt nominalCount (ofZ 1) then
      (true, "mm", mul pointResolution (ofZ 1000))
    else if lt nominalCount (ofZ 1000) then
      (true, "m", pointResolution)
    else (true, "km", div pointResolution (ofZ 1000))
  else if String.eqb units Units_US then
    if lt nominalCount (dec 9144 10000) then
      (true, "in", mul pointResolution (dec 3937 100))
    else if lt nominalCount (dec 1609344 1000) then
      (true, "ft", div pointResolution (dec 30480061 100000000))
    else (true, "mi", div pointResolution (dec 16093472 10000))
  else (false, "", pointResolution).

Definition invalidUnitsMessage : string :=
  "Invalid units: Please verify your scaleBar object".

(** Canvas calls issued by renderScaleBar, in order. *)
Inductive CanvasOp : Type :=
| Save
| Restore
| SetGlobalAlpha (a : number)
| BeginPath
| SetTextAlign (s : string)
| SetStrokeStyle (s : string)
| SetFillStyle (s : string)
| SetLineWidth (w : number)
| SetFont (s : string)
| StrokeText (text : string) (x y : number)
| FillText (text : string) (x y : number)
| MoveTo (x y : number)
| LineTo (x y : number)
| Stroke.

(** A 2d context: the height of its canvas and the calls received. *)
Record Context2D : Type := {
  canvas_height : number;
  ops : list CanvasOp
}.

Definition draw (ctx : Context2D) (l : list CanvasOp) : Context2D :=
  {| canvas_height := canvas_height ctx; ops := (ops ctx ++ l)%list |}.

Section WithEnvironment.

(** [getPointResolution] and [METERS_PER_UNIT[degrees]] of ol/proj, the
    text metrics of the canvas and the number-to-string conversion of the
    runtime.  [measureText] is the width the context reports when
    renderScaleBar asks for it, that is with the font the context has on
    entry: the code sets its own font only later, before it draws. *)
Variable getPointResolution :
  Projection -> number -> number * number -> ProjUnits -> number.
Variable metersPerDegree : number.
Variable measureText : string -> number.
Variable numberToString : number -> string.

(** [spec.scaleBar] is the only field of the print spec read here;
    [None] is a spec without it (reading a field of undefined throws). *)
Definition readUnits (scaleBar : option ScaleBarSpec) : Js (option string) :=
  match scaleBar with
  | Some sb => ret (units sb)
  | None => throw "TypeError"
  end.

Definition readPosition (scaleBar : option ScaleBarSpec)
  : Js (option string) :=
  match scaleBar with
  | Some sb => ret (position sb)
  | None => throw "TypeError"
  end.

Local Open Scope js_scope.

Definition getScaleBarParams (fuel : nat) (frameState : FrameState)
  (scaleBar : option ScaleBarSpec) : Js (option ScaleBarParams) :=
  let center := center (viewState frameState) in
  let projection := projection (viewState frameState) in
  specUnits <- readUnits scaleBar ;;
  (* use units from spec if provided, default "metric" *)
  let units :=
    match specUnits with
    | Some u => if String.eqb u "" then Units_METRIC else u
    | None => Units_METRIC
    end in
  let pointResolutionUnits :=
    if String.eqb units Units_DEGREES then ProjUnits_DEGREES else ProjUnits_METERS in
  let pointResolution :=
    getPointResolution projection (resolution (viewState frameState))
      center pointResolutionUnits in
  let '(known, suffix, pointResolution) :=
    unitLadder metersPerDegree units pointResolution in
  (if known then ret tt else console_error invalidUnitsMessage) ;;;
  let i := mul (ofZ 3) (floorLog10 (mul minWidth pointResolution)) in
  match scaleLoop fuel pointResolution i with
  | None => diverge
  | Some None => ret None
  | Some (Some (width, count)) =>
      ret (Some {| width := width; scalenumber := count; suffix := suffix |})
  end.

Definition renderScaleBar (ctx : Context2D) (frameState : FrameState)
  (scaleBarParams : option ScaleBarParams) (scaleBar : option ScaleBarSpec)
  : Js Context2D :=
  match scaleBarParams with
  | None => throw "TypeError"
  | Some p =>
      let scaleWidth := width p in
      let scaleNumber := scalenumber p in
      let scaleUnit := suffix p in
      let scaleText := (numberToString scaleNumber ++ " " ++ scaleUnit)%string in
      let scaleTextWidth := measureText scaleText in
      let line1 := ofZ 6 in
      let scaleTotalWidth := add scaleWidth scaleTextWidth in
      pos <- readPosition scaleBar ;;
      let xOffset :=
        match pos with
        | Some "bottom-right" =>
            sub (sub (fst (size frameState)) scaleTotalWidth) (ofZ 20)
        | _ => ofZ 10
        end in
      let yOffset := ofZ 10 in
      let fontsize1 := ofZ 12 in
      let font1 := "12px Arial" in
      let oddColor := "#000000" in
      let evenColor := "#FFFFFF" in
      let quarter := div (mul scaleWidth (ofZ 1)) (ofZ 4) in
      let xzero := add scaleWidth xOffset in
      let yzero := sub (canvas_height ctx) yOffset in
      let xfirst := add xOffset quarter in
      let xsecond := add xfirst quarter in
      let xthird := add xsecond quarter in
      let xfourth := add xthird quarter in
      let ytext := add yzero (div fontsize1 (ofZ 2)) in
      ret (draw ctx
        [ Save; SetGlobalAlpha (dec 8 10);
          (* Scale Text *)
          BeginPath; SetTextAlign "left"; SetStrokeStyle "#ffffff";
          SetFillStyle "#000000"; SetLineWidth (ofZ 5); SetFont font1;
          (* Number with units *)
          StrokeText scaleText (add xzero (ofZ 5)) ytext;
          FillText scaleText (add xzero (ofZ 5)) ytext;
          (* Stroke *)
          BeginPath; SetLineWidth (add line1 (ofZ 2));
          SetStrokeStyle "#000000";
          MoveTo xOffset yzero; LineTo (add xzero (ofZ 1)) yzero; Stroke;
          (* sections black/white *)
          BeginPath; SetLineWidth line1; SetStrokeStyle oddColor;
          MoveTo xOffset yzero; LineTo xfirst yzero; Stroke;
          BeginPath; SetLineWidth line1; SetStrokeStyle evenColor;
          MoveTo xfirst yzero; LineTo xsecond yzero; Stroke;
          BeginPath; SetLineWidth line1; SetStrokeStyle oddColor;
          MoveTo xsecond yzero; LineTo xthird yzero; Stroke;
          BeginPath; SetLineWidth line1; SetStrokeStyle evenColor;
          MoveTo xthird yzero; LineTo xfourth yzero; Stroke;
          Restore ])
  end.

Definition printScaleBar (fuel : nat) (ctx : Context2D)
  (frameState : FrameState) (scaleBar : option ScaleBarSpec)
  : Js Context2D :=
  scaleBarParams <- getScaleBarParams fuel frameState scaleBar ;;
  renderScaleBar ctx frameState scaleBarParams scaleBar.

End WithEnvironment.

(** The value of [count] at loop index [i]: [LEADING_DIGITS[i mod 3]] times
    ten to the [floor (i / 3)]; these are the numbers {1,2,5} x 10^n. *)
Definition leading (i : Z) : Z := nth (Z.to_nat (i mod 3)) [1; 2; 5] 0.

Definition roundNumber (i : Z) : Q :=
  (inject_Z (leading i) * pow10 (i / 3))%Q.

(** The pixel width of a bar of [value] ground units. *)
Definition pixelWidth (value pointResolution : Q) : Z :=
  Qfloor (value / pointResolution + (1 # 2)).

(** The loop of getScaleBarParams over an integer index and a rational
    point resolution: the first round number from index [i] on that is at
    least 64 pixels wide. *)
Fixpoint scaleSearch (fuel : nat) (pointResolution : Q) (i : Z)
  : option (option (number * number)) :=
  match fuel with
  | O => None
  | S fuel' =>
      let w := pixelWidth (roundNumber i) pointResolution in
      if 64 <=? w then Some (Some (ofZ w, Fin (roundNumber i)))
      else scaleSearch fuel' pointResolution (i + 1)
  end.

End ScaleBar.

(* ------------------------------------------------------------------------- *)
(** * src/printer/utils.js *)

Module Utils.
Import Frame.

(** The layer state built by setFrameState; [L] is the layer object. *)
Record LayerState (L : Type) : Type := {
  layer : L;
  managed : bool;
  maxResolution : option number;
  maxZoom : option number;
  minResolution : number;
  minZoom : option number;
  opacity : number;
  sourceState : string;
  visible : bool;
  zIndex : number
}.
Arguments layer {L} _.
Arguments opacity {L} _.

(** [{ ...rootFrameState, layerStatesArray: [...] }] *)
Record LayerFrameState (L : Type) : Type := {
  rootFrameState : FrameState;
  layerStatesArray : list (LayerState L)
}.
Arguments rootFrameState {L} _.
Arguments layerStatesArray {L} _.

Definition setFrameState {L : Type} (rootFrameState : FrameState) (layer : L)
  (opacity : option number) : LayerFrameState L :=
  {| rootFrameState := rootFrameState;
     layerStatesArray :=
       [ {| layer := layer;
            managed := true;
            maxResolution := None;
            maxZoom := None;
            minResolution := ofZ 0;
            minZoom := None;
            opacity := match opacity with Some o => o | None => ofZ 1 end;
            sourceState := "ready";
            visible := true;
            zIndex := ofZ 0 |} ] |}.

(** The opacity of the (single) layer state of a frame state. *)
Definition layerOpacity {L : Type} (fs : LayerFrameState L) : option number :=
  match layerStatesArray fs with
  | ls :: _ => Some (opacity ls)
  | [] => None
  end.

(** *** URL objects

    A parsed URL is the part before the query, the list of the query
    parameters in order, and the fragment. *)
Record URL : Type := {
  beforeQuery : string;
  searchParams : list (string * string);
  fragment : string
}.

(** [URLSearchParams.get]: the first value of the name. *)
Fixpoint searchParams_get (name : string) (l : list (string * string))
  : option string :=
  match l with
  | [] => None
  | (k, v) :: rest =>
      if String.eqb k name then Some v else searchParams_get name rest
  end.

Definition searchParams_delete (name : string) (l : list (string * string))
  : list (string * string) :=
  filter (fun kv => negb (String.eqb (fst kv) name)) l.

(** [URLSearchParams.set]: replaces the first value of the name and deletes
    the others, or appends the pair. *)
Fixpoint searchParams_set (name value : string) (l : list (string * string))
  : list (string * string) :=
  match l with
  | [] => [(name, value)]
  | (k, v) :: rest =>
      if String.eqb k name
      then (k, value) :: searchParams_delete name rest
      else (k, v) :: searchParams_set name value rest
  end.

Definition set (name value : string) (u : URL) : URL :=
  {| beforeQuery := beforeQuery u;
     searchParams := searchParams_set name value (searchParams u);
     fragment := fragment u |}.

Definition get (name : string) (u : URL) : option string :=
  searchParams_get name (searchParams u).

Section GetFeature.

(** The URL parser ([new URL(s)], [None] when it throws), the serializer
    ([url.href]) and the number-to-string conversion of the runtime. *)
Variable parseURL : string -> option URL.
Variable href : URL -> string.
Variable numberToString : number -> string.

(** [extent.join(',')] *)
Definition join (extent : Extent) : string :=
  String.concat "," (map numberToString extent).

(** The URL object of generateGetFeatureUrl just before [urlObj.href]. *)
Definition getFeatureUrlObj (urlObj : URL) (wfsVersion layerName : string)
  (format : option string) (projCode : string) (extent : Extent) : URL :=
  let typeNameLabel :=
    if String.eqb wfsVersion "2.0.0" then "typenames" else "typename" in
  let urlObj := set "SERVICE" "WFS" urlObj in
  let urlObj := set "version" wfsVersion urlObj in
  let urlObj := set "request" "GetFeature" urlObj in
  let urlObj := set typeNameLabel layerName urlObj in
  let urlObj := set "srsName" projCode urlObj in
  let urlObj := set "bbox" (join extent ++ "," ++ projCode) urlObj in
  match format with
  | Some "geojson" => set "outputFormat" "application/json" urlObj
  | _ => urlObj
  end.

Definition generateGetFeatureUrl (baseUrl wfsVersion layerName : string)
  (format : option string) (projCode : string) (extent : Extent)
  : Js string :=
  if negb (String.eqb (substring 0 4 baseUrl) "http") then ret baseUrl
  else
    match parseURL baseUrl with
    | None => throw "TypeError"
    | Some urlObj =>
        ret (href (getFeatureUrlObj urlObj wfsVersion layerName format
                     projCode extent))
    end.

End GetFeature.

(** A version string is at least 2.0.0 when its dot-separated numbers are,
    compared component by component (the reading of the sentence
    "selected by version >= 2.0.0"). *)
Fixpoint digitsValue (acc : N) (s : string) : option N :=
  match s with
  | EmptyString => Some acc
  | String c rest =>
      let n := N_of_ascii c in
      if ((48 <=? n) && (n <=? 57))%N
      then digitsValue (acc * 10 + (n - 48))%N rest
      else None
  end.

Fixpoint splitDots (cur : string) (s : string) : list string :=
  match s with
  | EmptyString => [cur]
  | String "." rest => cur :: splitDots "" rest
  | String c rest => splitDots (cur ++ String c "") rest
  end.

Definition versionNumbers (v : string) : list (option N) :=
  map (digitsValue 0) (splitDots "" v).

Fixpoint versionGeb (v w : list (option N)) : bool :=
  match v, w with
  | _, [] => true
  | [], _ :: _ => forallb (fun x => match x with Some 0%N => true | _ => false end) w
  | Some a :: v', Some b :: w' =>
      if (b <? a)%N then true
      else if (a <? b)%N then false
      else versionGeb v' w'
  | _, _ => false
  end.

Definition versionAtLeast_2_0_0 (v : string) : bool :=
  versionGeb (versionNumbers v) [Some 2%N; Some 0%N; Some 0%N].

End Utils.

(* ------------------------------------------------------------------------- *)
(** * src/printer/layers.js *)

Module Layers.
Import Frame Utils.

(** A matrix id is a string when the spec supplies it and an array index
    when it is generated. *)
Inductive MatrixId : Type :=
| MatrixName (s : string)
| MatrixIndex (n : nat).

Record TileGrid : Type := {
  resolutions : option (list number);
  extent : option Extent;
  matrixIds : option (list MatrixId);
  tileSize : option number
}.

(** A layer of the print spec; a field the spec omits is [None]. *)
Record Layer : Type := {
  type : string;
  url : string;
  layer : option string;
  opacity : option number;
  tiled : bool;
  tileGrid : option TileGrid;
  projection : option Projection;
  version : option string;
  format : option string
}.

(** [new WMTSTileGrid({...tileGrid, extent, matrixIds})] *)
Record WMTSTileGrid : Type := {
  grid_resolutions : option (list number);
  grid_extent : Extent;
  grid_matrixIds : list MatrixId;
  grid_tileSize : option number
}.

Inductive SourceKind : Type := XYZ | TileWMS | WMTS.

(** A tile source: its kind, the URLs [getUrls()] answers, and the grid of
    a WMTS source. *)
Record TileSource : Type := {
  kind : SourceKind;
  urls : list string;
  sourceLayer : option string;
  sourceGrid : option WMTSTileGrid
}.

Inductive FeatureFormat : Type :=
| GeoJSON
| WFS (version : string).

Inductive OlLayer : Type :=
| TileLayer (source : TileSource)
| ImageLayer (sourceUrl : string) (layers : option string)
| VectorLayer (fmt : FeatureFormat).

(** A canvas: its size and the number of frames rendered onto it. *)
Record Canvas : Type := {
  canvas_width : number;
  canvas_height : number;
  frames : nat
}.

Definition createCanvasContext2D (width height : number) : Canvas :=
  {| canvas_width := width; canvas_height := height; frames := 0 |}.

Definition renderFrame (c : Canvas) : Canvas :=
  {| canvas_width := canvas_width c;
     canvas_height := canvas_height c;
     frames := S (frames c) |}.

(** [LayerPrintStatus]: progress, canvas or null, load error URL or
    undefined. *)
Definition LayerPrintStatus : Type := number * option Canvas * option string.

Definition status_progress (s : LayerPrintStatus) : number := fst (fst s).
Definition status_canvas (s : LayerPrintStatus) : option Canvas := snd (fst s).
Definition status_url (s : LayerPrintStatus) : option string := snd s.

(** [[...Array(n).keys()]] *)
Definition arrayKeys (n : nat) : list MatrixId := map MatrixIndex (seq 0 n).

(** *** RxJS *)

(** A BehaviorSubject: the values it has held, oldest first (the first is
    the seed), and whether it is stopped. *)
Record BehaviorSubject : Type := {
  values : list LayerPrintStatus;
  isStopped : bool
}.

Definition newBehaviorSubject (seed : LayerPrintStatus) : BehaviorSubject :=
  {| values := [seed]; isStopped := false |}.

Definition next (v : LayerPrintStatus) (s : BehaviorSubject)
  : BehaviorSubject :=
  if isStopped s then s
  else {| values := (values s ++ [v])%list; isStopped := false |}.

Definition complete (s : BehaviorSubject) : BehaviorSubject :=
  {| values := values s; isStopped := true |}.

(** [throttleTime(500, undefined, {leading: true, trailing: true})] lets a
    subsequence of its input through; which values in between are dropped
    depends on their arrival times, but the first value (leading) and the
    last one (trailing, also on completion) always pass. *)
Inductive subsequence {A : Type} : list A -> list A -> Prop :=
| sub_nil : subsequence [] []
| sub_keep x xs ys : subsequence xs ys -> subsequence (x :: xs) (x :: ys)
| sub_drop x xs ys : subsequence xs ys -> subsequence (x :: xs) ys.

(** The last value of a stream, if it has one. *)
Definition lastValue {A : Type} (l : list A) : option A :=
  last (map Some l) None.

Definition throttleTime {A : Type} (input output : list A) : Prop :=
  subsequence input output
  /\ hd_error output = hd_error input
  /\ lastValue output = lastValue input.

(** *** The tile queue of OpenLayers *)

Definition TileKey := string.

Definition isLoadingKey (k : TileKey) (loading : list TileKey) : bool :=
  existsb (String.eqb k) loading.

Definition removeKey (k : TileKey) (l : list TileKey) : list TileKey :=
  filter (fun k' => negb (String.eqb k k')) l.

(** The keys of an object: each key once. *)
Fixpoint uniqueKeys (l : list TileKey) : list TileKey :=
  match l with
  | [] => []
  | k :: rest =>
      if isLoadingKey k rest then uniqueKeys rest else k :: uniqueKeys rest
  end.

(** A parsed feature is represented by its text. *)
Definition Feature : Type := string.

Section WithOpenLayers.

(** What the code takes from OpenLayers and the runtime:
    - [expandUrl]: the URLs a source keeps for its [url] option;
    - [extentFromProjection] of ol/tilegrid;
    - [requiredTiles]: the tiles the first [renderFrame] puts in the queue;
    - [reprioritize]: [TileQueue.reprioritize], which reorders the queue
      and drops the tiles that are no longer wanted;
    - [tileIdle]: whether a tile taken from the queue is still idle;
    - [frameExtent]: the extent [prepareFrame] hands to the loader;
    - [readFeatures]: the parser of the feature format, [None] when it
      throws;
    - the URL parser and serializer and the number printer of [Utils]. *)
Variable expandUrl : string -> list string.
Variable extentFromProjection : option Projection -> Extent.
Variable requiredTiles : TileSource -> FrameState -> list TileKey.
Variable reprioritize : list TileKey -> list TileKey.
Variable tileIdle : TileKey -> bool.
Variable frameExtent : FrameState -> Extent.
Variable readFeatures : FeatureFormat -> string -> option (list Feature).
Variable parseURL : string -> option URL.
Variable href : URL -> string.
Variable numberToString : number -> string.

(** [TileQueue.loadMoreTiles(maxTotalLoading, maxNewLoads)] of OpenLayers:
    takes tiles from the head of the queue while fewer than
    [maxTotalLoading] are loading and fewer than [maxNewLoads] were started
    in this call; a tile starts loading when it is idle and not loading
    already.  The order of the queue stands for its priorities.  Nothing
    below depends on which of the two limits is the 12 and which the 4 of
    the call in createTiledLayer. *)
Fixpoint loadMoreTiles (maxTotalLoading maxNewLoads newLoads : nat)
  (queue loading : list TileKey) : list TileKey * list TileKey :=
  match queue with
  | [] => ([], loading)
  | tile :: rest =>
      if (List.length loading <? maxTotalLoading)%nat
         && (newLoads <? maxNewLoads)%nat
      then
        if tileIdle tile && negb (isLoadingKey tile loading)
        then loadMoreTiles maxTotalLoading maxNewLoads (S newLoads) rest
               (tile :: loading)
        else loadMoreTiles maxTotalLoading maxNewLoads newLoads rest loading
      else (queue, loading)
  end.

(** *** createTiledLayer *)

(** The state of a tiled layer task: the tile queue of its frame state
    ([queuedElements_], the keys of the tiles loading), the variables of
    the closure, and the values that left [map] so far. *)
Record TiledLayer : Type := {
  source : TileSource;
  tiledFrameState : LayerFrameState OlLayer;
  tiledCanvas : Canvas;
  queuedElements_ : list TileKey;
  tilesLoadingKeys_ : list TileKey;
  tileCount : nat;
  tileLoadErrorUrl : option string;
  mapped : list LayerPrintStatus;
  completed : bool
}.

(** [frameState.tileQueue.getTilesLoading()] *)
Definition getTilesLoading (t : TiledLayer) : nat :=
  List.length (tilesLoadingKeys_ t).

Definition createTiledLayer (source : TileSource)
  (rootFrameState : FrameState) (opacity : option number) : TiledLayer :=
  let width := fst (size rootFrameState) in
  let height := snd (size rootFrameState) in
  let canvas := createCanvasContext2D width height in
  let layer := TileLayer source in
  let frameState := setFrameState rootFrameState layer opacity in
  let queue := uniqueKeys (requiredTiles source rootFrameState) in
  {| source := source;
     tiledFrameState := frameState;
     tiledCanvas := renderFrame canvas;
     queuedElements_ := queue;
     tilesLoadingKeys_ := [];
     tileCount := List.length queue;
     tileLoadErrorUrl := None;
     mapped := [];
     completed := false |}.

(** The function given to [map]: the status computed from the queue. *)
Definition tiledStatus (t : TiledLayer) : Canvas * LayerPrintStatus :=
  let loadedTilesCount := List.length (queuedElements_ t) in
  let progress :=
    sub (ofZ 1) (div (ofNat loadedTilesCount) (ofNat (tileCount t))) in
  (* this is to make sure all tiles have finished loading before
     completing layer *)
  let progress :=
    if strictEq progress (ofZ 1) && (0 <? getTilesLoading t)%nat
    then sub progress (Fin (1 # 1000))
    else progress in
  if strictEq progress (ofZ 1) then
    let canvas := renderFrame (tiledCanvas t) in
    (canvas, (ofZ 1, Some canvas, tileLoadErrorUrl t))
  else (tiledCanvas t, (progress, None, tileLoadErrorUrl t)).

Inductive TileEvent : Type :=
| Tick
| TileLoadEnd (tile : TileKey)
| TileLoadError (tile : TileKey).

(** The task with another state of its tile queue. *)
Definition withTileQueue (t : TiledLayer) (queue loading : list TileKey)
  : TiledLayer :=
  {| source := source t;
     tiledFrameState := tiledFrameState t;
     tiledCanvas := tiledCanvas t;
     queuedElements_ := queue;
     tilesLoadingKeys_ := loading;
     tileCount := tileCount t;
     tileLoadErrorUrl := tileLoadErrorUrl t;
     mapped := mapped t;
     completed := completed t |}.

(** One value of the source observable ([update$] after startWith): the
    predicate of takeWhile runs, the value passes (inclusive) and is
    mapped, and the stream completes when no tile is loading. *)
Definition tick (t : TiledLayer) : TiledLayer :=
  let queue := reprioritize (queuedElements_ t) in
  let ql := loadMoreTiles 12 4 0 queue (tilesLoadingKeys_ t) in
  let t1 := withTileQueue t (fst ql) (snd ql) in
  let cs := tiledStatus t1 in
  {| source := source t1;
     tiledFrameState := tiledFrameState t1;
     tiledCanvas := fst cs;
     queuedElements_ := queuedElements_ t1;
     tilesLoadingKeys_ := tilesLoadingKeys_ t1;
     tileCount := tileCount t1;
     tileLoadErrorUrl := tileLoadErrorUrl t1;
     mapped := (mapped t1 ++ [snd cs])%list;
     completed := (getTilesLoading t1 =? 0)%nat |}.

(** The source fires 'tileloaderror': the listener records
    [e.target.getUrls()[0]]. *)
Definition onTileLoadError (t : TiledLayer) : TiledLayer :=
  {| source := source t;
     tiledFrameState := tiledFrameState t;
     tiledCanvas := tiledCanvas t;
     queuedElements_ := queuedElements_ t;
     tilesLoadingKeys_ := tilesLoadingKeys_ t;
     tileCount := tileCount t;
     tileLoadErrorUrl := nth_error (urls (source t)) 0;
     mapped := mapped t;
     completed := completed t |}.

(** One event of a subscribed tiled layer task.  A completed stream is
    unsubscribed from [update$].  A tile that settles leaves the loading
    set of the queue; when it failed, the source fires 'tileloaderror'.
    Only a tile that is loading can settle. *)
Definition tiledStep (e : TileEvent) (t : TiledLayer) : TiledLayer :=
  match e with
  | Tick => if completed t then t else tick t
  | TileLoadEnd tile =>
      withTileQueue t (queuedElements_ t)
        (removeKey tile (tilesLoadingKeys_ t))
  | TileLoadError tile =>
      if isLoadingKey tile (tilesLoadingKeys_ t) then
        onTileLoadError
          (withTileQueue t (queuedElements_ t)
             (removeKey tile (tilesLoadingKeys_ t)))
      else t
  end.

Definition tiledRun (events : list TileEvent) (t : TiledLayer)
  : TiledLayer :=
  fold_left (fun t e => tiledStep e t) events t.

(** An environment in which every tile that is loading settles before
    the next tick; [fails] says which of the tiles fail to load. *)
Definition settleAll (fails : TileKey -> bool) (t : TiledLayer)
  : list TileEvent :=
  map (fun k => if fails k then TileLoadError k else TileLoadEnd k)
    (tilesLoadingKeys_ t).

Definition settleAndTick (fails : TileKey -> bool) (t : TiledLayer)
  : TiledLayer :=
  tiledStep Tick (tiledRun (settleAll fails t) t).

Fixpoint settleAndTickTimes (fails : TileKey -> bool) (n : nat)
  (t : TiledLayer) : TiledLayer :=
  match n with
  | O => t
  | S n' => settleAndTickTimes fails n' (settleAndTick fails t)
  end.

(** Two invariants of a tiled layer task. *)

(** Without tiles there is never anything queued or loading; a completed
    task has nothing loading, and if it had tiles its last status is
    progress 1 with the canvas and the recorded load error URL. *)
Definition tiledInvariant (t : TiledLayer) : Prop :=
  (tileCount t = 0%nat ->
   queuedElements_ t = [] /\ tilesLoadingKeys_ t = [])
  /\ (completed t = true ->
      tilesLoadingKeys_ t = []
      /\ ((0 < tileCount t)%nat ->
          lastValue (mapped t)
          = Some (ofZ 1, Some (tiledCanvas t), tileLoadErrorUrl t))).

(** Once a tile has failed, the recorded URL is the first URL of the
    source, for good. *)
Definition failureRecorded (t : TiledLayer) : Prop :=
  tileLoadErrorUrl t = nth_error (urls (source t)) 0.

Definition createLayerXYZ (layerSpec : Layer) (rootFrameState : FrameState)
  : TiledLayer :=
  createTiledLayer
    {| kind := XYZ;
       urls := expandUrl (url layerSpec);
       sourceLayer := None;
       sourceGrid := None |}
    rootFrameState (opacity layerSpec).

(** *** createLayerWMS *)

(** The state of a single-image WMS task: the subject [progress$] and
    whether the two [once] listeners are still registered. *)
Record ImageTask : Type := {
  imageSourceUrl : string;
  imageFrameState : LayerFrameState OlLayer;
  imageCanvas : Canvas;
  imageProgress : BehaviorSubject;
  onImageLoadError : bool;
  onImageLoadEnd : bool
}.

Inductive ImageEvent : Type :=
| ImageLoadError
| ImageLoadEnd.

Definition imageStep (e : ImageEvent) (t : ImageTask) : ImageTask :=
  match e with
  | ImageLoadError =>
      if onImageLoadError t then
        let imageLoadErrorUrl := imageSourceUrl t in
        {| imageSourceUrl := imageSourceUrl t;
           imageFrameState := imageFrameState t;
           imageCanvas := imageCanvas t;
           imageProgress :=
             complete
               (next (ofZ 1, Some (imageCanvas t), Some imageLoadErrorUrl)
                  (imageProgress t));
           onImageLoadError := false;
           onImageLoadEnd := onImageLoadEnd t |}
      else t
  | ImageLoadEnd =>
      if onImageLoadEnd t then
        let canvas := renderFrame (imageCanvas t) in
        {| imageSourceUrl := imageSourceUrl t;
           imageFrameState := imageFrameState t;
           imageCanvas := canvas;
           imageProgress :=
             complete (next (ofZ 1, Some canvas, None) (imageProgress t));
           onImageLoadError := onImageLoadError t;
           onImageLoadEnd := false |}
      else t
  end.

Definition imageRun (events : list ImageEvent) (t : ImageTask) : ImageTask :=
  fold_left (fun t e => imageStep e t) events t.

(** *** createLayerWFS *)

Record VectorTask : Type := {
  vectorSpec : Layer;
  vectorVersion : string;
  vectorFormat : FeatureFormat;
  vectorFrameState : LayerFrameState OlLayer;
  vectorCanvas : Canvas;
  requestUrl : string;
  features : list Feature;
  vectorProgress : BehaviorSubject
}.

Inductive XhrEvent : Type :=
| XhrError
| XhrLoad (status : Z) (responseText : string).

(** [onError] of the loader. *)
Definition onError (t : VectorTask) : VectorTask :=
  {| vectorSpec := vectorSpec t;
     vectorVersion := vectorVersion t;
     vectorFormat := vectorFormat t;
     vectorFrameState := vectorFrameState t;
     vectorCanvas := vectorCanvas t;
     requestUrl := requestUrl t;
     features := features t;
     vectorProgress :=
       complete
         (next (ofZ 1, Some (vectorCanvas t), Some (url (vectorSpec t)))
            (vectorProgress t)) |}.

(** [xhr.onerror] and [xhr.onload]; when [readFeatures] throws, the
    handler is left and nothing is emitted. *)
Definition vectorStep (e : XhrEvent) (t : VectorTask) : VectorTask :=
  match e with
  | XhrError => onError t
  | XhrLoad status responseText =>
      if status =? 200 then
        match readFeatures (vectorFormat t) responseText with
        | None => t
        | Some fs =>
            let canvas := renderFrame (vectorCanvas t) in
            {| vectorSpec := vectorSpec t;
               vectorVersion := vectorVersion t;
               vectorFormat := vectorFormat t;
               vectorFrameState := vectorFrameState t;
               vectorCanvas := canvas;
               requestUrl := requestUrl t;
               features := (features t ++ fs)%list;
               vectorProgress :=
                 complete
                   (next (ofZ 1, Some canvas, None) (vectorProgress t)) |}
        end
      else onError t
  end.

(** The request failed: a network error or a status other than 200. *)
Definition isXhrFailure (e : XhrEvent) : bool :=
  match e with
  | XhrError => true
  | XhrLoad status _ => negb (status =? 200)
  end.

Definition vectorRun (events : list XhrEvent) (t : VectorTask)
  : VectorTask :=
  fold_left (fun t e => vectorStep e t) events t.

(** The task a layer of the spec is rendered by. *)
Inductive LayerTask : Type :=
| Tiled (t : TiledLayer)
| SingleImage (t : ImageTask)
| Vector (t : VectorTask).

(** [String(layerSpec.layer)] *)
Definition layerName (layerSpec : Layer) : string :=
  match layer layerSpec with
  | Some l => l
  | None => "undefined"
  end.

Definition createLayerWMS (layerSpec : Layer) (rootFrameState : FrameState)
  : LayerTask :=
  if tiled layerSpec then
    Tiled
      (createTiledLayer
         {| kind := TileWMS;
            urls := expandUrl (url layerSpec);
            sourceLayer := layer layerSpec;
            sourceGrid := None |}
         rootFrameState (opacity layerSpec))
  else
    let width := fst (size rootFrameState) in
    let height := snd (size rootFrameState) in
    let canvas := createCanvasContext2D width height in
    let layer := ImageLayer (url layerSpec) (layer layerSpec) in
    let frameState :=
      setFrameState rootFrameState layer (opacity layerSpec) in
    let progress := newBehaviorSubject (ofZ 0, None, None) in
    SingleImage
      {| imageSourceUrl := url layerSpec;
         imageFrameState := frameState;
         imageCanvas := canvas;
         imageProgress := progress;
         onImageLoadError := true;
         onImageLoadEnd := true |}.

Local Open Scope js_scope.

Definition createLayerWMTS (layerSpec : Layer) (rootFrameState : FrameState)
  : Js TiledLayer :=
  match tileGrid layerSpec with
  | None => throw "TypeError"
  | Some tileGrid =>
      let extent :=
        match extent tileGrid with
        | Some e => e
        | None => extentFromProjection (projection layerSpec)
        end in
      matrixIds <-
        match matrixIds tileGrid with
        | Some ids => ret ids
        | None =>
            match resolutions tileGrid with
            | Some r => ret (arrayKeys (List.length r))
            | None => throw "TypeError"
            end
        end ;;
      let tileGrid :=
        {| grid_resolutions := resolutions tileGrid;
           grid_extent := extent;
           grid_matrixIds := matrixIds;
           grid_tileSize := tileSize tileGrid |} in
      ret (createTiledLayer
             {| kind := WMTS;
                urls := expandUrl (url layerSpec);
                sourceLayer := layer layerSpec;
                sourceGrid := Some tileGrid |}
             rootFrameState (opacity layerSpec))
  end.

Definition createLayerWFS (layerSpec : Layer) (rootFrameState : FrameState)
  : Js VectorTask :=
  let width := fst (size rootFrameState) in
  let height := snd (size rootFrameState) in
  let canvas := createCanvasContext2D width height in
  let version :=
    match version layerSpec with
    | Some v => if String.eqb v "" then "1.1.0" else v
    | None => "1.1.0"
    end in
  let format :=
    match format layerSpec with
    | Some "geojson" => GeoJSON
    | _ => WFS version
    end in
  let layer := VectorLayer format in
  let frameState := setFrameState rootFrameState layer None in
  let progress := newBehaviorSubject (ofZ 0, None, None) in
  (* renderer.prepareFrame calls the loader *)
  let projCode := Frame.projection (viewState rootFrameState) in
  requestUrl <-
    generateGetFeatureUrl parseURL href numberToString (url layerSpec)
      version (layerName layerSpec) (Layers.format layerSpec) projCode
      (frameExtent rootFrameState) ;;
  ret {| vectorSpec := layerSpec;
         vectorVersion := version;
         vectorFormat := format;
         vectorFrameState := frameState;
         vectorCanvas := canvas;
         requestUrl := requestUrl;
         features := [];
         vectorProgress := progress |}.

(** *** createLayer *)

Definition createLayer (layerSpec : Layer) (rootFrameState : FrameState)
  : Js (option LayerTask) :=
  if String.eqb (type layerSpec) "XYZ" then
    ret (Some (Tiled (createLayerXYZ layerSpec rootFrameState)))
  else if String.eqb (type layerSpec) "WMS" then
    ret (Some (createLayerWMS layerSpec rootFrameState))
  else if String.eqb (type layerSpec) "WMTS" then
    t <- createLayerWMTS layerSpec rootFrameState ;;
    ret (Some (Tiled t))
  else if String.eqb (type layerSpec) "WFS" then
    t <- createLayerWFS layerSpec rootFrameState ;;
    ret (Some (Vector t))
  else ret None.

(** The frame state a task renders with. *)
Definition taskFrameState (t : LayerTask) : LayerFrameState OlLayer :=
  match t with
  | Tiled t => tiledFrameState t
  | SingleImage t => imageFrameState t
  | Vector t => vectorFrameState t
  end.

End WithOpenLayers.

Definition knownTypes : list string := ["XYZ"; "WMS"; "WMTS"; "WFS"].

End Layers.

(* ------------------------------------------------------------------------- *)
(** * src/worker/polyfills.js *)

Module Polyfills.

(** A listener is identified by a name. *)
Definition Callback := string.

(** An Image of the worker thread: the fields of the object, the state of
    [loadPromise] (resolved or not, and the callbacks given to [then] that
    wait for it), and a record of what happened: the callbacks called so
    far and the number of bitmaps drawn on the canvas. *)
Record Image : Type := {
  src_ : option string;
  width : number;
  height : number;
  naturalWidth : number;
  naturalHeight : number;
  loadResolved : bool;
  loadReactions : list Callback;
  called : list Callback;
  drawn : nat
}.

Definition hintImageSize (w h : number) (img : Image) : Image :=
  {| src_ := src_ img;
     width := w;
     height := h;
     naturalWidth := w;
     naturalHeight := h;
     loadResolved := loadResolved img;
     loadReactions := loadReactions img;
     called := called img;
     drawn := drawn img |}.

(** [new Image()] *)
Definition newImage : Image :=
  hintImageSize (ofZ 1) (ofZ 1)
    {| src_ := None;
       width := ofZ 1;
       height := ofZ 1;
       naturalWidth := ofZ 1;
       naturalHeight := ofZ 1;
       loadResolved := false;
       loadReactions := [];
       called := [];
       drawn := 0 |}.

(** [this.loadPromiseResolver()]: the first call resolves the promise and
    runs the waiting callbacks; later calls do nothing. *)
Definition loadPromiseResolver (img : Image) : Image :=
  if loadResolved img then img
  else
    {| src_ := src_ img;
       width := width img;
       height := height img;
       naturalWidth := naturalWidth img;
       naturalHeight := naturalHeight img;
       loadResolved := true;
       loadReactions := [];
       called := (called img ++ loadReactions img)%list;
       drawn := drawn img |}.

(** [this.loadPromise.then(callback)] *)
Definition loadPromise_then (callback : Callback) (img : Image) : Image :=
  {| src_ := src_ img;
     width := width img;
     height := height img;
     naturalWidth := naturalWidth img;
     naturalHeight := naturalHeight img;
     loadResolved := loadResolved img;
     loadReactions :=
       if loadResolved img then loadReactions img
       else (loadReactions img ++ [callback])%list;
     called :=
       if loadResolved img then (called img ++ [callback])%list
       else called img;
     drawn := drawn img |}.

(** How the promise chain started by the setter of [src] ends: [fetch]
    rejects, [response.blob()] rejects, [createImageBitmap] rejects, or the
    bitmap is decoded. *)
Inductive FetchOutcome : Type :=
| FetchRejected
| BlobRejected
| DecodeRejected
| Decoded.

Definition drawImage (img : Image) : Image :=
  {| src_ := src_ img;
     width := width img;
     height := height img;
     naturalWidth := naturalWidth img;
     naturalHeight := naturalHeight img;
     loadResolved := loadResolved img;
     loadReactions := loadReactions img;
     called := called img;
     drawn := S (drawn img) |}.

(** [set src(url)]: none of the promises has a rejection handler. *)
Definition set_src (url : string) (outcome : FetchOutcome) (img : Image)
  : Image :=
  match outcome with
  | Decoded => loadPromiseResolver (drawImage img)
  | FetchRejected | BlobRejected | DecodeRejected => img
  end.

Definition get_src (img : Image) : option string := src_ img.

Definition addEventListener (eventName : string) (callback : Callback)
  (img : Image) : Image :=
  if String.eqb eventName "load" then loadPromise_then callback img else img.

Definition removeEventListener (eventName : string) (callback : Callback)
  (img : Image) : Image := img.

(** What a client does with an image. *)
Inductive ImageOp : Type :=
| SetSrc (url : string) (outcome : FetchOutcome)
| AddEventListener (eventName : string) (callback : Callback)
| RemoveEventListener (eventName : string) (callback : Callback)
| HintImageSize (w h : number).

Definition imageOp (op : ImageOp) (img : Image) : Image :=
  match op with
  | SetSrc url outcome => set_src url outcome img
  | AddEventListener eventName callback =>
      addEventListener eventName callback img
  | RemoveEventListener eventName callback =>
      removeEventListener eventName callback img
  | HintImageSize w h => hintImageSize w h img
  end.

Definition imageOps (ops : list ImageOp) (img : Image) : Image :=
  fold_left (fun img op => imageOp op img) ops img.

(** The callbacks registered for the 'load' event by a list of calls. *)
Definition loadListeners (ops : list ImageOp) : list Callback :=
  flat_map
    (fun op =>
       match op with
       | AddEventListener eventName callback =>
           if String.eqb eventName "load" then [callback] else []
       | _ => []
       end) ops.

Definition isFailure (outcome : FetchOutcome) : bool :=
  match outcome with Decoded => false | _ => true end.

(** Every fetch started by the calls failed. *)
Definition allFetchesFail (ops : list ImageOp) : bool :=
  forallb
    (fun op =>
       match op with
       | SetSrc _ outcome => isFailure outcome
       | _ => true
       end) ops.

End Polyfills.

(* ------------------------------------------------------------------------- *)
(** * What the specification says, in terms of the model *)

Module Specified.
Import Frame.

(** An error is surfaced by a computation when it throws or writes to the
    console. *)
Definition surfacesError {A : Type} (r : completion A * Console) : Prop :=
  (exists e, fst r = Throw e) \/ snd r <> [].

(** The scale-bar pass logs the configuration error. *)
Definition logsInvalidUnits {A : Type} (r : completion A * Console) : Prop :=
  In ScaleBar.invalidUnitsMessage (snd r).

(** The scale-bar pass leaves the canvas as it was. *)
Definition drawsNothing (ctx : ScaleBar.Context2D)
  (r : completion ScaleBar.Context2D * Console) : Prop :=
  match fst r with
  | Normal ctx' => ScaleBar.ops ctx' = ScaleBar.ops ctx
  | Throw _ => True
  | OutOfFuel => False
  end.



(** The progress of a tiled layer: one minus the quotient of the tiles
    queued now by the tiles queued at first, less 0.001 when that is
    exactly 1 while tiles are loading. *)
Definition expectedProgress (queuedNow queuedInitial loading : nat) : number :=
  let raw := sub (ofZ 1) (div (ofNat queuedNow) (ofNat queuedInitial)) in
  if strictEq raw (ofZ 1) && (0 <? loading)%nat
  then sub raw (Fin (1 # 1000))
  else raw.

(** The name of the query parameter that should carry the layer name. *)
Definition expectedTypeNameLabel (wfsVersion : string) : string :=
  if Utils.versionAtLeast_2_0_0 wfsVersion then "typenames" else "typename".

(** A status of a tiled layer is as specified when its progress is the
    expected progress for some number of queued and loading tiles and its
    canvas is null unless the progress is 1. *)
Definition progressAsSpecified (queuedInitial : nat)
  (s : Layers.LayerPrintStatus) : Prop :=
  exists queuedNow loading : nat,
    num_eq (Layers.status_progress s)
      (expectedProgress queuedNow queuedInitial loading)
    /\ (strictEq (Layers.status_progress s) (ofZ 1) = false ->
        Layers.status_canvas s = None).

End Specified.

(* ------------------------------------------------------------------------- *)
(** * A small environment to run the model in *)

Module Sample.
Import Frame.

Definition view : ViewState :=
  {| center := (ofZ 0, ofZ 0);
     projection := "EPSG:3857";
     resolution := ofZ 1 |}.

Definition frame : FrameState :=
  {| size := (ofZ 800, ofZ 600);
     pixelRatio := ofZ 1;
     viewState := view |}.

(** At the centre of this view a pixel is [resolution] metres wide. *)
Definition getPointResolution (p : Projection) (resolution : number)
  (c : number * number) (u : ScaleBar.ProjUnits) : number := resolution.

Definition metersPerDegree : number := Fin (111194872221777 # 1000000000).

Definition measureText (s : string) : number :=
  ofZ (6 * Z.of_nat (String.length s)).

Definition context : ScaleBar.Context2D :=
  {| ScaleBar.canvas_height := ofZ 600; ScaleBar.ops := [] |}.

(** A scale bar in the default units and one in units the code does not
    know. *)
Definition defaultScaleBar : ScaleBar.ScaleBarSpec :=
  {| ScaleBar.template := None;
     ScaleBar.position := None;
     ScaleBar.units := None |}.

Definition furlongScaleBar : ScaleBar.ScaleBarSpec :=
  {| ScaleBar.template := None;
     ScaleBar.position := None;
     ScaleBar.units := Some "furlong" |}.

Abbreviation getScaleBarParams :=
  (ScaleBar.getScaleBarParams getPointResolution metersPerDegree).

Abbreviation printScaleBar :=
  (ScaleBar.printScaleBar getPointResolution metersPerDegree measureText
     showNumber).

(** A parser for URLs without a query and a fragment, and a serializer
    that does not percent-encode. *)
Definition parseURL (s : string) : option Utils.URL :=
  Some {| Utils.beforeQuery := s;
          Utils.searchParams := [];
          Utils.fragment := "" |}.

Definition href (u : Utils.URL) : string :=
  Utils.beforeQuery u ++ "?"
  ++ String.concat "&"
       (map (fun kv => fst kv ++ "=" ++ snd kv) (Utils.searchParams u))
  ++ Utils.fragment u.

Definition expandUrl (url : string) : list string := [url].

Definition extentFromProjection (p : option Projection) : Extent :=
  [ofZ (-20037508); ofZ (-20037508); ofZ 20037508; ofZ 20037508].

Definition requiredTiles (s : Layers.TileSource) (f : FrameState)
  : list Layers.TileKey :=
  ["2/1/1"; "2/2/1"; "2/1/2"; "2/2/2"; "2/0/1"; "2/3/1"].

Definition reprioritize (q : list Layers.TileKey) : list Layers.TileKey := q.

Definition tileIdle (k : Layers.TileKey) : bool := true.

Definition frameExtent (f : FrameState) : Extent :=
  [ofZ (-400); ofZ (-300); ofZ 400; ofZ 300].

Definition readFeatures (f : Layers.FeatureFormat) (text : string)
  : option (list string) :=
  if String.eqb text "" then None else Some [text].

(** A layer of a type the code does not know. *)
Definition tmsLayer : Layers.Layer :=
  {| Layers.type := "TMS";
     Layers.url := "https://example.org/tms/{z}/{x}/{y}.png";
     Layers.layer := None;
     Layers.opacity := Some (ofZ 1);
     Layers.tiled := false;
     Layers.tileGrid := None;
     Layers.projection := None;
     Layers.version := None;
     Layers.format := None |}.

(** A half-transparent WFS layer without a version. *)
Definition wfsLayer : Layers.Layer :=
  {| Layers.type := "WFS";
     Layers.url := "https://example.org/wfs";
     Layers.layer := Some "roads";
     Layers.opacity := Some (Fin (1 # 2));
     Layers.tiled := false;
     Layers.tileGrid := None;
     Layers.projection := None;
     Layers.version := None;
     Layers.format := Some "geojson" |}.

(** A WMTS layer with five resolutions and neither matrix ids nor extent. *)
Definition wmtsGrid : Layers.TileGrid :=
  {| Layers.resolutions :=
       Some [ofZ 16; ofZ 8; ofZ 4; ofZ 2; ofZ 1];
     Layers.extent := None;
     Layers.matrixIds := None;
     Layers.tileSize := Some (ofZ 256) |}.

Definition wmtsLayer : Layers.Layer :=
  {| Layers.type := "WMTS";
     Layers.url := "https://example.org/wmts";
     Layers.layer := Some "ortho";
     Layers.opacity := Some (Fin (1 # 2));
     Layers.tiled := false;
     Layers.tileGrid := Some wmtsGrid;
     Layers.projection := Some "EPSG:3857";
     Layers.version := None;
     Layers.format := Some "image/png" |}.

(** The URL object generateGetFeatureUrl builds for WFS version 2.0.2. *)
Definition baseUrlObj : Utils.URL :=
  {| Utils.beforeQuery := "https://example.org/wfs";
     Utils.searchParams := [];
     Utils.fragment := "" |}.

Definition getFeatureUrl_2_0_2 : Utils.URL :=
  Utils.getFeatureUrlObj showNumber baseUrlObj "2.0.2" "roads" None
    "EPSG:3857" [ofZ 0; ofZ 0; ofZ 10; ofZ 20].

(** The functions of the model in this environment. *)
Abbreviation createLayer :=
  (Layers.createLayer expandUrl extentFromProjection requiredTiles frameExtent
     parseURL href showNumber).

Abbreviation createLayerWFS :=
  (Layers.createLayerWFS frameExtent parseURL href showNumber).

Abbreviation createLayerWMTS :=
  (Layers.createLayerWMTS expandUrl extentFromProjection requiredTiles).

Definition xyzSource : Layers.TileSource :=
  {| Layers.kind := Layers.XYZ;
     Layers.urls := ["https://tile.example.org/{z}/{x}/{y}.png"];
     Layers.sourceLayer := None;
     Layers.sourceGrid := None |}.

Abbreviation tiledRun := (Layers.tiledRun reprioritize tileIdle).

(** A tiled task on six tiles; after the first tick four of them are
    loading, and one of those fails. *)
Abbreviation tiledTask :=
  (Layers.createTiledLayer requiredTiles xyzSource frame None).

Abbreviation failedTask :=
  (tiledRun ([Layers.Tick] ++ Layers.TileLoadError "2/1/1" :: []) tiledTask).


(** Two ticks, the second after the four tiles have loaded. *)
Definition twoTicks : list Layers.TileEvent :=
  [Layers.Tick; Layers.TileLoadEnd "2/1/1"; Layers.TileLoadEnd "2/2/1";
   Layers.TileLoadEnd "2/1/2"; Layers.TileLoadEnd "2/2/2"; Layers.Tick].

End Sample.

(* ------------------------------------------------------------------------- *)
(** * Further definitions *)

Module ScaleBarEdge.

(** A point resolution between 10^-9 and 10^9 units per pixel.  There
    the numbers getScaleBarParams computes stay far from the overflow and
    the underflow of double arithmetic, which [number] does not have. *)
Definition moderate (q : Q) : Prop :=
  (1 # 1000000000 <= q)%Q /\ (q <= 1000000000)%Q.

(** A point resolution the scale bar cannot be computed from: zero, a
    negative number, NaN or an infinity. *)
Definition degenerate (x : number) : Prop :=
  match x with
  | Fin q => (q <= 0)%Q
  | PosInf | NegInf | NaN => True
  end.

(** The units getScaleBarParams works with: those of the spec, "metric"
    when the spec has none or an empty string. *)
Definition effectiveUnits (specUnits : option string) : string :=
  match specUnits with
  | Some u => if String.eqb u "" then ScaleBar.Units_METRIC else u
  | None => ScaleBar.Units_METRIC
  end.

Definition isKnownUnits (u : string) : bool :=
  existsb (String.eqb u) ScaleBar.knownUnits.

End ScaleBarEdge.

Module UrlFacts.
Import Utils.

(** The number of pairs of a query with a given name. *)
Definition occurrences (name : string) (u : URL) : nat :=
  List.length
    (filter (fun kv => String.eqb (fst kv) name) (searchParams u)).

Definition isGeojson (format : option string) : bool :=
  match format with
  | Some f => String.eqb f "geojson"
  | None => false
  end.

(** The names generateGetFeatureUrl sets. *)
Definition namesSet (wfsVersion : string) (format : option string)
  : list string :=
  (["SERVICE"; "version"; "request";
    if String.eqb wfsVersion "2.0.0" then "typenames" else "typename";
    "srsName"; "bbox"]
   ++ (if isGeojson format then ["outputFormat"] else []))%list.

End UrlFacts.

Module TaskFacts.
Import Layers.

(** The value a subject of a layer task starts with. *)
Definition seed : LayerPrintStatus := (ofZ 0, None, None).

(** The version createLayerWFS works with. *)
Definition effectiveVersion (layerSpec : Layer) : string :=
  match version layerSpec with
  | Some v => if String.eqb v "" then "1.1.0" else v
  | None => "1.1.0"
  end.

(** A subject has emitted at most one value after its seed, a status with
    progress 1 and a canvas, and is stopped exactly when it has. *)
Definition atMostOneResult (p : BehaviorSubject) : Prop :=
  (values p = [seed] /\ isStopped p = false)
  \/ (exists (canvas : Canvas) (errorUrl : option string),
        values p = [seed; (ofZ 1, Some canvas, errorUrl)]
        /\ isStopped p = true).

End TaskFacts.

Module TiledFacts.
Import Layers.

(** A progress value between 0 and 1. *)
Definition inUnitInterval (x : number) : Prop :=
  match x with
  | Fin p => (0 <= p <= 1)%Q
  | PosInf | NegInf | NaN => False
  end.

(** [x <= y] on finite numbers. *)
Definition numLe (x y : number) : Prop :=
  match x, y with
  | Fin a, Fin b => (a <= b)%Q
  | _, _ => False
  end.

(** Each value of the list is at most the next one. *)
Fixpoint nondecreasing (l : list number) : Prop :=
  match l with
  | [] => True
  | x :: rest =>
      match rest with
      | [] => True
      | y :: _ => numLe x y
      end /\ nondecreasing rest
  end.

Definition progressValues (l : list LayerPrintStatus) : list number :=
  map status_progress l.

(** No event of the list is the failure of a tile. *)
Definition noTileFails (events : list TileEvent) : bool :=
  forallb
    (fun e => match e with TileLoadError _ => false | _ => true end) events.

(** The least progress value a task that has not completed can still
    emit: the value of its present queue, or 0.999 when the queue is
    empty. *)
Definition progressFloor (t : TiledLayer) : Q :=
  match List.length (queuedElements_ t) with
  | O => 999 # 1000
  | S _ =>
      1 - inject_Z (Z.of_nat (List.length (queuedElements_ t)))
          / inject_Z (Z.of_nat (tileCount t))
  end.

(** The emitted progress values do not decrease, and while the task runs
    the last of them is at most what can still be emitted. *)
Definition progressInvariant (t : TiledLayer) : Prop :=
  nondecreasing (progressValues (mapped t))
  /\ (completed t = false ->
      forall s, lastValue (mapped t) = Some s ->
                numLe (status_progress s) (Fin (progressFloor t))).

Definition hasSurface (s : LayerPrintStatus) : bool :=
  match status_canvas s with
  | Some _ => true
  | None => false
  end.

(** Only the last status of a completed task can carry a surface. *)
Definition surfaceInvariant (t : TiledLayer) : Prop :=
  Forall (fun s => hasSurface s = false) (removelast (mapped t))
  /\ (completed t = false ->
      Forall (fun s => hasSurface s = false) (mapped t)).

Definition isTick (e : TileEvent) : bool :=
  match e with
  | Tick => true
  | TileLoadEnd _ | TileLoadError _ => false
  end.

End TiledFacts.

Module ImageFacts.
Import Polyfills.

Definition isDecoded (op : ImageOp) : bool :=
  match op with
  | SetSrc _ Decoded => true
  | _ => false
  end.

(** One of the fetches started by the calls ended with a decoded bitmap. *)
Definition anyDecoded (ops : list ImageOp) : bool := existsb isDecoded ops.

Definition decodedCount (ops : list ImageOp) : nat :=
  List.length (filter isDecoded ops).

(** The size given by the last call of hintImageSize, 1 x 1 without one. *)
Definition lastHint (ops : list ImageOp) : number * number :=
  fold_left
    (fun size op =>
       match op with
       | HintImageSize w h => (w, h)
       | _ => size
       end) ops (ofZ 1, ofZ 1).

End ImageFacts.

(** ** The mock of a tile source

    The variable [errorCallback] belongs to the module: all the instances
    of XYZSourceMock share it. *)

Module SourceMock.

Definition Callback := string.
Definition Event := string.

Record XYZSourceMock : Type := { urls : list string }.

(** The state of the module: its variable and, as a record of what
    happened, the callbacks called with their events. *)
Record ModuleState : Type := {
  errorCallback : option Callback;
  invoked : list (Callback * Event)
}.

Definition initial : ModuleState :=
  {| errorCallback := None; invoked := [] |}.

Definition getUrls (self : XYZSourceMock) : list string := urls self.

Definition setTileLoadFunction (self : XYZSourceMock) (s : ModuleState)
  : ModuleState := s.

Definition on (self : XYZSourceMock) (type : string) (callback : Callback)
  (s : ModuleState) : ModuleState :=
  if String.eqb type "tileloaderror"
  then {| errorCallback := Some callback; invoked := invoked s |}
  else s.

(** Calling undefined throws a TypeError. *)
Definition triggerLoadError (event : Event) (s : ModuleState)
  : completion unit * ModuleState :=
  match errorCallback s with
  | Some callback =>
      (Normal tt,
       {| errorCallback := errorCallback s;
          invoked := (invoked s ++ [(callback, event)])%list |})
  | None => (Throw "TypeError", s)
  end.

(** A list of calls of [on], each by some instance. *)
Definition Registration : Type := XYZSourceMock * string * Callback.

Definition register (regs : list Registration) (s : ModuleState)
  : ModuleState :=
  fold_left (fun s r => on (fst (fst r)) (snd (fst r)) (snd r) s) regs s.

(** The callback of the last registration for 'tileloaderror'. *)
Definition lastErrorListener (regs : list Registration) : option Callback :=
  fold_left
    (fun found r =>
       if String.eqb (snd (fst r)) "tileloaderror" then Some (snd r)
       else found) regs None.

End SourceMock.

(** ** The entry points of the library *)

Module Index.

Section WithSpec.

Variable PrintSpec : Type.
Definition Blob := string.

Record PrintStatus : Type := {
  id : number;
  spec : PrintSpec;
  progress : number;
  status : string;
  imageBlob : option Blob;
  sourceLoadErrors : list string
}.

(** An observable seen up to some moment: the values it has emitted and
    whether it has completed. *)
Record Observed (A : Type) : Type := {
  emitted : list A;
  completed : bool
}.
Arguments emitted {A} _.
Arguments completed {A} _.

(** [take(1)] *)
Definition take1 {A : Type} (o : Observed A) : Observed A :=
  match emitted o with
  | [] => {| emitted := []; completed := completed o |}
  | x :: _ => {| emitted := [x]; completed := true |}
  end.

(** [switchMap(f)] on a stream of at most one value, as [take(1)] gives:
    the values of the inner stream, completed when both are. *)
Definition switchMap {A B : Type} (f : A -> Observed B) (o : Observed A)
  : Observed B :=
  match emitted o with
  | [] => {| emitted := []; completed := completed o |}
  | x :: _ =>
      {| emitted := emitted (f x);
         completed := completed o && completed (f x) |}
  end.

(** [takeWhile(predicate, true)]: the first value that fails the
    predicate passes too, and the stream completes with it. *)
Fixpoint takeWhileInclusive {A : Type} (predicate : A -> bool)
  (values : list A) (sourceCompleted : bool) : Observed A :=
  match values with
  | [] => {| emitted := []; completed := sourceCompleted |}
  | x :: rest =>
      if predicate x then
        let o := takeWhileInclusive predicate rest sourceCompleted in
        {| emitted := x :: emitted o; completed := completed o |}
      else {| emitted := [x]; completed := true |}
  end.

Definition takeWhile {A : Type} (predicate : A -> bool) (o : Observed A)
  : Observed A :=
  takeWhileInclusive predicate (emitted o) (completed o).

Definition mapObserved {A B : Type} (f : A -> B) (o : Observed A)
  : Observed B :=
  {| emitted := map f (emitted o); completed := completed o |}.

(** A promise: pending, or resolved with a value ([None] is undefined). *)
Inductive Promise (A : Type) : Type :=
| Pending
| Resolved (value : option A).
Arguments Pending {A}.
Arguments Resolved {A} _.

(** [toPromise()]: resolves on completion with the last value. *)
Definition toPromise {A : Type} (o : Observed (option A)) : Promise A :=
  if completed o then
    Resolved (match Layers.lastValue (emitted o) with
              | Some v => v
              | None => None
              end)
  else Pending.

(** The messages posted to the printer. *)
Inductive Message : Type :=
| MESSAGE_JOB_REQUEST (spec : PrintSpec).

(** The streams of ./jobs, which is not part of the sources: the jobs the
    printer announces after the request (objects with an [id]), and the
    status stream of a job. *)
Variable newJob : Observed PrintStatus.
Variable getJobStatusObservable : number -> Observed PrintStatus.

Definition messageToPrinter (m : Message) (posted : list Message)
  : list Message := (posted ++ [m])%list.

Definition inProgress (job : PrintStatus) : bool := lt (progress job) (ofZ 1).

Definition print (printSpec : PrintSpec) (posted : list Message)
  : Promise Blob * list Message :=
  let posted := messageToPrinter (MESSAGE_JOB_REQUEST printSpec) posted in
  (toPromise
     (mapObserved imageBlob
        (takeWhile inProgress
           (switchMap (fun job => getJobStatusObservable (id job))
              (take1 newJob)))),
   posted).

Definition queuePrint (printSpec : PrintSpec) (posted : list Message)
  : Promise number * list Message :=
  let posted := messageToPrinter (MESSAGE_JOB_REQUEST printSpec) posted in
  (toPromise (mapObserved (fun job => Some (id job)) (take1 newJob)),
   posted).

Definition getJobStatus (jobId : number) : Observed PrintStatus :=
  takeWhile inProgress (getJobStatusObservable jobId).

End WithSpec.

Arguments emitted {A} _.
Arguments completed {A} _.
Arguments Pending {A}.
Arguments Resolved {A} _.
Arguments id {PrintSpec} _.
Arguments progress {PrintSpec} _.
Arguments imageBlob {PrintSpec} _.
Arguments inProgress {PrintSpec} _.
Arguments getJobStatus {PrintSpec} _ _.
Arguments print {PrintSpec} _ _ _ _.
Arguments queuePrint {PrintSpec} _ _ _.

End Index.

(** ** What a list of canvas calls draws *)

Module Drawing.
Import ScaleBar.

(** The x coordinates given to moveTo and to lineTo, and the texts given
    to fillText with their x coordinate, in the order of the calls. *)
Definition moveXs (l : list CanvasOp) : list number :=
  flat_map (fun op => match op with MoveTo x _ => [x] | _ => [] end) l.

Definition lineXs (l : list CanvasOp) : list number :=
  flat_map (fun op => match op with LineTo x _ => [x] | _ => [] end) l.

Definition filledTexts (l : list CanvasOp) : list (string * number) :=
  flat_map
    (fun op => match op with FillText text x _ => [(text, x)] | _ => [] end) l.

(** The position is the one the code compares with. *)
Definition isBottomRight (position : option string) : bool :=
  match position with
  | Some p => String.eqb p "bottom-right"
  | None => false
  end.

End Drawing.

(** ** Further sample inputs *)

Module Examples.
Import Frame.

(** A frame whose view has resolution 0. *)
Definition stillFrame : FrameState :=
  {| size := (ofZ 800, ofZ 600);
     pixelRatio := ofZ 1;
     viewState :=
       {| center := (ofZ 0, ofZ 0);
          projection := "EPSG:3857";
          resolution := ofZ 0 |} |}.

(** A scale bar in feet, in the bottom right corner. *)
Definition cornerScaleBar : ScaleBar.ScaleBarSpec :=
  {| ScaleBar.template := None;
     ScaleBar.position := Some "bottom-right";
     ScaleBar.units := Some "imperial" |}.

(** A WMS layer requested as one image, at a quarter of the opacity. *)
Definition wmsLayer : Layers.Layer :=
  {| Layers.type := "WMS";
     Layers.url := "https://example.org/wms";
     Layers.layer := Some "parcels";
     Layers.opacity := Some (Fin (1 # 4));
     Layers.tiled := false;
     Layers.tileGrid := None;
     Layers.projection := None;
     Layers.version := None;
     Layers.format := None |}.

(** A first render that asks for no tile. *)
Definition noTiles (s : Layers.TileSource) (f : FrameState)
  : list Layers.TileKey := [].

(** The six tiles of the sample task load in two rounds. *)
Definition fullRun : list Layers.TileEvent :=
  (Sample.twoTicks
   ++ [Layers.TileLoadEnd "2/0/1"; Layers.TileLoadEnd "2/3/1";
       Layers.Tick])%list.

(** A task of 1001 tiles with one tile left in the queue, and the same
    task once that tile is loading. *)
Definition lastQueued : Layers.TiledLayer :=
  {| Layers.source := Sample.xyzSource;
     Layers.tiledFrameState :=
       Utils.setFrameState Sample.frame (Layers.TileLayer Sample.xyzSource)
         None;
     Layers.tiledCanvas :=
       Layers.createCanvasContext2D (ofZ 800) (ofZ 600);
     Layers.queuedElements_ := ["9/0/0"];
     Layers.tilesLoadingKeys_ := [];
     Layers.tileCount := 1001;
     Layers.tileLoadErrorUrl := None;
     Layers.mapped := [];
     Layers.completed := false |}.

Definition lastLoading : Layers.TiledLayer :=
  Layers.withTileQueue lastQueued [] ["9/0/0"].





End Examples.

(* ------------------------------------------------------------------------- *)
(** * Properties *)

(** ** Numbers *)

Lemma Qfloor_inject_Z (z : Z) : Qfloor (inject_Z z) = z.
Proof. exact (Qfloor_Z z). Qed.

Lemma pow10_pos (n : Z) : (0 < pow10 n)%Q.
Proof.
  destruct n as [|p|p]; cbn [pow10].
  - reflexivity.
  - assert (H : 0 < 10 ^ Z.pos p) by (apply Z.pow_pos_nonneg; lia).
    unfold Qlt; cbn. lia.
  - assert (H : 0 < 10 ^ Z.pos p) by (apply Z.pow_pos_nonneg; lia).
    apply Qinv_lt_0_compat. unfold Qlt; cbn. lia.
Qed.

Lemma pow10_le_10 (n : Z) : n <= 1 -> (pow10 n <= 10)%Q.
Proof.
  intros Hn. destruct n as [|p|p]; cbn [pow10].
  - discriminate.
  - assert (p = 1%positive) by lia. subst p. discriminate.
  - assert (H : 1 <= 10 ^ Z.pos p) by (apply Z.lt_pred_le, Z.pow_pos_nonneg; lia).
    destruct (10 ^ Z.pos p) as [|q|q] eqn:E; try lia.
    unfold Qle, Qinv, inject_Z; cbn. lia.
Qed.

Lemma pow10_ge_100 (n : Z) : 2 <= n -> (100 <= pow10 n)%Q.
Proof.
  intros Hn. destruct n as [|p|p]; try lia. cbn [pow10].
  rewrite <- (Zle_Qle 100).
  change 100 with (10 ^ 2). apply Z.pow_le_mono_r; lia.
Qed.

(** ** The scale bar *)

Section ScaleBarProperties.
Import Frame ScaleBar.

Variable getPointResolution :
  Projection -> number -> number * number -> ProjUnits -> number.
Variable metersPerDegree : number.

(** Among the numbers {1,2,5} x 10^n, none below 100 is 64 pixels wide at
    one ground unit per pixel. *)
Lemma round_numbers_below_100_too_narrow (d n : Z) :
  In d [1; 2; 5] ->
  64 <= pixelWidth (inject_Z d * pow10 n) 1 ->
  (100 <= inject_Z d * pow10 n)%Q.
Proof.
  intros Hd Hw.
  assert (Hd' : 1 <= d <= 5) by (cbn in Hd; lia).
  destruct (Z_le_gt_dec 2 n) as [Hn | Hn].
  - setoid_replace 100%Q with (1 * 100)%Q by reflexivity.
    apply Qmult_le_compat_nonneg.
    + split; [discriminate |].
      change 1%Q with (inject_Z 1). rewrite <- Zle_Qle. lia.
    + split; [discriminate | now apply pow10_ge_100].
  - exfalso.
    assert (Hp : (pow10 n <= 10)%Q) by (apply pow10_le_10; lia).
    assert (Hv : (inject_Z d * pow10 n <= 5 * 10)%Q).
    { apply Qmult_le_compat_nonneg.
      - change 0%Q with (inject_Z 0). change 5%Q with (inject_Z 5).
        rewrite <- !Zle_Qle. lia.
      - split; [apply Qlt_le_weak, pow10_pos | exact Hp]. }
    assert (Hf : pixelWidth (inject_Z d * pow10 n) 1 <= 50).
    { unfold pixelWidth.
      change 50 with (Qfloor (5 * 10 / 1 + (1 # 2))).
      apply Qfloor_resp_le.
      apply Qplus_le_l. unfold Qdiv.
      apply Qmult_le_compat_r; [exact Hv | discriminate]. }
    lia.
Qed.

(** C1.  With metric units (asked for or by default) and a point
    resolution of one metre per pixel, getScaleBarParams returns
    scalenumber 100, width 100 and suffix "m" and writes nothing to the
    console; 100 is 1 x 10^2, it is 100 >= 64 pixels wide, and it is the
    smallest of the numbers {1,2,5} x 10^n that is at least 64 pixels
    wide. *)
Theorem C1_scale_bar_metric_one_unit_per_pixel
  (frameState : FrameState) (scaleBar : ScaleBarSpec) (fuel : nat) :
  units scaleBar = None \/ units scaleBar = Some "metric" ->
  getPointResolution (projection (viewState frameState))
    (resolution (viewState frameState)) (center (viewState frameState))
    ProjUnits_METERS = ofZ 1 ->
  (4 <= fuel)%nat ->
  run (getScaleBarParams getPointResolution metersPerDegree fuel frameState
         (Some scaleBar))
  = (Normal (Some {| width := ofZ 100;
                     scalenumber := ofZ 100;
                     suffix := "m" |}), [])
  /\ (inject_Z 100 == inject_Z 1 * pow10 2)%Q
  /\ 64 <= pixelWidth (inject_Z 100) 1
  /\ forall d n : Z,
       In d [1; 2; 5] ->
       64 <= pixelWidth (inject_Z d * pow10 n) 1 ->
       (inject_Z 100 <= inject_Z d * pow10 n)%Q.
Proof.
  intros Hunits Hres Hfuel.
  split; [| split; [reflexivity | split; [discriminate |]]].
  - destruct fuel as [|[|[|[|fuel]]]]; try lia.
    unfold run, getScaleBarParams, bind, readUnits, ret.
    assert (Heff :
      match units scaleBar with
      | Some u => if String.eqb u "" then Units_METRIC else u
      | None => Units_METRIC
      end = Units_METRIC) by (destruct Hunits as [-> | ->]; reflexivity).
    rewrite Heff.
    change (String.eqb Units_METRIC Units_DEGREES) with false.
    cbv iota. rewrite Hres. vm_compute. reflexivity.
  - intros d n Hd Hw.
    now apply round_numbers_below_100_too_narrow.
Qed.

End ScaleBarProperties.

(** ** The WFS request builder *)

Section GetFeatureProperties.
Import Utils.

Lemma searchParams_get_delete_other (name other : string)
  (l : list (string * string)) :
  name <> other ->
  searchParams_get name (searchParams_delete other l)
  = searchParams_get name l.
Proof.
  intros Hne. induction l as [| [k v] l IH]; cbn; [reflexivity |].
  destruct (String.eqb_spec k other) as [-> | Hk]; cbn.
  - destruct (String.eqb_spec other name) as [E | _]; [congruence | exact IH].
  - destruct (String.eqb_spec k name); [reflexivity | exact IH].
Qed.

Lemma searchParams_get_set_same (name value : string)
  (l : list (string * string)) :
  searchParams_get name (searchParams_set name value l) = Some value.
Proof.
  induction l as [| [k v] l IH]; cbn.
  - now rewrite String.eqb_refl.
  - destruct (String.eqb_spec k name) as [-> | Hk]; cbn.
    + now rewrite String.eqb_refl.
    + destruct (String.eqb_spec k name); [contradiction | exact IH].
Qed.

Lemma searchParams_get_set_other (name other value : string)
  (l : list (string * string)) :
  name <> other ->
  searchParams_get name (searchParams_set other value l)
  = searchParams_get name l.
Proof.
  intros Hne. induction l as [| [k v] l IH]; cbn.
  - destruct (String.eqb_spec other name); [congruence | reflexivity].
  - destruct (String.eqb_spec k other) as [-> | Hk]; cbn.
    + destruct (String.eqb_spec other name); [congruence |].
      now apply searchParams_get_delete_other.
    + destruct (String.eqb_spec k name); [reflexivity | exact IH].
Qed.

Lemma get_set_same (name value : string) (u : URL) :
  get name (set name value u) = Some value.
Proof. apply searchParams_get_set_same. Qed.

Lemma get_set_other (name other value : string) (u : URL) :
  name <> other -> get name (set other value u) = get name u.
Proof. apply searchParams_get_set_other. Qed.

Variable parseURL : string -> option URL.
Variable href : URL -> string.
Variable numberToString : number -> string.

(** The parameters of the URL object built from [urlObj]. *)
Lemma getFeatureUrlObj_params (urlObj : URL) (wfsVersion layerName : string)
  (format : option string) (projCode : string) (extent : Extent) :
  let u := getFeatureUrlObj numberToString urlObj wfsVersion layerName
             format projCode extent in
  get "SERVICE" u = Some "WFS"
  /\ get "version" u = Some wfsVersion
  /\ get "request" u = Some "GetFeature"
  /\ get "srsName" u = Some projCode
  /\ get "bbox" u = Some (join numberToString extent ++ "," ++ projCode)
  /\ (format = Some "geojson" ->
      get "outputFormat" u = Some "application/json")
  /\ (format <> Some "geojson" ->
      get "outputFormat" u = get "outputFormat" urlObj)
  /\ (wfsVersion = "2.0.0" ->
      get "typenames" u = Some layerName
      /\ get "typename" u = get "typename" urlObj)
  /\ (wfsVersion <> "2.0.0" ->
      get "typename" u = Some layerName
      /\ get "typenames" u = get "typenames" urlObj).
Proof.
  intros u. subst u. unfold getFeatureUrlObj.
  assert (Hfmt : forall v : URL,
    match format with
    | Some "geojson" => set "outputFormat" "application/json" v
    | _ => v
    end = (if match format with
              | Some f => String.eqb f "geojson"
              | None => false
              end
           then set "outputFormat" "application/json" v else v)).
  { intros v. destruct format as [f |]; [| reflexivity].
    destruct (String.eqb_spec f "geojson") as [-> | Hf]; [reflexivity |].
    repeat
      match goal with
      | |- context [match ?s with EmptyString => _ | String _ _ => _ end] =>
          destruct s; try reflexivity
      | |- context [match ?c with Ascii _ _ _ _ _ _ _ _ => _ end] =>
          destruct c
      | |- context [if ?b then _ else _] => destruct b; try reflexivity
      end; congruence. }
  rewrite Hfmt. clear Hfmt.
  set (isGeo := match format with
                | Some f => String.eqb f "geojson"
                | None => false
                end).
  assert (HisGeo : isGeo = true <-> format = Some "geojson").
  { subst isGeo. destruct format as [f |]; [| split; discriminate].
    destruct (String.eqb_spec f "geojson"); split; congruence. }
  destruct (String.eqb_spec wfsVersion "2.0.0") as [Hv | Hv];
    destruct isGeo;
    repeat split; intros;
    try congruence;
    try (exfalso; (apply (proj1 HisGeo) in H || apply (proj2 HisGeo) in H);
         congruence);
    repeat first
      [ rewrite get_set_same
      | rewrite get_set_other by discriminate ];
    try reflexivity;
    try (destruct HisGeo as [Hg _]; specialize (Hg eq_refl); congruence).
Qed.

End GetFeatureProperties.

Section GetFeatureUrl.
Import Utils.

Variable parseURL : string -> option URL.
Variable href : URL -> string.
Variable numberToString : number -> string.

(** C4.  For a base URL that starts with "http" and that the URL
    parser accepts, generateGetFeatureUrl returns the href of a URL whose
    query has SERVICE=WFS, version=<wfsVersion>, request=GetFeature,
    srsName=<projCode> and bbox=<extent joined by commas>,<projCode>;
    outputFormat=application/json is set when the format is 'geojson' and
    outputFormat is left as in the base URL otherwise; the layer name is
    set under 'typenames' when the version is the string "2.0.0" and under
    'typename' for every other version, the other of the two names being
    left as in the base URL. *)
Theorem C4_get_feature_url_parameters
  (baseUrl wfsVersion layerName : string) (format : option string)
  (projCode : string) (extent : Extent) (urlObj : URL) :
  substring 0 4 baseUrl = "http" ->
  parseURL baseUrl = Some urlObj ->
  exists u : URL,
    run (generateGetFeatureUrl parseURL href numberToString baseUrl
           wfsVersion layerName format projCode extent)
    = (Normal (href u), [])
    /\ get "SERVICE" u = Some "WFS"
    /\ get "version" u = Some wfsVersion
    /\ get "request" u = Some "GetFeature"
    /\ get "srsName" u = Some projCode
    /\ get "bbox" u = Some (join numberToString extent ++ "," ++ projCode)
    /\ (format = Some "geojson" ->
        get "outputFormat" u = Some "application/json")
    /\ (format <> Some "geojson" ->
        get "outputFormat" u = get "outputFormat" urlObj)
    /\ (wfsVersion = "2.0.0" ->
        get "typenames" u = Some layerName
        /\ get "typename" u = get "typename" urlObj)
    /\ (wfsVersion <> "2.0.0" ->
        get "typename" u = Some layerName
        /\ get "typenames" u = get "typenames" urlObj).
Proof.
  intros Hhttp Hparse.
  exists (getFeatureUrlObj numberToString urlObj wfsVersion layerName format
            projCode extent).
  split.
  - unfold run, generateGetFeatureUrl. rewrite Hhttp, Hparse. reflexivity.
  - apply getFeatureUrlObj_params.
Qed.

End GetFeatureUrl.

Lemma C4_get_feature_url_parameters_witness :
  exists u : Utils.URL,
    run (Utils.generateGetFeatureUrl Sample.parseURL Sample.href showNumber
           "https://example.org/wfs" "2.0.0" "roads" (Some "geojson")
           "EPSG:3857" [ofZ 0; ofZ 0; ofZ 10; ofZ 20])
    = (Normal (Sample.href u), [])
    /\ Utils.get "typenames" u = Some "roads"
    /\ Utils.get "bbox" u = Some "0,0,10,20,EPSG:3857"
    /\ Utils.get "outputFormat" u = Some "application/json".
Proof.
  destruct (C4_get_feature_url_parameters Sample.parseURL Sample.href
              showNumber "https://example.org/wfs" "2.0.0" "roads"
              (Some "geojson") "EPSG:3857" [ofZ 0; ofZ 0; ofZ 10; ofZ 20]
              Sample.baseUrlObj eq_refl eq_refl)
    as (u & Hrun & _ & _ & _ & _ & Hbbox & Hgeo & _ & Hv & _).
  exists u. split; [exact Hrun |].
  split; [exact (proj1 (Hv eq_refl)) |].
  split; [exact Hbbox | exact (Hgeo eq_refl)].
Defined.

(** For WFS version "2.0.2", which is at least 2.0.0, the layer name is put
    under 'typename' and the URL has no 'typenames' parameter. *)
Lemma C4_counterexample :
  Utils.versionAtLeast_2_0_0 "2.0.2" = true
  /\ Specified.expectedTypeNameLabel "2.0.2" = "typenames"
  /\ run (Utils.generateGetFeatureUrl Sample.parseURL Sample.href showNumber
            "https://example.org/wfs" "2.0.2" "roads" None "EPSG:3857"
            [ofZ 0; ofZ 0; ofZ 10; ofZ 20])
     = (Normal (Sample.href Sample.getFeatureUrl_2_0_2), [])
  /\ Utils.get "typenames" Sample.getFeatureUrl_2_0_2 = None
  /\ Utils.get "typename" Sample.getFeatureUrl_2_0_2 = Some "roads".
Proof. vm_compute. repeat split; reflexivity. Qed.

(** ** Layer creation *)

Section LayerCreation.
Import Frame Utils Layers.

Variable expandUrl : string -> list string.
Variable extentFromProjection : option Projection -> Extent.
Variable requiredTiles : TileSource -> FrameState -> list TileKey.
Variable frameExtent : FrameState -> Extent.
Variable parseURL : string -> option URL.
Variable href : URL -> string.
Variable numberToString : number -> string.

Let createLayer :=
  Layers.createLayer expandUrl extentFromProjection requiredTiles
    frameExtent parseURL href numberToString.
Let createLayerWMTS :=
  Layers.createLayerWMTS expandUrl extentFromProjection requiredTiles.
Let createLayerWFS :=
  Layers.createLayerWFS frameExtent parseURL href numberToString.

(** C5.  For a layer whose type is none of XYZ, WMS, WMTS and
    WFS, createLayer returns undefined: it does not throw, writes nothing
    to the console and creates no render task. *)
Theorem C5_unknown_layer_type_returns_undefined
  (layerSpec : Layer) (rootFrameState : FrameState) (console : Console) :
  ~ In (type layerSpec) knownTypes ->
  createLayer layerSpec rootFrameState console = (Normal None, console).
Proof.
  intros Hunknown. unfold createLayer, Layers.createLayer.
  destruct (String.eqb_spec (type layerSpec) "XYZ") as [E | _];
    [exfalso; apply Hunknown; rewrite E; cbn; tauto |].
  destruct (String.eqb_spec (type layerSpec) "WMS") as [E | _];
    [exfalso; apply Hunknown; rewrite E; cbn; tauto |].
  destruct (String.eqb_spec (type layerSpec) "WMTS") as [E | _];
    [exfalso; apply Hunknown; rewrite E; cbn; tauto |].
  destruct (String.eqb_spec (type layerSpec) "WFS") as [E | _];
    [exfalso; apply Hunknown; rewrite E; cbn; tauto |].
  reflexivity.
Qed.

(** C7.  For a WMTS layer whose tile grid has resolutions and no matrix
    ids, createLayerWMTS builds the source on a tile grid whose matrix ids
    are 0, 1, ..., resolutions.length - 1 and whose extent is the one
    supplied or, when none is, the extent of the projection. *)
Theorem C7_wmts_default_matrix_ids_and_extent
  (layerSpec : Layer) (rootFrameState : FrameState) (grid : TileGrid)
  (res : list number) :
  tileGrid layerSpec = Some grid ->
  matrixIds grid = None ->
  resolutions grid = Some res ->
  exists (t : TiledLayer) (g : WMTSTileGrid),
    run (createLayerWMTS layerSpec rootFrameState) = (Normal t, [])
    /\ kind (source t) = WMTS
    /\ sourceGrid (source t) = Some g
    /\ grid_matrixIds g = map MatrixIndex (seq 0 (List.length res))
    /\ grid_resolutions g = Some res
    /\ grid_extent g =
         match extent grid with
         | Some e => e
         | None => extentFromProjection (projection layerSpec)
         end.
Proof.
  intros Hgrid Hids Hres.
  unfold run, createLayerWMTS, Layers.createLayerWMTS.
  rewrite Hgrid, Hids, Hres. cbn.
  eexists. eexists. split; [reflexivity |].
  cbn. repeat split; reflexivity.
Qed.

(** C8.  The layer state of a WFS task always has opacity 1, whatever the
    opacity of the layer spec; the layer state of an XYZ, WMS or WMTS task
    has the opacity of the layer spec (1 when the spec has none). *)
Theorem C8_wfs_opacity_not_applied
  (layerSpec : Layer) (rootFrameState : FrameState) (task : LayerTask)
  (console console' : Console) :
  createLayer layerSpec rootFrameState console = (Normal (Some task), console') ->
  layerOpacity (taskFrameState task)
  = Some (if String.eqb (type layerSpec) "WFS" then ofZ 1
          else match opacity layerSpec with
               | Some o => o
               | None => ofZ 1
               end).
Proof.
  unfold createLayer, Layers.createLayer.
  destruct (String.eqb_spec (type layerSpec) "XYZ") as [E | _].
  { rewrite E. cbn. intros H. injection H as <- _. reflexivity. }
  destruct (String.eqb_spec (type layerSpec) "WMS") as [E | _].
  { rewrite E. cbn. unfold Layers.createLayerWMS.
    destruct (tiled layerSpec); intros H; injection H as <- _; reflexivity. }
  destruct (String.eqb_spec (type layerSpec) "WMTS") as [E | _].
  { rewrite E. cbn. unfold bind, Layers.createLayerWMTS.
    destruct (tileGrid layerSpec) as [g |]; [| discriminate].
    unfold bind. destruct (matrixIds g) as [ids |].
    - cbn. intros H. injection H as <- _. reflexivity.
    - destruct (resolutions g) as [r |]; [| discriminate].
      cbn. intros H. injection H as <- _. reflexivity. }
  destruct (String.eqb_spec (type layerSpec) "WFS") as [E | _];
    [| discriminate].
  unfold bind, Layers.createLayerWFS, bind.
  destruct (generateGetFeatureUrl _ _ _ _ _ _ _ _ _ console) as [[u | e |] c];
    try discriminate.
  cbn. intros H. injection H as <- _. reflexivity.
Qed.

(** C9.  For a WFS layer spec without a version the task uses version
    '1.1.0'; when the URL of the layer starts with "http" and is accepted
    by the URL parser, the request URL is the href of a URL with
    version=1.1.0 and the layer name under 'typename', and the task leaves
    'typenames' as it is in the URL of the layer. *)
Theorem C9_wfs_default_version
  (layerSpec : Layer) (rootFrameState : FrameState) :
  version layerSpec = None ->
  (forall (task : VectorTask) (console : Console),
      run (createLayerWFS layerSpec rootFrameState) = (Normal task, console) ->
      vectorVersion task = "1.1.0")
  /\ (forall urlObj : URL,
        substring 0 4 (url layerSpec) = "http" ->
        parseURL (url layerSpec) = Some urlObj ->
        exists (task : VectorTask) (u : URL),
          run (createLayerWFS layerSpec rootFrameState) = (Normal task, [])
          /\ vectorVersion task = "1.1.0"
          /\ requestUrl task = href u
          /\ get "version" u = Some "1.1.0"
          /\ get "typename" u = Some (layerName layerSpec)
          /\ get "typenames" u = get "typenames" urlObj).
Proof.
  intros Hversion. split.
  - intros task console.
    unfold run, createLayerWFS, Layers.createLayerWFS, bind.
    rewrite Hversion.
    destruct (generateGetFeatureUrl _ _ _ _ _ _ _ _ _ []) as [[u | e |] c];
      try discriminate.
    cbn. intros H. injection H as <- _. reflexivity.
  - intros urlObj Hhttp Hparse.
    pose proof (getFeatureUrlObj_params numberToString urlObj "1.1.0"
                  (layerName layerSpec) (format layerSpec)
                  (Frame.projection (viewState rootFrameState))
                  (frameExtent rootFrameState))
      as (_ & Hv & _ & _ & _ & _ & _ & _ & Hname).
    eexists. eexists.
    unfold run, createLayerWFS, Layers.createLayerWFS, bind,
      generateGetFeatureUrl.
    rewrite Hversion, Hhttp, Hparse. cbn.
    split; [reflexivity |].
    split; [reflexivity |].
    split; [reflexivity |].
    split; [exact Hv |].
    apply Hname. discriminate.
Qed.

End LayerCreation.

Lemma C5_unknown_layer_type_returns_undefined_witness :
  ~ In (Layers.type Sample.tmsLayer) Layers.knownTypes
  /\ Sample.createLayer Sample.tmsLayer Sample.frame [] = (Normal None, []).
Proof.
  assert (H : ~ In (Layers.type Sample.tmsLayer) Layers.knownTypes).
  { cbn. intros [E | [E | [E | [E | []]]]]; discriminate E. }
  split; [exact H |].
  exact (C5_unknown_layer_type_returns_undefined Sample.expandUrl
           Sample.extentFromProjection Sample.requiredTiles
           Sample.frameExtent Sample.parseURL Sample.href showNumber
           Sample.tmsLayer Sample.frame [] H).
Defined.

(** For a layer of type "TMS" createLayer neither throws nor writes to the
    console: no configuration error is surfaced. *)
Lemma C5_counterexample :
  ~ In (Layers.type Sample.tmsLayer) Layers.knownTypes
  /\ ~ Specified.surfacesError (run (Sample.createLayer Sample.tmsLayer Sample.frame)).
Proof.
  split.
  - cbn. intros [E | [E | [E | [E | []]]]]; discriminate E.
  - intros [[e He] | Hlog].
    + vm_compute in He. discriminate He.
    + apply Hlog. reflexivity.
Qed.

Lemma C7_wmts_default_matrix_ids_and_extent_witness :
  exists (t : Layers.TiledLayer) (g : Layers.WMTSTileGrid),
    run (Sample.createLayerWMTS Sample.wmtsLayer Sample.frame) = (Normal t, [])
    /\ Layers.sourceGrid (Layers.source t) = Some g
    /\ Layers.grid_matrixIds g
       = [Layers.MatrixIndex 0; Layers.MatrixIndex 1; Layers.MatrixIndex 2;
          Layers.MatrixIndex 3; Layers.MatrixIndex 4]
    /\ Layers.grid_extent g = Sample.extentFromProjection (Some "EPSG:3857").
Proof.
  destruct (C7_wmts_default_matrix_ids_and_extent Sample.expandUrl
              Sample.extentFromProjection Sample.requiredTiles
              Sample.wmtsLayer Sample.frame Sample.wmtsGrid
              [ofZ 16; ofZ 8; ofZ 4; ofZ 2; ofZ 1] eq_refl eq_refl eq_refl)
    as (t & g & Hrun & _ & Hgrid & Hids & _ & Hextent).
  exists t, g. repeat split; assumption.
Defined.

Lemma C8_wfs_opacity_not_applied_witness :
  exists task : Layers.LayerTask,
    Sample.createLayer Sample.wfsLayer Sample.frame [] = (Normal (Some task), [])
    /\ Layers.opacity Sample.wfsLayer = Some (Fin (1 # 2))
    /\ Utils.layerOpacity (Layers.taskFrameState task) = Some (ofZ 1).
Proof.
  destruct (Sample.createLayer Sample.wfsLayer Sample.frame [])
    as [[[task |] | e |] c] eqn:E; try (vm_compute in E; discriminate E).
  assert (Hc : c = []) by (vm_compute in E; congruence).
  subst c. exists task. split; [reflexivity |]. split; [reflexivity |].
  exact (C8_wfs_opacity_not_applied Sample.expandUrl
           Sample.extentFromProjection Sample.requiredTiles
           Sample.frameExtent Sample.parseURL Sample.href showNumber
           Sample.wfsLayer Sample.frame task [] [] E).
Defined.

Lemma C9_wfs_default_version_witness :
  exists (task : Layers.VectorTask) (u : Utils.URL),
    run (Sample.createLayerWFS Sample.wfsLayer Sample.frame) = (Normal task, [])
    /\ Layers.vectorVersion task = "1.1.0"
    /\ Layers.requestUrl task = Sample.href u
    /\ Utils.get "version" u = Some "1.1.0"
    /\ Utils.get "typename" u = Some "roads"
    /\ Utils.get "typenames" u = None.
Proof.
  destruct (proj2 (C9_wfs_default_version Sample.frameExtent Sample.parseURL
                     Sample.href showNumber Sample.wfsLayer Sample.frame
                     eq_refl)
              Sample.baseUrlObj eq_refl eq_refl)
    as (task & u & Hrun & Hver & Hurl & Hv & Hname & Hnames).
  exists task, u. repeat split; assumption.
Defined.

(** ** The Image of the worker thread *)

Section ImagePolyfill.
Import Polyfills.

Lemma addEventListener_other_event (eventName : string)
  (callback : Callback) (img : Image) :
  eventName <> "load" -> addEventListener eventName callback img = img.
Proof.
  intros Hne. unfold addEventListener.
  destruct (String.eqb_spec eventName "load"); [contradiction | reflexivity].
Qed.

Lemma set_src_failure (url : string) (outcome : FetchOutcome) (img : Image) :
  isFailure outcome = true -> set_src url outcome img = img.
Proof. destruct outcome; [reflexivity .. | discriminate]. Qed.

(** The callbacks an image has called or keeps waiting were all given to
    addEventListener for 'load'. *)
Lemma imageOp_listeners (op : ImageOp) (img : Image) (known : list Callback) :
  incl (called img ++ loadReactions img) known ->
  incl (called (imageOp op img) ++ loadReactions (imageOp op img))
       (known ++ loadListeners [op]).
Proof.
  intros Hincl.
  assert (Hc : forall a, In a (called img) -> In a known)
    by (intros a Ha; apply Hincl, in_or_app; now left).
  assert (Hr : forall a, In a (loadReactions img) -> In a known)
    by (intros a Ha; apply Hincl, in_or_app; now right).
  clear Hincl. intros x Hx. apply in_or_app. apply in_app_or in Hx.
  destruct op as [url outcome | eventName callback | |]; cbn in *.
  - left. destruct outcome; cbn in Hx; try (destruct Hx; now auto).
    unfold loadPromiseResolver in Hx. cbn in Hx.
    destruct (loadResolved img); cbn in Hx; destruct Hx as [Hx | Hx];
      auto; try contradiction.
    apply in_app_or in Hx. destruct Hx; auto.
  - unfold addEventListener in Hx.
    destruct (String.eqb eventName "load"); cbn in Hx.
    + destruct (loadResolved img).
      * destruct Hx as [Hx | Hx]; auto.
        apply in_app_or in Hx. destruct Hx as [Hx | Hx]; auto.
      * destruct Hx as [Hx | Hx]; auto.
        apply in_app_or in Hx. destruct Hx as [Hx | Hx]; auto.
    + left. destruct Hx; auto.
  - left. destruct Hx; auto.
  - left. destruct Hx; auto.
Qed.

Lemma imageOps_listeners (ops : list ImageOp) (img : Image)
  (known : list Callback) :
  incl (called img ++ loadReactions img) known ->
  incl (called (imageOps ops img) ++ loadReactions (imageOps ops img))
       (known ++ loadListeners ops).
Proof.
  revert img known. induction ops as [| op ops IH]; intros img known Hincl.
  - cbn. now rewrite app_nil_r.
  - cbn [imageOps fold_left]. change (fold_left _ ops ?i) with (imageOps ops i).
    replace (loadListeners (op :: ops))
      with (loadListeners [op] ++ loadListeners ops)%list
      by (unfold loadListeners; cbn; now rewrite app_nil_r).
    rewrite app_assoc. apply IH.
    exact (imageOp_listeners op img known Hincl).
Qed.

Lemma imageOps_all_fetches_fail (ops : list ImageOp) (img : Image) :
  allFetchesFail ops = true ->
  loadResolved img = false ->
  called img = [] ->
  loadResolved (imageOps ops img) = false /\ called (imageOps ops img) = [].
Proof.
  revert img. induction ops as [| op ops IH]; intros img Hfail Hres Hcalled.
  - now split.
  - cbn in Hfail. apply andb_prop in Hfail. destruct Hfail as [Hop Hops].
    cbn [imageOps fold_left]. change (fold_left _ ops ?i) with (imageOps ops i).
    apply IH; [exact Hops | |];
      destruct op as [url outcome | eventName callback | |]; cbn;
      try assumption.
    + now rewrite set_src_failure.
    + unfold addEventListener. destruct (String.eqb eventName "load"); cbn;
        assumption.
    + now rewrite set_src_failure.
    + unfold addEventListener. destruct (String.eqb eventName "load"); cbn;
        [now rewrite Hres | assumption].
Qed.

(** C10.  addEventListener ignores every event name other than 'load'; a
    fetch that fails leaves the image as it is, in particular its load
    promise unresolved; so every callback an image ever calls was
    registered for 'load', and when every fetch fails the load promise is
    never resolved and no callback is ever called. *)
Theorem C10_image_polyfill_only_load_event :
  (forall (eventName : string) (callback : Callback) (img : Image),
      eventName <> "load" ->
      addEventListener eventName callback img = img)
  /\ (forall (url : string) (outcome : FetchOutcome) (img : Image),
        isFailure outcome = true -> set_src url outcome img = img)
  /\ (forall ops : list ImageOp,
        incl (called (imageOps ops newImage)) (loadListeners ops))
  /\ (forall ops : list ImageOp,
        allFetchesFail ops = true ->
        loadResolved (imageOps ops newImage) = false
        /\ called (imageOps ops newImage) = []).
Proof.
  split; [exact addEventListener_other_event |].
  split; [exact set_src_failure |].
  split.
  - intros ops x Hx.
    apply (imageOps_listeners ops newImage []).
    + intros y Hy. exact Hy.
    + apply in_or_app. now left.
  - intros ops Hfail. now apply imageOps_all_fetches_fail.
Qed.

End ImagePolyfill.

Lemma C10_image_polyfill_only_load_event_witness :
  Polyfills.addEventListener "error" "onError" Polyfills.newImage
  = Polyfills.newImage
  /\ Polyfills.loadResolved
       (Polyfills.imageOps
          [Polyfills.AddEventListener "load" "onLoad";
           Polyfills.AddEventListener "error" "onError";
           Polyfills.SetSrc "https://example.org/tile.png"
             Polyfills.FetchRejected]
          Polyfills.newImage) = false
  /\ Polyfills.called
       (Polyfills.imageOps
          [Polyfills.AddEventListener "load" "onLoad";
           Polyfills.AddEventListener "error" "onError";
           Polyfills.SetSrc "https://example.org/tile.png"
             Polyfills.FetchRejected]
          Polyfills.newImage) = [].
Proof.
  destruct C10_image_polyfill_only_load_event as (Hother & _ & _ & Hfail).
  split.
  - apply Hother. discriminate.
  - apply Hfail. reflexivity.
Defined.

(** ** Tiled layers *)

Section NumberFacts.

Lemma num_eq_refl (x : number) : num_eq x x.
Proof. destruct x; cbn; auto. reflexivity. Qed.

Lemma ofNat_eq_zero (n : nat) :
  Qeq_bool (inject_Z (Z.of_nat n)) 0 = true <-> n = 0%nat.
Proof.
  rewrite Qeq_bool_iff. unfold Qeq. cbn. lia.
Qed.

(** [1 - queued / total] for a positive total. *)
Lemma raw_progress_positive_total (queued total : nat) :
  (0 < total)%nat ->
  sub (ofZ 1) (div (ofNat queued) (ofNat total))
  = Fin (inject_Z 1
         + - (inject_Z (Z.of_nat queued) / inject_Z (Z.of_nat total)))%Q.
Proof.
  intros Htotal. unfold sub, div, ofNat, ofZ.
  destruct (Qeq_bool (inject_Z (Z.of_nat total)) 0) eqn:E.
  - apply ofNat_eq_zero in E. lia.
  - reflexivity.
Qed.

Lemma raw_progress_is_one (queued total : nat) :
  (0 < total)%nat ->
  strictEq (sub (ofZ 1) (div (ofNat queued) (ofNat total))) (ofZ 1) = true
  <-> queued = 0%nat.
Proof.
  intros Htotal. rewrite raw_progress_positive_total by exact Htotal.
  unfold strictEq, ofZ. rewrite Qeq_bool_iff.
  assert (Hpos : (0 < inject_Z (Z.of_nat total))%Q).
  { change 0%Q with (inject_Z 0). rewrite <- Zlt_Qlt. lia. }
  split.
  - intros H.
    assert (Hq : (inject_Z (Z.of_nat queued) / inject_Z (Z.of_nat total) == 0)%Q).
    { set (x := (inject_Z (Z.of_nat queued) / inject_Z (Z.of_nat total))%Q)
        in *.
      assert (Hx : (x == inject_Z 1 - (inject_Z 1 + - x))%Q) by ring.
      rewrite Hx, H. ring. }
    assert (Hq' : (inject_Z (Z.of_nat queued) == 0)%Q).
    { rewrite <- (Qmult_div_r (inject_Z (Z.of_nat queued))
                    (inject_Z (Z.of_nat total))).
      - rewrite Hq. ring.
      - intros E. rewrite E in Hpos. discriminate Hpos. }
    unfold Qeq in Hq'. cbn in Hq'. lia.
  - intros ->. cbn [Z.of_nat]. unfold Qdiv. ring.
Qed.

Lemma raw_progress_zero_total (queued : nat) :
  strictEq (sub (ofZ 1) (div (ofNat queued) (ofNat 0))) (ofZ 1) = false.
Proof.
  unfold sub, div, ofNat, ofZ. cbn [Z.of_nat].
  change (Qeq_bool (inject_Z 0) 0) with true. cbv iota.
  unfold sign. destruct (inject_Z (Z.of_nat queued) ?= 0)%Q; reflexivity.
Qed.

End NumberFacts.

Section TileQueueFacts.
Import Layers.

Variable tileIdle : TileKey -> bool.

Lemma loadMoreTiles_loading_grows (maxTotal maxNew newLoads : nat)
  (queue loading : list TileKey) :
  (List.length loading
   <= List.length (snd (loadMoreTiles tileIdle maxTotal maxNew newLoads
                          queue loading)))%nat.
Proof.
  revert newLoads loading.
  induction queue as [| tile rest IH]; intros newLoads loading; cbn [loadMoreTiles].
  - cbn. lia.
  - destruct ((List.length loading <? maxTotal)%nat
              && (newLoads <? maxNew)%nat); cbn; [| lia].
    destruct (tileIdle tile && negb (isLoadingKey tile loading)).
    + specialize (IH (S newLoads) (tile :: loading)). cbn in IH. lia.
    + apply IH.
Qed.

Lemma loadMoreTiles_queue_shrinks (maxTotal maxNew newLoads : nat)
  (queue loading : list TileKey) :
  (List.length (fst (loadMoreTiles tileIdle maxTotal maxNew newLoads
                       queue loading))
   <= List.length queue)%nat.
Proof.
  revert newLoads loading.
  induction queue as [| tile rest IH]; intros newLoads loading; cbn [loadMoreTiles].
  - cbn. lia.
  - destruct ((List.length loading <? maxTotal)%nat
              && (newLoads <? maxNew)%nat); cbn; [| lia].
    destruct (tileIdle tile && negb (isLoadingKey tile loading)).
    + specialize (IH (S newLoads) (tile :: loading)). lia.
    + specialize (IH newLoads loading). lia.
Qed.

(** When no tile is loading after loadMoreTiles, the queue is empty. *)
Lemma loadMoreTiles_idle_queue_empty (maxTotal maxNew newLoads : nat)
  (queue loading : list TileKey) :
  (0 < maxTotal)%nat ->
  (newLoads < maxNew)%nat \/ loading <> [] ->
  snd (loadMoreTiles tileIdle maxTotal maxNew newLoads queue loading) = [] ->
  fst (loadMoreTiles tileIdle maxTotal maxNew newLoads queue loading) = [].
Proof.
  intros Hmax. revert newLoads loading.
  induction queue as [| tile rest IH]; intros newLoads loading Hnew; cbn [loadMoreTiles].
  - reflexivity.
  - destruct ((List.length loading <? maxTotal)%nat
              && (newLoads <? maxNew)%nat) eqn:Hcond; cbn.
    + destruct (tileIdle tile && negb (isLoadingKey tile loading)).
      * intros Hempty. exfalso.
        pose proof (loadMoreTiles_loading_grows maxTotal maxNew
                      (S newLoads) rest (tile :: loading)) as Hgrow.
        rewrite Hempty in Hgrow. cbn in Hgrow. lia.
      * apply IH.
        apply andb_prop in Hcond. destruct Hcond as [_ Hcond].
        apply Nat.ltb_lt in Hcond. now left.
    + intros ->. exfalso.
      apply andb_false_iff in Hcond.
      destruct Hcond as [Hcond | Hcond]; apply Nat.ltb_ge in Hcond.
      * cbn in Hcond. lia.
      * destruct Hnew as [Hnew | Hnew]; [lia | now apply Hnew].
Qed.

(** With nothing loading, loadMoreTiles takes at least the head of a
    queue that is not empty. *)
Lemma loadMoreTiles_takes_head (queue : list TileKey) :
  queue <> [] ->
  (List.length (fst (loadMoreTiles tileIdle 12 4 0 queue []))
   < List.length queue)%nat.
Proof.
  destruct queue as [| tile rest]; [congruence |]. intros _. cbn.
  destruct (tileIdle tile); cbn.
  - pose proof (loadMoreTiles_queue_shrinks 12 4 1 rest [tile]). lia.
  - pose proof (loadMoreTiles_queue_shrinks 12 4 0 rest []). lia.
Qed.

Lemma removeKey_not_loading (k : TileKey) (l : list TileKey) :
  isLoadingKey k l = false -> removeKey k l = l.
Proof.
  unfold isLoadingKey, removeKey.
  induction l as [| k' l IH]; cbn; [reflexivity |].
  destruct (String.eqb k k'); cbn; [discriminate |].
  intros H. f_equal. now apply IH.
Qed.

Lemma removeKey_incl (k : TileKey) (l ks : list TileKey) :
  incl l (k :: ks) -> incl (removeKey k l) ks.
Proof.
  intros Hincl x Hx. unfold removeKey in Hx.
  apply filter_In in Hx. destruct Hx as [Hin Hne].
  destruct (Hincl x Hin) as [-> | H]; [| exact H].
  now rewrite String.eqb_refl in Hne.
Qed.

Lemma remove_all_keys (ks l : list TileKey) :
  incl l ks -> fold_left (fun l k => removeKey k l) ks l = [].
Proof.
  revert l. induction ks as [| k ks IH]; intros l Hincl; cbn.
  - destruct l as [| x l]; [reflexivity |].
    destruct (Hincl x (or_introl eq_refl)).
  - apply IH. now apply removeKey_incl.
Qed.

End TileQueueFacts.

Section TiledLayerProperties.
Import Frame Utils Layers.

Variable requiredTiles : TileSource -> FrameState -> list TileKey.
Variable reprioritize : list TileKey -> list TileKey.
Variable tileIdle : TileKey -> bool.

(** reprioritize reorders the queue and drops tiles: it adds none. *)
Hypothesis reprioritize_length :
  forall q, (List.length (reprioritize q) <= List.length q)%nat.

Local Abbreviation step := (tiledStep reprioritize tileIdle).
Local Abbreviation runEvents := (tiledRun reprioritize tileIdle).
Local Abbreviation tickOf := (tick reprioritize tileIdle).

Lemma lastValue_snoc {A : Type} (l : list A) (x : A) :
  lastValue (l ++ [x]) = Some x.
Proof.
  unfold lastValue. rewrite map_app. cbn. apply last_last.
Qed.

Lemma subsequence_Forall {A : Type} (P : A -> Prop) (xs ys : list A) :
  subsequence xs ys -> Forall P xs -> Forall P ys.
Proof.
  induction 1 as [| x xs ys _ IH | x xs ys _ IH]; intros HP.
  - constructor.
  - inversion HP; subst. constructor; auto.
  - inversion HP; subst. auto.
Qed.

Lemma runEvents_app (evs1 evs2 : list TileEvent) (t : TiledLayer) :
  runEvents (evs1 ++ evs2) t = runEvents evs2 (runEvents evs1 t).
Proof. apply fold_left_app. Qed.

Lemma runEvents_cons (e : TileEvent) (events : list TileEvent)
  (t : TiledLayer) :
  runEvents (e :: events) t = runEvents events (step e t).
Proof. reflexivity. Qed.

(** *** The status computed by [map] *)

Lemma tiledStatus_cases (t : TiledLayer) :
  let raw :=
    sub (ofZ 1)
      (div (ofNat (List.length (queuedElements_ t))) (ofNat (tileCount t))) in
  (strictEq raw (ofZ 1) = true -> getTilesLoading t = 0%nat ->
   tiledStatus t
   = (renderFrame (tiledCanvas t),
      (ofZ 1, Some (renderFrame (tiledCanvas t)), tileLoadErrorUrl t)))
  /\ (strictEq raw (ofZ 1) = true -> (0 < getTilesLoading t)%nat ->
      tiledStatus t
      = (tiledCanvas t,
         (sub raw (Fin (1 # 1000)), None, tileLoadErrorUrl t)))
  /\ (strictEq raw (ofZ 1) = false ->
      tiledStatus t = (tiledCanvas t, (raw, None, tileLoadErrorUrl t))).
Proof.
  intros raw. unfold tiledStatus. fold raw.
  split; [| split].
  - intros Hone Hload. rewrite Hone, Hload. cbn [Nat.ltb Nat.leb andb].
    now rewrite Hone.
  - intros Hone Hload. rewrite Hone.
    apply Nat.ltb_lt in Hload. rewrite Hload. cbn [andb].
    destruct raw as [r | | |]; try discriminate Hone.
    unfold strictEq, ofZ in Hone. apply Qeq_bool_iff in Hone.
    assert (Hnudge : strictEq (sub (Fin r) (Fin (1 # 1000))) (ofZ 1) = false).
    { unfold sub, neg, add, strictEq, ofZ.
      destruct (Qeq_bool (r + - (1 # 1000)) (inject_Z 1)) eqn:E;
        [| reflexivity].
      apply Qeq_bool_iff in E. exfalso.
      destruct r as [n d]. unfold Qeq in Hone, E. cbn in Hone, E. lia. }
    now rewrite Hnudge.
  - intros Hone. rewrite Hone. cbn [andb]. now rewrite Hone.
Qed.

(** The status mapped at a tick is the one the specification describes. *)
Lemma tiledStatus_as_specified (t : TiledLayer) :
  let s := snd (tiledStatus t) in
  num_eq (status_progress s)
    (Specified.expectedProgress (List.length (queuedElements_ t)) (tileCount t)
       (getTilesLoading t))
  /\ (strictEq (status_progress s) (ofZ 1) = false -> status_canvas s = None)
  /\ status_url s = tileLoadErrorUrl t.
Proof.
  destruct (tiledStatus_cases t) as (Hdone & Hnudge & Hpartial).
  unfold Specified.expectedProgress. cbv zeta in *.
  set (raw := sub (ofZ 1)
                (div (ofNat (List.length (queuedElements_ t)))
                   (ofNat (tileCount t)))) in *.
  destruct (strictEq raw (ofZ 1)) eqn:Hone.
  - destruct (getTilesLoading t) as [| n] eqn:Hload.
    + rewrite (Hdone eq_refl eq_refl).
      unfold status_progress, status_canvas, status_url. cbn [fst snd andb].
      split; [| split; [discriminate | reflexivity]].
      destruct raw as [r | | |]; try discriminate Hone.
      unfold strictEq, ofZ in Hone. apply Qeq_bool_iff in Hone.
      unfold num_eq, ofZ. now symmetry.
    + rewrite (Hnudge eq_refl (Nat.lt_0_succ n)).
      unfold status_progress, status_canvas, status_url.
      cbn [fst snd andb Nat.ltb Nat.leb].
      split; [apply num_eq_refl | split; reflexivity].
  - rewrite (Hpartial eq_refl).
    unfold status_progress, status_canvas, status_url. cbn [fst snd andb].
    split; [apply num_eq_refl | split; reflexivity].
Qed.

(** *** Steps *)

Lemma step_tileCount (e : TileEvent) (t : TiledLayer) :
  tileCount (step e t) = tileCount t.
Proof.
  destruct e; cbn; [destruct (completed t) | |
                    destruct (isLoadingKey tile (tilesLoadingKeys_ t))];
    reflexivity.
Qed.

Lemma step_source (e : TileEvent) (t : TiledLayer) :
  source (step e t) = source t.
Proof.
  destruct e; cbn; [destruct (completed t) | |
                    destruct (isLoadingKey tile (tilesLoadingKeys_ t))];
    reflexivity.
Qed.

Lemma runEvents_tileCount (events : list TileEvent) (t : TiledLayer) :
  tileCount (runEvents events t) = tileCount t.
Proof.
  revert t. induction events as [| e events IH]; intros t; [reflexivity |].
  rewrite runEvents_cons, IH. apply step_tileCount.
Qed.

Lemma runEvents_source (events : list TileEvent) (t : TiledLayer) :
  source (runEvents events t) = source t.
Proof.
  revert t. induction events as [| e events IH]; intros t; [reflexivity |].
  rewrite runEvents_cons, IH. apply step_source.
Qed.

Lemma step_mapped_as_specified (e : TileEvent) (t : TiledLayer) :
  Forall (Specified.progressAsSpecified (tileCount t)) (mapped t) ->
  Forall (Specified.progressAsSpecified (tileCount t)) (mapped (step e t)).
Proof.
  intros Hall.
  destruct e; cbn;
    [destruct (completed t) | |
     destruct (isLoadingKey tile (tilesLoadingKeys_ t))];
    try exact Hall.
  cbn. apply Forall_app. split; [exact Hall |].
  constructor; [| constructor].
  set (t1 := withTileQueue t _ _).
  destruct (tiledStatus_as_specified t1) as (Hp & Hc & _).
  exists (List.length (queuedElements_ t1)), (getTilesLoading t1).
  split; [exact Hp | exact Hc].
Qed.

Lemma runEvents_mapped_as_specified (events : list TileEvent)
  (t : TiledLayer) :
  Forall (Specified.progressAsSpecified (tileCount t)) (mapped t) ->
  Forall (Specified.progressAsSpecified (tileCount t))
    (mapped (runEvents events t)).
Proof.
  revert t. induction events as [| e events IH]; intros t Hall;
    [exact Hall |].
  cbn. rewrite <- (step_tileCount e t).
  apply IH. rewrite step_tileCount. now apply step_mapped_as_specified.
Qed.

(** C3.  The tile count of a tiled layer task is the number of tiles
    queued by the first render.  At every tick of a task that has not
    completed, one status leaves [map]: its progress is 1 - (tiles queued
    now / tile count), less 0.001 when that is exactly 1 while tiles are
    loading, and its canvas is null unless its progress is 1.  Tile events
    emit nothing.  Hence every status that leaves throttleTime is of this
    form. *)
Theorem C3_tiled_progress_values
  (source : TileSource) (rootFrameState : FrameState)
  (opacity : option number) (events : list TileEvent)
  (output : list LayerPrintStatus) :
  let t0 := createTiledLayer requiredTiles source rootFrameState opacity in
  let t := runEvents events t0 in
  throttleTime (mapped t) output ->
  tileCount t0 = List.length (queuedElements_ t0)
  /\ tileCount t = tileCount t0
  /\ (completed t = false ->
      exists s : LayerPrintStatus,
        mapped (step Tick t) = (mapped t ++ [s])%list
        /\ num_eq (status_progress s)
             (Specified.expectedProgress
                (List.length (queuedElements_ (step Tick t)))
                (tileCount t0) (getTilesLoading (step Tick t)))
        /\ (strictEq (status_progress s) (ofZ 1) = false ->
            status_canvas s = None))
  /\ (forall tile : TileKey,
        mapped (step (TileLoadEnd tile) t) = mapped t
        /\ mapped (step (TileLoadError tile) t) = mapped t)
  /\ Forall (Specified.progressAsSpecified (tileCount t0)) output.
Proof.
  intros t0 t Hthrottle.
  assert (Hcount : tileCount t = tileCount t0)
    by apply runEvents_tileCount.
  split; [reflexivity |]. split; [exact Hcount |]. split; [| split].
  - intros Hrunning.
    change (step Tick t)
      with (if completed t then t else tick reprioritize tileIdle t).
    rewrite Hrunning. unfold tick.
    set (t1 := withTileQueue t _ _).
    exists (snd (tiledStatus t1)). split; [reflexivity |].
    destruct (tiledStatus_as_specified t1) as (Hp & Hc & _).
    unfold getTilesLoading.
    cbn [queuedElements_ tileCount tilesLoadingKeys_].
    rewrite <- Hcount. split; [exact Hp | exact Hc].
  - intros tile.
    change (step (TileLoadError tile) t)
      with (if isLoadingKey tile (tilesLoadingKeys_ t)
            then onTileLoadError
                   (withTileQueue t (queuedElements_ t)
                      (removeKey tile (tilesLoadingKeys_ t)))
            else t).
    destruct (isLoadingKey tile (tilesLoadingKeys_ t)); split; reflexivity.
  - destruct Hthrottle as (Hsub & _).
    apply (subsequence_Forall _ _ _ Hsub).
    apply (runEvents_mapped_as_specified events t0).
    constructor.
Qed.

(** *** Invariants of a tiled layer task *)

Lemma reprioritize_nil : reprioritize [] = [].
Proof.
  pose proof (reprioritize_length []) as H.
  destruct (reprioritize []); [reflexivity | cbn in H; lia].
Qed.

Lemma length_zero_nil {A : Type} (l : list A) :
  (List.length l =? 0)%nat = true -> l = [].
Proof. destruct l; [reflexivity | discriminate]. Qed.

Lemma createTiledLayer_invariant (source : TileSource)
  (rootFrameState : FrameState) (opacity : option number) :
  tiledInvariant (createTiledLayer requiredTiles source rootFrameState opacity).
Proof.
  split.
  - cbn. intros H. split; [| reflexivity].
    destruct (uniqueKeys (requiredTiles source rootFrameState));
      [reflexivity | discriminate].
  - discriminate.
Qed.

Lemma tick_invariant (t : TiledLayer) :
  tiledInvariant t -> tiledInvariant (tickOf t).
Proof.
  intros [Hnone _]. unfold tickOf, tick.
  set (ql := loadMoreTiles tileIdle 12 4 0 (reprioritize (queuedElements_ t))
               (tilesLoadingKeys_ t)).
  set (t1 := withTileQueue t (fst ql) (snd ql)).
  split.
  - cbn [tileCount queuedElements_ tilesLoadingKeys_ withTileQueue t1].
    intros Hzero. destruct (Hnone Hzero) as [Hq Hl].
    subst ql. rewrite Hq, Hl, reprioritize_nil. cbn. now split.
  - cbn [completed tilesLoadingKeys_ tileCount mapped tiledCanvas
           tileLoadErrorUrl].
    intros Hdone. apply length_zero_nil in Hdone.
    split; [exact Hdone |]. intros Hcount.
    rewrite lastValue_snoc. f_equal.
    assert (Hqueue : queuedElements_ t1 = []).
    { cbn [t1 withTileQueue queuedElements_]. subst ql.
      apply loadMoreTiles_idle_queue_empty; [lia | left; lia |].
      exact Hdone. }
    destruct (tiledStatus_cases t1) as (Hstatus & _ & _).
    rewrite Hstatus.
    + reflexivity.
    + rewrite Hqueue. now apply raw_progress_is_one.
    + unfold getTilesLoading. cbn [t1 withTileQueue tilesLoadingKeys_] in *.
      now rewrite Hdone.
Qed.

Lemma step_invariant (e : TileEvent) (t : TiledLayer) :
  tiledInvariant t -> tiledInvariant (step e t).
Proof.
  intros Hinv. destruct e as [| tile | tile].
  - change (step Tick t) with (if completed t then t else tickOf t).
    destruct (completed t); [exact Hinv | now apply tick_invariant].
  - destruct Hinv as [Hnone Hdone]. split.
    + cbn. intros Hzero. destruct (Hnone Hzero) as [Hq Hl].
      rewrite Hq, Hl. now split.
    + cbn. intros Hc. destruct (Hdone Hc) as [Hl Hlast].
      rewrite Hl. now split.
  - change (step (TileLoadError tile) t)
      with (if isLoadingKey tile (tilesLoadingKeys_ t)
            then onTileLoadError
                   (withTileQueue t (queuedElements_ t)
                      (removeKey tile (tilesLoadingKeys_ t)))
            else t).
    destruct (isLoadingKey tile (tilesLoadingKeys_ t)) eqn:Hloading;
      [| exact Hinv].
    destruct Hinv as [Hnone Hdone]. split.
    + cbn. intros Hzero. destruct (Hnone Hzero) as [Hq Hl].
      rewrite Hl in Hloading. discriminate Hloading.
    + cbn. intros Hc. destruct (Hdone Hc) as [Hl _].
      rewrite Hl in Hloading. discriminate Hloading.
Qed.

Lemma runEvents_invariant (events : list TileEvent) (t : TiledLayer) :
  tiledInvariant t -> tiledInvariant (runEvents events t).
Proof.
  revert t. induction events as [| e events IH]; intros t Hinv;
    [exact Hinv |].
  cbn. apply IH. now apply step_invariant.
Qed.

Lemma step_failureRecorded (e : TileEvent) (t : TiledLayer) :
  failureRecorded t -> failureRecorded (step e t).
Proof.
  unfold failureRecorded. intros Hrec. destruct e as [| tile | tile]; cbn.
  - destruct (completed t); [exact Hrec | exact Hrec].
  - exact Hrec.
  - destruct (isLoadingKey tile (tilesLoadingKeys_ t)); [reflexivity | exact Hrec].
Qed.


(** *** Every tile settles between the ticks *)

Lemma settle_events (fails : TileKey -> bool) (ks : list TileKey)
  (t : TiledLayer) :
  let t' :=
    runEvents
      (map (fun k => if fails k then TileLoadError k else TileLoadEnd k) ks)
      t in
  queuedElements_ t' = queuedElements_ t
  /\ completed t' = completed t
  /\ tilesLoadingKeys_ t'
     = fold_left (fun l k => removeKey k l) ks (tilesLoadingKeys_ t).
Proof.
  revert t. induction ks as [| k ks IH]; intros t; [now cbn |].
  cbv zeta. cbn [map fold_left]. rewrite runEvents_cons.
  set (e := if fails k then TileLoadError k else TileLoadEnd k).
  specialize (IH (step e t)). cbv zeta in IH.
  destruct IH as (Hq & Hc & Hl).
  rewrite Hq, Hc, Hl.
  assert (Hstep : queuedElements_ (step e t) = queuedElements_ t
                  /\ completed (step e t) = completed t
                  /\ tilesLoadingKeys_ (step e t)
                     = removeKey k (tilesLoadingKeys_ t)).
  { subst e. destruct (fails k); cbn; [| now repeat split].
    destruct (isLoadingKey k (tilesLoadingKeys_ t)) eqn:Hk;
      [now repeat split |].
    repeat split. symmetry. now apply removeKey_not_loading. }
  destruct Hstep as (-> & -> & ->). now repeat split.
Qed.

Lemma settleAll_settles (fails : TileKey -> bool) (t : TiledLayer) :
  let t' := runEvents (settleAll fails t) t in
  queuedElements_ t' = queuedElements_ t
  /\ completed t' = completed t
  /\ tilesLoadingKeys_ t' = [].
Proof.
  destruct (settle_events fails (tilesLoadingKeys_ t) t) as (Hq & Hc & Hl).
  cbv zeta. unfold settleAll. rewrite Hq, Hc, Hl.
  repeat split. apply remove_all_keys, incl_refl.
Qed.

Lemma settleAndTick_progress (fails : TileKey -> bool) (t : TiledLayer) :
  let t' := settleAndTick reprioritize tileIdle fails t in
  (completed t = true -> completed t' = true)
  /\ (completed t = false ->
      completed t' = true
      \/ (List.length (queuedElements_ t')
          < List.length (queuedElements_ t))%nat).
Proof.
  cbv zeta. unfold settleAndTick.
  destruct (settleAll_settles fails t) as (Hq & Hc & Hl).
  set (ts := runEvents (settleAll fails t) t) in *.
  cbn [tiledStep]. rewrite Hc. split; intros Hdone; rewrite Hdone.
  - now rewrite Hc.
  - unfold tick. cbn [completed queuedElements_ withTileQueue].
    unfold getTilesLoading. cbn [tilesLoadingKeys_ withTileQueue].
    rewrite Hl, Hq.
    destruct (reprioritize (queuedElements_ t)) as [| k q] eqn:Hre.
    + left. reflexivity.
    + right.
      pose proof (loadMoreTiles_takes_head tileIdle (k :: q)) as Hhead.
      pose proof (reprioritize_length (queuedElements_ t)) as Hlen.
      rewrite Hre in Hlen.
      assert (Hne : k :: q <> []) by discriminate.
      specialize (Hhead Hne). lia.
Qed.

Lemma settleAndTickTimes_completes (fails : TileKey -> bool) (n : nat) :
  forall t : TiledLayer,
    completed t = true \/ (List.length (queuedElements_ t) < n)%nat ->
    completed (settleAndTickTimes reprioritize tileIdle fails n t) = true.
Proof.
  induction n as [| n IH]; intros t Ht.
  - destruct Ht as [Hdone | Hlen]; [exact Hdone | lia].
  - cbn [settleAndTickTimes]. apply IH.
    pose proof (settleAndTick_progress fails t) as Hp. cbv zeta in Hp.
    destruct Hp as [Hstay Hprogress].
    destruct (completed t) eqn:Hc.
    + left. now apply Hstay.
    + destruct Ht as [Hdone | Hlen]; [discriminate |].
      destruct (Hprogress eq_refl) as [H | H]; [now left | right; lia].
Qed.

Lemma settleAndTickTimes_preserves (P : TiledLayer -> Prop)
  (fails : TileKey -> bool) (n : nat) :
  (forall e t, P t -> P (step e t)) ->
  forall t, P t -> P (settleAndTickTimes reprioritize tileIdle fails n t).
Proof.
  intros Hstep. induction n as [| n IH]; intros t HP; [exact HP |].
  cbn [settleAndTickTimes]. apply IH. unfold settleAndTick.
  apply (Hstep Tick).
  generalize (settleAll fails t). intros events. revert t HP.
  induction events as [| e events IHe]; intros t HP; [exact HP |].
  rewrite runEvents_cons. apply IHe. now apply Hstep.
Qed.

(** *** Single-image and vector tasks *)

Variable expandUrl : string -> list string.
Variable extentFromProjection : option Projection -> Extent.
Variable frameExtent : FrameState -> Extent.
Variable readFeatures : FeatureFormat -> string -> option (list Feature).
Variable parseURL : string -> option URL.
Variable href : URL -> string.
Variable numberToString : number -> string.

Lemma next_stopped (v : LayerPrintStatus) (p : BehaviorSubject) :
  isStopped p = true -> complete (next v p) = p.
Proof.
  intros Hstopped. unfold next. rewrite Hstopped.
  destruct p as [vs stopped]. cbn in *. now subst.
Qed.

Lemma imageRun_stopped (events : list ImageEvent) (t : ImageTask) :
  isStopped (imageProgress t) = true ->
  imageProgress (imageRun events t) = imageProgress t.
Proof.
  revert t. induction events as [| e events IH]; intros t Hstopped;
    [reflexivity |].
  cbn [imageRun fold_left]. change (fold_left _ events ?x) with (imageRun events x).
  assert (Hstep : imageProgress (imageStep e t) = imageProgress t).
  { destruct e; cbn.
    - destruct (onImageLoadError t); [| reflexivity].
      cbn. now apply next_stopped.
    - destruct (onImageLoadEnd t); [| reflexivity].
      cbn. now apply next_stopped. }
  rewrite IH; rewrite Hstep; auto.
Qed.

Lemma vectorRun_stopped (events : list XhrEvent) (t : VectorTask) :
  isStopped (vectorProgress t) = true ->
  vectorProgress (vectorRun readFeatures events t) = vectorProgress t.
Proof.
  revert t. induction events as [| e events IH]; intros t Hstopped;
    [reflexivity |].
  cbn [vectorRun fold_left].
  change (fold_left _ events ?x) with (vectorRun readFeatures events x).
  assert (Hstep : vectorProgress (vectorStep readFeatures e t)
                  = vectorProgress t).
  { destruct e as [| status text]; cbn.
    - now apply next_stopped.
    - destruct (status =? 200); [| now apply next_stopped].
      destruct (readFeatures (vectorFormat t) text); [| reflexivity].
      cbn. now apply next_stopped. }
  rewrite IH; rewrite Hstep; auto.
Qed.


Lemma vectorStep_failure (failure : XhrEvent) (task : VectorTask) :
  isXhrFailure failure = true ->
  vectorStep readFeatures failure task = onError task.
Proof.
  destruct failure as [| status text]; [reflexivity |].
  cbn. destruct (status =? 200); [discriminate | reflexivity].
Qed.



(** *** A tile fails to load *)


Lemma tileLoadError_recorded (tile : TileKey) (t : TiledLayer) :
  isLoadingKey tile (tilesLoadingKeys_ t) = true ->
  failureRecorded (step (TileLoadError tile) t).
Proof.
  intros Hloading. unfold failureRecorded. cbn. now rewrite Hloading.
Qed.





End TiledLayerProperties.

Lemma subsequence_refl {A : Type} (l : list A) : Layers.subsequence l l.
Proof. induction l; constructor; assumption. Qed.

Lemma throttleTime_refl {A : Type} (l : list A) : Layers.throttleTime l l.
Proof. split; [apply subsequence_refl | split; reflexivity]. Qed.



Lemma C3_tiled_progress_values_witness :
  Layers.throttleTime
    (Layers.mapped (Sample.tiledRun Sample.twoTicks Sample.tiledTask))
    (Layers.mapped (Sample.tiledRun Sample.twoTicks Sample.tiledTask))
  /\ Layers.tileCount Sample.tiledTask = 6%nat
  /\ Forall (Specified.progressAsSpecified (Layers.tileCount Sample.tiledTask))
       (Layers.mapped (Sample.tiledRun Sample.twoTicks Sample.tiledTask)).
Proof.
  pose proof (throttleTime_refl
                (Layers.mapped
                   (Sample.tiledRun Sample.twoTicks Sample.tiledTask)))
    as Hthrottle.
  split; [exact Hthrottle |]. split; [vm_compute; reflexivity |].
  destruct (C3_tiled_progress_values Sample.requiredTiles Sample.reprioritize
              Sample.tileIdle Sample.xyzSource Sample.frame None
              Sample.twoTicks _ Hthrottle)
    as (_ & _ & _ & _ & Hall).
  exact Hall.
Defined.

(** ** The scale bar for every point resolution *)

Section ScaleBarSearch.
Import ScaleBar.

Lemma Qfloor_eq_Z (q : Q) (z : Z) : (q == inject_Z z)%Q -> Qfloor q = z.
Proof. intros H. rewrite (Qfloor_comp _ _ H). apply Qfloor_Z. Qed.

Lemma rem3_shift (i : Z) : Z.rem (Z.rem i 3 + 3) 3 = i mod 3.
Proof.
  Z.to_euclidean_division_equations. lia.
Qed.

Lemma leadingDigit_at (i : Z) :
  leadingDigit (rem3 (add (rem3 (ofZ i)) (ofZ 3))) = Some (ofZ (leading i)).
Proof.
  unfold rem3 at 2, ofZ. rewrite Qfloor_Z.
  unfold add, rem3.
  rewrite (Qfloor_eq_Z _ (Z.rem i 3 + 3)) by (now rewrite inject_Z_plus).
  rewrite rem3_shift. unfold leadingDigit, ofZ. rewrite Qfloor_Z.
  unfold leading.
  assert (Hm : 0 <= i mod 3 < 3) by (apply Z.mod_pos_bound; lia).
  destruct (Z.leb_spec 0 (i mod 3)); [| lia].
  assert (Hcases : i mod 3 = 0 \/ i mod 3 = 1 \/ i mod 3 = 2) by lia.
  destruct Hcases as [-> | [-> | ->]]; reflexivity.
Qed.

Lemma scaleLoop_scaleSearch (fuel : nat) (q : Q) :
  (0 < q)%Q ->
  forall (qi : Q) (i : Z),
    (qi == inject_Z i)%Q ->
    scaleLoop fuel (Fin q) (Fin qi) = scaleSearch fuel q i.
Proof.
  intros Hq. induction fuel as [| fuel IH]; intros qi i Hi; [reflexivity |].
  cbn [scaleLoop scaleSearch].
  assert (Hdec : floor (div (Fin qi) (ofZ 3)) = ofZ (i / 3)).
  { unfold div, ofZ. change (Qeq_bool (inject_Z 3) 0) with false. cbv iota.
    unfold floor, ofZ. f_equal. f_equal.
    rewrite (Qfloor_comp _ (inject_Z i / inject_Z 3)) by (now rewrite Hi).
    unfold Qfloor, Qdiv, Qmult, Qinv, inject_Z. cbn. now rewrite Z.mul_1_r. }
  rewrite Hdec.
  assert (Hdigit : leadingDigit (rem3 (add (rem3 (Fin qi)) (ofZ 3)))
                   = Some (ofZ (leading i))).
  { rewrite <- leadingDigit_at. unfold rem3 at 2 4, ofZ.
    now rewrite (Qfloor_eq_Z qi i), Qfloor_Z. }
  rewrite Hdigit.
  unfold pow10n, ofZ. rewrite Qfloor_Z.
  unfold mulUndef, mul. fold (roundNumber i).
  assert (Hq0 : Qeq_bool q 0 = false).
  { destruct (Qeq_bool q 0) eqn:E; [| reflexivity].
    apply Qeq_bool_iff in E. rewrite E in Hq. discriminate Hq. }
  unfold div. rewrite Hq0. unfold round. fold (pixelWidth (roundNumber i) q).
  unfold isNaN, ofZ, ge, minWidth, ofZ.
  assert (Hle : Qle_bool (inject_Z 64) (inject_Z (pixelWidth (roundNumber i) q))
                = (64 <=? pixelWidth (roundNumber i) q)).
  { unfold Qle_bool, inject_Z. cbn [Qnum Qden]. now rewrite !Z.mul_1_r. }
  rewrite Hle.
  destruct (64 <=? pixelWidth (roundNumber i) q); [reflexivity |].
  unfold add. apply IH. now rewrite Hi, inject_Z_plus.
Qed.

(** *** The start index *)

Lemma ilog10_up_upper (fuel : nat) :
  forall n : Z,
    0 <= n < 2 ^ Z.of_nat fuel ->
    0 <= ilog10_up fuel n /\ n < 10 ^ (ilog10_up fuel n + 1).
Proof.
  induction fuel as [| fuel IH]; intros n Hn.
  - cbn in *. lia.
  - cbn [ilog10_up]. destruct (Z.ltb_spec n 10) as [Hlt | Hge].
    + cbn. lia.
    + assert (Hpow : 2 ^ Z.of_nat (S fuel) = 2 * 2 ^ Z.of_nat fuel).
      { rewrite Nat2Z.inj_succ. apply Z.pow_succ_r. lia. }
      assert (Hdiv : 0 <= n / 10 < 2 ^ Z.of_nat fuel).
      { split; [apply Z.div_pos; lia |].
        apply Z.div_lt_upper_bound; lia. }
      destruct (IH (n / 10) Hdiv) as [Hk Hupper].
      split; [lia |].
      replace (1 + ilog10_up fuel (n / 10) + 1)
        with (Z.succ (ilog10_up fuel (n / 10) + 1)) by lia.
      rewrite Z.pow_succ_r by lia.
      pose proof (Z.mul_succ_div_gt n 10). lia.
Qed.

Lemma ilog10_down_upper (fuel : nat) :
  forall a b : Z,
    0 < a < b ->
    1 <= ilog10_down fuel a b /\ a * 10 ^ (ilog10_down fuel a b - 1) < b.
Proof.
  induction fuel as [| fuel IH]; intros a b Hab.
  - cbn. lia.
  - cbn [ilog10_down]. destruct (Z.leb_spec b (a * 10)) as [Hle | Hgt].
    + cbn. lia.
    + destruct (IH (a * 10) b) as [Hk Hupper]; [lia |].
      split; [lia |].
      replace (1 + ilog10_down fuel (a * 10) b - 1)
        with (Z.succ (ilog10_down fuel (a * 10) b - 1)) by lia.
      rewrite Z.pow_succ_r by lia. lia.
Qed.

Lemma pow10_of_pos (k : Z) :
  0 < k -> pow10 k = inject_Z (10 ^ k).
Proof. destruct k; try lia. reflexivity. Qed.

(** A positive rational is below ten to the power of the integer part of
    its decimal logarithm plus one. *)
Lemma floorLog10Q_upper (q : Q) :
  (0 < q)%Q -> (q < pow10 (floorLog10Q q + 1))%Q.
Proof.
  destruct q as [a b]. unfold Qlt at 1. cbn [Qnum Qden]. intros Ha.
  assert (Ha' : 0 < a) by lia. clear Ha.
  unfold floorLog10Q. cbn [Qnum Qden].
  destruct (Z.leb_spec (Z.pos b) a) as [Hle | Hgt].
  - assert (Hfuel : 0 <= a / Z.pos b
                    < 2 ^ Z.of_nat (S (Z.to_nat (Z.log2 a)))).
    { split; [apply Z.div_pos; lia |].
      rewrite Nat2Z.inj_succ, Z2Nat.id by apply Z.log2_nonneg.
      pose proof (Z.log2_spec a Ha') as [_ Hlog].
      apply Z.le_lt_trans with a; [| exact Hlog].
      apply Z.div_le_upper_bound; nia. }
    destruct (ilog10_up_upper _ _ Hfuel) as [Hk Hupper].
    set (k := ilog10_up _ _) in *.
    rewrite pow10_of_pos by lia.
    unfold Qlt, inject_Z. cbn [Qnum Qden].
    pose proof (Z.mul_succ_div_gt a (Z.pos b) eq_refl). nia.
  - destruct (ilog10_down_upper (S (Z.to_nat (Z.log2 (Z.pos b)))) a (Z.pos b))
      as [Hk Hupper]; [lia |].
    set (k := ilog10_down _ _ _) in *.
    destruct (Z.eq_dec k 1) as [-> | Hne].
    + cbn. unfold Qlt. cbn. lia.
    + assert (Hneg : - k + 1 = Z.neg (Z.to_pos (k - 1))).
      { rewrite <- Pos2Z.opp_pos, Z2Pos.id by lia. lia. }
      rewrite Hneg. cbn [pow10].
      assert (Hpow : 0 < 10 ^ Z.pos (Z.to_pos (k - 1)))
        by (apply Z.pow_pos_nonneg; lia).
      rewrite Z2Pos.id in Hpow by lia. rewrite Z2Pos.id by lia.
      destruct (10 ^ (k - 1)) as [| p | p] eqn:E; try lia.
      unfold Qlt, Qinv, inject_Z. cbn. lia.
Qed.

(** *** The search ends *)

(** When the round number at index [i + k] is wide enough and there is
    fuel for [k + 1] iterations, the search from [i] returns the first
    round number that is wide enough. *)
Lemma scaleSearch_finds (q : Q) (fuel : nat) :
  forall (i : Z) (k : nat),
    (k < fuel)%nat ->
    64 <= pixelWidth (roundNumber (i + Z.of_nat k)) q ->
    exists j : Z,
      i <= j <= i + Z.of_nat k
      /\ scaleSearch fuel q i
         = Some (Some (ofZ (pixelWidth (roundNumber j) q),
                       Fin (roundNumber j)))
      /\ 64 <= pixelWidth (roundNumber j) q
      /\ forall j' : Z, i <= j' < j -> pixelWidth (roundNumber j') q < 64.
Proof.
  induction fuel as [| fuel IH]; intros i k Hk Hwide; [lia |].
  cbn [scaleSearch].
  destruct (Z.leb_spec 64 (pixelWidth (roundNumber i) q)) as [Hi | Hi].
  - exists i. repeat split; try lia.
  - destruct k as [| k].
    + rewrite Z.add_0_r in Hwide. lia.
    + destruct (IH (i + 1) k) as (j & Hj & Hsearch & Hw & Hmin).
      * lia.
      * now replace (i + 1 + Z.of_nat k) with (i + Z.of_nat (S k)) by lia.
      * exists j. repeat split; try lia; try assumption.
        intros j' Hj'. destruct (Z.eq_dec j' i) as [-> | Hne];
          [exact Hi | apply Hmin; lia].
Qed.

Lemma roundNumber_power (m : Z) : roundNumber (3 * m + 3) = (1 * pow10 (m + 1))%Q.
Proof.
  unfold roundNumber, leading.
  replace (3 * m + 3) with ((m + 1) * 3) by lia.
  now rewrite Z.mod_mul, Z.div_mul by lia.
Qed.

Lemma power_wide_enough (q : Q) (m : Z) :
  (0 < q)%Q ->
  (inject_Z 64 * q <= pow10 (m + 1))%Q ->
  64 <= pixelWidth (roundNumber (3 * m + 3)) q.
Proof.
  intros Hq Hupper. rewrite roundNumber_power. unfold pixelWidth.
  rewrite <- (Qfloor_Z 64). apply Qfloor_resp_le.
  setoid_replace (inject_Z 64) with (inject_Z 64 + 0)%Q by ring.
  apply Qplus_le_compat; [| discriminate].
  apply Qle_shift_div_l; [exact Hq |].
  now rewrite Qmult_1_l.
Qed.

(** For a positive point resolution the loop of getScaleBarParams, started
    where the code starts it, ends within four iterations with a round
    number that is at least 64 pixels wide. *)
Lemma scaleLoop_returns (q : Q) (fuel : nat) :
  (0 < q)%Q ->
  (4 <= fuel)%nat ->
  exists j : Z,
    scaleLoop fuel (Fin q)
      (mul (ofZ 3) (floorLog10 (mul minWidth (Fin q))))
    = Some (Some (ofZ (pixelWidth (roundNumber j) q), Fin (roundNumber j)))
    /\ 64 <= pixelWidth (roundNumber j) q.
Proof.
  intros Hq Hfuel.
  assert (Hpos : (0 < inject_Z 64 * q)%Q).
  { apply Qmult_lt_0_compat; [reflexivity | exact Hq]. }
  unfold minWidth, mul at 2, ofZ at 2, floorLog10.
  apply Qgt_alt in Hpos. rewrite Hpos. apply Qgt_alt in Hpos.
  set (m := floorLog10Q (inject_Z 64 * q)).
  unfold mul, ofZ.
  rewrite (scaleLoop_scaleSearch fuel q Hq _ (3 * m))
    by (now rewrite inject_Z_mult).
  destruct (scaleSearch_finds q fuel (3 * m) 3) as (j & _ & Hsearch & Hw & _).
  - lia.
  - apply power_wide_enough; [exact Hq |].
    apply Qlt_le_weak. now apply floorLog10Q_upper.
  - exists j. split; assumption.
Qed.

End ScaleBarSearch.

Section ScaleBarUnknownUnits.
Import Frame ScaleBar.

Variable getPointResolution :
  Projection -> number -> number * number -> ProjUnits -> number.
Variable metersPerDegree : number.
Variable measureText : string -> number.
Variable numberToString : number -> string.

Lemma moderate_positive (q : Q) : ScaleBarEdge.moderate q -> (0 < q)%Q.
Proof.
  intros [Hlow _]. eapply Qlt_le_trans; [| exact Hlow]. reflexivity.
Qed.

Lemma unknown_units_ladder (u : string) (pointResolution : number) :
  ~ In u knownUnits ->
  unitLadder metersPerDegree u pointResolution = (false, "", pointResolution)
  /\ String.eqb u Units_DEGREES = false.
Proof.
  intros Hunknown. unfold unitLadder.
  assert (Hne : forall k, In k knownUnits -> String.eqb u k = false).
  { intros k Hk. destruct (String.eqb_spec u k) as [-> | _];
      [contradiction | reflexivity]. }
  rewrite (Hne Units_DEGREES), (Hne Units_IMPERIAL), (Hne Units_NAUTICAL),
    (Hne Units_METRIC), (Hne Units_US) by (cbn; tauto).
  now split.
Qed.

(** C6.  For units that are not empty and none of metric,
    degrees, imperial, nautical and us, and a point resolution between
    10^-9 and 10^9 metres per pixel, getScaleBarParams writes the
    configuration error to the console and then returns the parameters of
    a bar that is at least 64 pixels wide, with an empty suffix;
    printScaleBar draws that bar and its label, the number followed by a
    space.  (Outside that range the doubles of the code overflow or
    underflow, and the bar may not be drawn.) *)
Theorem C6_unknown_units_logged_and_bar_drawn
  (frameState : FrameState) (scaleBar : ScaleBarSpec) (ctx : Context2D)
  (u : string) (q : Q) (fuel : nat) :
  units scaleBar = Some u ->
  u <> "" ->
  ~ In u knownUnits ->
  getPointResolution (projection (viewState frameState))
    (resolution (viewState frameState)) (center (viewState frameState))
    ProjUnits_METERS = Fin q ->
  ScaleBarEdge.moderate q ->
  (4 <= fuel)%nat ->
  exists (params : ScaleBarParams) (ctx' : Context2D)
         (drawn : list CanvasOp) (x y : number),
    run (getScaleBarParams getPointResolution metersPerDegree fuel
           frameState (Some scaleBar))
    = (Normal (Some params), [invalidUnitsMessage])
    /\ suffix params = ""
    /\ ge (width params) minWidth = true
    /\ run (printScaleBar getPointResolution metersPerDegree measureText
              numberToString fuel ctx frameState (Some scaleBar))
       = (Normal ctx', [invalidUnitsMessage])
    /\ ops ctx' = (ops ctx ++ drawn)%list
    /\ In (FillText (numberToString (scalenumber params) ++ " ") x y) drawn.
Proof.
  intros Hunits Hnonempty Hunknown Hres Hmoderate Hfuel.
  pose proof (moderate_positive q Hmoderate) as Hq.
  destruct (unknown_units_ladder u (Fin q) Hunknown) as [Hladder Hdeg].
  destruct (scaleLoop_returns q fuel Hq Hfuel) as (j & Hloop & Hwide).
  assert (Hparams :
    run (getScaleBarParams getPointResolution metersPerDegree fuel
           frameState (Some scaleBar))
    = (Normal (Some {| width := ofZ (pixelWidth (roundNumber j) q);
                       scalenumber := Fin (roundNumber j);
                       suffix := "" |}), [invalidUnitsMessage])).
  { unfold run, getScaleBarParams, bind, readUnits, ret. rewrite Hunits.
    destruct (String.eqb_spec u "") as [E | _]; [contradiction |].
    rewrite Hdeg, Hres, Hladder. cbn [console_error app].
    now rewrite Hloop. }
  eexists. eexists. eexists. eexists. eexists.
  split; [exact Hparams |].
  split; [reflexivity |].
  split.
  { cbn [width]. unfold ge, ofZ, minWidth, ofZ, Qle_bool, inject_Z.
    cbn [Qnum Qden]. rewrite !Z.mul_1_r. now apply Z.leb_le. }
  unfold run in *. unfold printScaleBar, bind at 1. rewrite Hparams.
  unfold renderScaleBar, bind, readPosition, ret, draw.
  cbn [suffix scalenumber width ops].
  split; [reflexivity |].
  split; [reflexivity |].
  cbn [In]. right. right. right. right. right. right. right. right. right.
  left. reflexivity.
Qed.

End ScaleBarUnknownUnits.

Lemma C1_scale_bar_metric_one_unit_per_pixel_witness :
  ScaleBar.units Sample.defaultScaleBar = None
  /\ run (Sample.getScaleBarParams 4 Sample.frame (Some Sample.defaultScaleBar))
     = (Normal (Some {| ScaleBar.width := ofZ 100;
                        ScaleBar.scalenumber := ofZ 100;
                        ScaleBar.suffix := "m" |}), []).
Proof.
  split; [reflexivity |].
  exact (proj1 (C1_scale_bar_metric_one_unit_per_pixel
                  Sample.getPointResolution Sample.metersPerDegree
                  Sample.frame Sample.defaultScaleBar 4
                  (or_introl eq_refl) eq_refl (Nat.le_refl 4))).
Defined.

Lemma C6_unknown_units_logged_and_bar_drawn_witness :
  ~ In "furlong" ScaleBar.knownUnits
  /\ exists (params : ScaleBar.ScaleBarParams) (ctx' : ScaleBar.Context2D),
       run (Sample.getScaleBarParams 4 Sample.frame
              (Some Sample.furlongScaleBar))
       = (Normal (Some params), [ScaleBar.invalidUnitsMessage])
       /\ ScaleBar.suffix params = ""
       /\ run (Sample.printScaleBar 4 Sample.context Sample.frame
                 (Some Sample.furlongScaleBar))
          = (Normal ctx', [ScaleBar.invalidUnitsMessage])
       /\ exists x y : number,
            In (ScaleBar.FillText
                  (showNumber (ScaleBar.scalenumber params) ++ " ") x y)
               (ScaleBar.ops ctx').
Proof.
  assert (Hunknown : ~ In "furlong" ScaleBar.knownUnits).
  { cbn. intros [E | [E | [E | [E | [E | []]]]]]; discriminate E. }
  split; [exact Hunknown |].
  assert (Hne : "furlong" <> "") by discriminate.
  assert (Hq : ScaleBarEdge.moderate 1) by (split; discriminate).
  destruct (C6_unknown_units_logged_and_bar_drawn Sample.getPointResolution
              Sample.metersPerDegree Sample.measureText showNumber
              Sample.frame Sample.furlongScaleBar Sample.context "furlong" 1 4
              eq_refl Hne Hunknown eq_refl Hq (Nat.le_refl 4))
    as (params & ctx' & drawn & x & y & Hparams & Hsuffix & _ & Hprint
        & Hops & Hin).
  exists params, ctx'. repeat split; try assumption.
  exists x, y. rewrite Hops. apply in_or_app. now right.
Defined.

(** With units "furlong" the error is logged and the scale bar is drawn all
    the same: the canvas receives the calls of renderScaleBar. *)
Lemma C6_counterexample :
  ~ In "furlong" ScaleBar.knownUnits
  /\ Specified.logsInvalidUnits
       (run (Sample.printScaleBar 4 Sample.context Sample.frame
               (Some Sample.furlongScaleBar)))
  /\ ~ Specified.drawsNothing Sample.context
         (run (Sample.printScaleBar 4 Sample.context Sample.frame
                 (Some Sample.furlongScaleBar))).
Proof.
  split; [| split].
  - cbn. intros [E | [E | [E | [E | [E | []]]]]]; discriminate E.
  - vm_compute. left. reflexivity.
  - vm_compute. discriminate.
Qed.

(* ------------------------------------------------------------------------- *)
(** * Further properties *)

(** ** The scale bar: round numbers *)

Section RoundNumbers.
Import ScaleBar.

Lemma pow10_Qpower (d : Z) : (pow10 d == Qpower (inject_Z 10) d)%Q.
Proof.
  destruct d as [| p | p]; cbn [pow10].
  - reflexivity.
  - apply Zpower_Qpower. lia.
  - change (Z.neg p) with (- Z.pos p). rewrite Qpower_opp.
    apply Qinv_comp. apply Zpower_Qpower. lia.
Qed.

Lemma pow10_succ (d : Z) : (pow10 (d + 1) == 10 * pow10 d)%Q.
Proof.
  rewrite !pow10_Qpower. rewrite Qpower_plus by discriminate.
  rewrite Qmult_comm. apply Qmult_comp; reflexivity.
Qed.

Lemma roundNumber_pos (i : Z) : (0 < roundNumber i)%Q.
Proof.
  unfold roundNumber. apply Qmult_lt_0_compat; [| apply pow10_pos].
  unfold leading.
  assert (Hm : 0 <= i mod 3 < 3) by (apply Z.mod_pos_bound; lia).
  assert (Hcases : i mod 3 = 0 \/ i mod 3 = 1 \/ i mod 3 = 2) by lia.
  destruct Hcases as [-> | [-> | ->]]; reflexivity.
Qed.

(** The three shapes of an index. *)
Lemma index_cases (i : Z) :
  exists d : Z,
    (i = 3 * d /\ (roundNumber i == 1 * pow10 d)%Q
     /\ (roundNumber (i + 1) == 2 * pow10 d)%Q)
    \/ (i = 3 * d + 1 /\ (roundNumber i == 2 * pow10 d)%Q
        /\ (roundNumber (i + 1) == 5 * pow10 d)%Q)
    \/ (i = 3 * d + 2 /\ (roundNumber i == 5 * pow10 d)%Q
        /\ (roundNumber (i + 1) == 10 * pow10 d)%Q).
Proof.
  exists (i / 3).
  pose proof (Z.div_mod i 3 ltac:(lia)) as Hdm.
  assert (Hm : 0 <= i mod 3 < 3) by (apply Z.mod_pos_bound; lia).
  assert (Hcases : i mod 3 = 0 \/ i mod 3 = 1 \/ i mod 3 = 2) by lia.
  unfold roundNumber, leading.
  destruct Hcases as [H | [H | H]]; [left | right; left | right; right];
    (split; [lia |]); rewrite H;
    (split; [reflexivity |]).
  - replace (i + 1) with (1 + (i / 3) * 3) by lia.
    rewrite Z.mod_add, Z.div_add by lia. reflexivity.
  - replace (i + 1) with (2 + (i / 3) * 3) by lia.
    rewrite Z.mod_add, Z.div_add by lia. reflexivity.
  - replace (i + 1) with ((i / 3 + 1) * 3) by lia.
    rewrite Z.mod_mul, Z.div_mul by lia. cbn [Z.to_nat nth].
    rewrite pow10_succ. ring.
Qed.

(** The next round number is between twice and two and a half times the
    previous one. *)
Lemma roundNumber_succ (i : Z) :
  (2 * roundNumber i <= roundNumber (i + 1))%Q
  /\ (roundNumber (i + 1) <= (5 # 2) * roundNumber i)%Q.
Proof.
  destruct (index_cases i)
    as [d [(_ & -> & ->) | [(_ & -> & ->) | (_ & -> & ->)]]];
    pose proof (pow10_pos d) as Hp;
    set (p := pow10 d) in *;
    split.
  - setoid_replace (2 * (1 * p))%Q with (2 * p)%Q by ring. apply Qle_refl.
  - setoid_replace ((5 # 2) * (1 * p))%Q with ((5 # 2) * p)%Q by ring.
    apply Qmult_le_compat_r; [discriminate | now apply Qlt_le_weak].
  - setoid_replace (2 * (2 * p))%Q with (4 * p)%Q by ring.
    apply Qmult_le_compat_r; [discriminate | now apply Qlt_le_weak].
  - setoid_replace ((5 # 2) * (2 * p))%Q with (5 * p)%Q by ring.
    apply Qle_refl.
  - setoid_replace (2 * (5 * p))%Q with (10 * p)%Q by ring. apply Qle_refl.
  - setoid_replace ((5 # 2) * (5 * p))%Q with ((25 # 2) * p)%Q by ring.
    apply Qmult_le_compat_r; [discriminate | now apply Qlt_le_weak].
Qed.

Lemma roundNumber_mono_nat (i : Z) (k : nat) :
  (roundNumber i <= roundNumber (i + Z.of_nat k))%Q.
Proof.
  induction k as [| k IH].
  - rewrite Z.add_0_r. apply Qle_refl.
  - replace (i + Z.of_nat (S k)) with (i + Z.of_nat k + 1) by lia.
    eapply Qle_trans; [exact IH |].
    destruct (roundNumber_succ (i + Z.of_nat k)) as [Hle _].
    eapply Qle_trans; [| exact Hle].
    pose proof (roundNumber_pos (i + Z.of_nat k)) as Hpos.
    setoid_replace (roundNumber (i + Z.of_nat k))
      with (1 * roundNumber (i + Z.of_nat k))%Q at 1 by ring.
    apply Qmult_le_compat_r; [discriminate | now apply Qlt_le_weak].
Qed.

Lemma roundNumber_mono (i j : Z) :
  i <= j -> (roundNumber i <= roundNumber j)%Q.
Proof.
  intros Hij. replace j with (i + Z.of_nat (Z.to_nat (j - i))) by lia.
  apply roundNumber_mono_nat.
Qed.

End RoundNumbers.

Section StartIndex.
Import ScaleBar.

Lemma ilog10_up_lower (fuel : nat) :
  forall n : Z, 1 <= n -> 10 ^ ilog10_up fuel n <= n /\ 0 <= ilog10_up fuel n.
Proof.
  induction fuel as [| fuel IH]; intros n Hn.
  - cbn. lia.
  - cbn [ilog10_up]. destruct (Z.ltb_spec n 10) as [Hlt | Hge].
    + cbn. lia.
    + assert (Hdiv : 1 <= n / 10) by (apply Z.div_le_lower_bound; lia).
      destruct (IH (n / 10) Hdiv) as [Hlow Hk].
      split; [| lia].
      replace (1 + ilog10_up fuel (n / 10))
        with (Z.succ (ilog10_up fuel (n / 10))) by lia.
      rewrite Z.pow_succ_r by lia.
      pose proof (Z.mul_div_le n 10 eq_refl). lia.
Qed.

Lemma ilog10_down_lower (fuel : nat) :
  forall a b : Z,
    0 < a -> b <= a * 10 ^ Z.of_nat fuel ->
    b <= a * 10 ^ ilog10_down fuel a b.
Proof.
  induction fuel as [| fuel IH]; intros a b Ha Hb.
  - cbn in *. lia.
  - cbn [ilog10_down]. destruct (Z.leb_spec b (a * 10)) as [Hle | Hgt].
    + cbn. lia.
    + rewrite Nat2Z.inj_succ, Z.pow_succ_r in Hb by lia.
      destruct (ilog10_down_upper fuel (a * 10) b) as [Hk _]; [lia |].
      specialize (IH (a * 10) b ltac:(lia) ltac:(lia)).
      replace (1 + ilog10_down fuel (a * 10) b)
        with (Z.succ (ilog10_down fuel (a * 10) b)) by lia.
      rewrite Z.pow_succ_r by lia. lia.
Qed.

Lemma pow10_of_nonneg (k : Z) : 0 <= k -> pow10 k = inject_Z (10 ^ k).
Proof. destruct k; try lia; reflexivity. Qed.

(** Ten to the power of the integer part of the decimal logarithm of a
    positive rational is at most that rational. *)
Lemma floorLog10Q_lower (q : Q) :
  (0 < q)%Q -> (pow10 (floorLog10Q q) <= q)%Q.
Proof.
  destruct q as [a b]. unfold Qlt at 1. cbn [Qnum Qden]. intros Ha.
  assert (Ha' : 0 < a) by lia. clear Ha.
  unfold floorLog10Q. cbn [Qnum Qden].
  destruct (Z.leb_spec (Z.pos b) a) as [Hle | Hgt].
  - assert (Hn : 1 <= a / Z.pos b) by (apply Z.div_le_lower_bound; lia).
    destruct (ilog10_up_lower (S (Z.to_nat (Z.log2 a))) _ Hn) as [Hlow Hk].
    set (k := ilog10_up _ _) in *.
    rewrite pow10_of_nonneg by exact Hk.
    unfold Qle, inject_Z. cbn [Qnum Qden].
    pose proof (Z.mul_div_le a (Z.pos b) eq_refl). nia.
  - set (fuel := S (Z.to_nat (Z.log2 (Z.pos b)))).
    assert (Hfuel : Z.pos b <= a * 10 ^ Z.of_nat fuel).
    { subst fuel. rewrite Nat2Z.inj_succ, Z2Nat.id by apply Z.log2_nonneg.
      pose proof (Z.log2_spec (Z.pos b) eq_refl) as [_ Hlog].
      assert (Hpow : 2 ^ Z.succ (Z.log2 (Z.pos b))
                     <= 10 ^ Z.succ (Z.log2 (Z.pos b))).
      { apply Z.pow_le_mono_l. lia. }
      nia. }
    pose proof (ilog10_down_lower fuel a (Z.pos b) Ha' Hfuel) as Hlow.
    destruct (ilog10_down_upper fuel a (Z.pos b)) as [Hk _]; [lia |].
    set (k := ilog10_down fuel a (Z.pos b)) in *.
    assert (Hneg : - k = Z.neg (Z.to_pos k)).
    { rewrite <- Pos2Z.opp_pos, Z2Pos.id by lia. reflexivity. }
    rewrite Hneg. cbn [pow10]. rewrite Z2Pos.id by lia.
    assert (Hpow : 0 < 10 ^ k) by (apply Z.pow_pos_nonneg; lia).
    destruct (10 ^ k) as [| p | p] eqn:E; try lia.
    unfold Qle, Qinv, inject_Z. cbn. lia.
Qed.

Lemma roundNumber_at_power (m : Z) : roundNumber (3 * m) = (1 * pow10 m)%Q.
Proof.
  unfold roundNumber, leading.
  replace (3 * m) with (m * 3) by lia.
  now rewrite Z.mod_mul, Z.div_mul by lia.
Qed.

Lemma pixelWidth_le (c q : Q) (n : Z) :
  (0 < q)%Q -> (c <= inject_Z n * q)%Q -> pixelWidth c q <= n.
Proof.
  intros Hq Hc. unfold pixelWidth.
  assert (Hdiv : (c / q <= inject_Z n)%Q).
  { apply Qle_shift_div_r; assumption. }
  assert (Hfloor : Qfloor (c / q + (1 # 2)) <= Qfloor (inject_Z n + (1 # 2))).
  { apply Qfloor_resp_le. now apply Qplus_le_l. }
  assert (Hn : Qfloor (inject_Z n + (1 # 2)) = n).
  { unfold Qfloor, Qplus, inject_Z. cbn [Qnum Qden].
    replace (n * 2 + 1 * 1) with (1 + n * 2) by lia.
    rewrite Z.div_add by lia. reflexivity. }
  lia.
Qed.

Lemma pixelWidth_lt_inv (c q : Q) (n : Z) :
  (0 < q)%Q -> pixelWidth c q < n ->
  (c < (inject_Z n - (1 # 2)) * q)%Q.
Proof.
  intros Hq Hw. unfold pixelWidth in Hw.
  pose proof (Qlt_floor (c / q + (1 # 2))) as Hlt.
  assert (Hle : (inject_Z (Qfloor (c / q + (1 # 2)) + 1) <= inject_Z n)%Q)
    by (rewrite <- Zle_Qle; lia).
  assert (Hdiv : (c / q < inject_Z n - (1 # 2))%Q).
  { apply Qplus_lt_l with (z := (1 # 2)).
    setoid_replace (inject_Z n - (1 # 2) + (1 # 2))%Q with (inject_Z n) by ring.
    eapply Qlt_le_trans; eassumption. }
  assert (Hc : (c == c / q * q)%Q).
  { rewrite Qmult_comm, Qmult_div_r; [reflexivity |].
    intros E. rewrite E in Hq. discriminate Hq. }
  rewrite Hc. now apply Qmult_lt_r.
Qed.

End StartIndex.

(** ** The scale bar for every point resolution and every unit *)

Section ScaleBarTotal.
Import Frame ScaleBar ScaleBarEdge Drawing.

(** For a positive point resolution the loop returns the smallest round
    number that is at least 64 pixels wide; it is at most 159 pixels wide. *)
Lemma scaleLoop_result (q : Q) (fuel : nat) :
  (0 < q)%Q ->
  (4 <= fuel)%nat ->
  exists j : Z,
    scaleLoop fuel (Fin q) (mul (ofZ 3) (floorLog10 (mul minWidth (Fin q))))
    = Some (Some (ofZ (pixelWidth (roundNumber j) q), Fin (roundNumber j)))
    /\ 64 <= pixelWidth (roundNumber j) q <= 159
    /\ forall j' : Z, j' < j -> pixelWidth (roundNumber j') q < 64.
Proof.
  intros Hq Hfuel.
  assert (Hpos : (0 < inject_Z 64 * q)%Q).
  { apply Qmult_lt_0_compat; [reflexivity | exact Hq]. }
  pose proof (floorLog10Q_lower _ Hpos) as Hlower.
  pose proof (floorLog10Q_upper _ Hpos) as Hupper.
  unfold minWidth, mul at 2, ofZ at 2, floorLog10.
  apply Qgt_alt in Hpos. rewrite Hpos.
  set (m := floorLog10Q (inject_Z 64 * q)) in *.
  unfold mul, ofZ.
  rewrite (scaleLoop_scaleSearch fuel q Hq _ (3 * m))
    by (now rewrite inject_Z_mult).
  destruct (scaleSearch_finds q fuel (3 * m) 3)
    as (j & Hj & Hsearch & Hw & Hmin).
  { lia. }
  { apply power_wide_enough; [exact Hq | now apply Qlt_le_weak]. }
  assert (Hstart : (roundNumber (3 * m) <= inject_Z 64 * q)%Q).
  { rewrite roundNumber_at_power, Qmult_1_l. exact Hlower. }
  exists j. split; [exact Hsearch |]. split; [split; [exact Hw |] |].
  - destruct (Z.eq_dec j (3 * m)) as [-> | Hne].
    + pose proof (pixelWidth_le _ q 64 Hq Hstart). lia.
    + assert (Hprev : pixelWidth (roundNumber (j - 1)) q < 64)
        by (apply Hmin; lia).
      apply pixelWidth_lt_inv in Hprev; [| exact Hq].
      destruct (roundNumber_succ (j - 1)) as [_ Hgrow].
      replace (j - 1 + 1) with j in Hgrow by lia.
      apply pixelWidth_le; [exact Hq |].
      eapply Qle_trans; [exact Hgrow |].
      apply Qle_trans with ((5 # 2) * ((inject_Z 64 - (1 # 2)) * q))%Q.
      * apply Qmult_le_l; [reflexivity | now apply Qlt_le_weak].
      * setoid_replace ((5 # 2) * ((inject_Z 64 - (1 # 2)) * q))%Q
          with ((635 # 4) * q)%Q by ring.
        apply Qmult_le_compat_r; [discriminate | now apply Qlt_le_weak].
  - intros j' Hj'. destruct (Z_lt_le_dec j' (3 * m)) as [Hbelow | Habove].
    + assert (Hle : pixelWidth (roundNumber j') q <= 32); [| lia].
      apply pixelWidth_le; [exact Hq |].
      apply Qle_trans with (roundNumber (3 * m - 1));
        [apply roundNumber_mono; lia |].
      destruct (roundNumber_succ (3 * m - 1)) as [Hdouble _].
      replace (3 * m - 1 + 1) with (3 * m) in Hdouble by lia.
      apply Qmult_le_l with (z := 2%Q); [reflexivity |].
      eapply Qle_trans; [exact Hdouble |].
      eapply Qle_trans; [exact Hstart |].
      setoid_replace (2 * (inject_Z 32 * q))%Q with (inject_Z 64 * q)%Q by ring.
      apply Qle_refl.
    + apply Hmin. lia.
Qed.

(** The unit ladder keeps a positive point resolution positive, and it
    recognises exactly the five units. *)
Lemma unitLadder_positive (metersPerDegree : number) (u : string) (q : Q) :
  (0 < q)%Q ->
  exists (sfx : string) (q' : Q),
    unitLadder metersPerDegree u (Fin q) = (isKnownUnits u, sfx, Fin q')
    /\ (0 < q')%Q.
Proof.
  intros Hq.
  assert (Hmul : forall c : Z, 0 < c ->
            exists q', mul (Fin q) (ofZ c) = Fin q' /\ (0 < q')%Q).
  { intros c Hc. eexists. split; [reflexivity |].
    apply Qmult_lt_0_compat; [exact Hq |].
    change 0%Q with (inject_Z 0). rewrite <- Zlt_Qlt. exact Hc. }
  assert (Hmuld : forall n d, 0 < n ->
            exists q', mul (Fin q) (dec n d) = Fin q' /\ (0 < q')%Q).
  { intros n d Hn. eexists. split; [reflexivity |].
    apply Qmult_lt_0_compat; [exact Hq |]. unfold Qlt. cbn. lia. }
  assert (Hdiv : forall n d, 0 < n ->
            exists q', div (Fin q) (dec n d) = Fin q' /\ (0 < q')%Q).
  { intros n d Hn. unfold div, dec.
    destruct (Qeq_bool (n # d) 0) eqn:E.
    - apply Qeq_bool_iff in E. unfold Qeq in E. cbn in E. lia.
    - eexists. split; [reflexivity |].
      apply Qlt_shift_div_l; [unfold Qlt; cbn; lia |].
      now rewrite Qmult_0_l. }
  assert (Hdivz : forall c : Z, 0 < c ->
            exists q', div (Fin q) (ofZ c) = Fin q' /\ (0 < q')%Q).
  { intros c Hc. apply (Hdiv c 1%positive Hc). }
  unfold unitLadder, isKnownUnits, knownUnits. cbn [existsb].
  destruct (String.eqb u Units_DEGREES) eqn:Edeg.
  { rewrite !orb_true_r. cbn [orb].
    repeat match goal with
           | |- context [if ?b then _ else _] => destruct b
           end;
      [destruct (Hmul 3600 ltac:(lia)) as (q' & -> & Hq')
      | destruct (Hmul 60 ltac:(lia)) as (q' & -> & Hq')
      | ]; eauto. }
  destruct (String.eqb u Units_IMPERIAL) eqn:Eimp.
  { rewrite !orb_true_r. cbn [orb].
    repeat match goal with
           | |- context [if ?b then _ else _] => destruct b
           end;
      [destruct (Hdiv 254 10000%positive ltac:(lia)) as (q' & -> & Hq')
      | destruct (Hdiv 3048 10000%positive ltac:(lia)) as (q' & -> & Hq')
      | destruct (Hdiv 1609344 1000%positive ltac:(lia)) as (q' & -> & Hq')];
      eauto. }
  destruct (String.eqb u Units_NAUTICAL) eqn:Enau.
  { rewrite !orb_true_r. cbn [orb].
    destruct (Hdivz 1852 ltac:(lia)) as (q' & -> & Hq'). eauto. }
  destruct (String.eqb u Units_METRIC) eqn:Emet.
  { cbn [orb].
    repeat match goal with
           | |- context [if ?b then _ else _] => destruct b
           end;
      [destruct (Hmul 1000000 ltac:(lia)) as (q' & -> & Hq')
      | destruct (Hmul 1000 ltac:(lia)) as (q' & -> & Hq')
      |
      | destruct (Hdivz 1000 ltac:(lia)) as (q' & -> & Hq')];
      eauto. }
  destruct (String.eqb u Units_US) eqn:Eus.
  { cbn [orb].
    repeat match goal with
           | |- context [if ?b then _ else _] => destruct b
           end;
      [destruct (Hmuld 3937 100%positive ltac:(lia)) as (q' & -> & Hq')
      | destruct (Hdiv 30480061 100000000%positive ltac:(lia))
          as (q' & -> & Hq')
      | destruct (Hdiv 16093472 10000%positive ltac:(lia))
          as (q' & -> & Hq')];
      eauto. }
  cbn [orb]. eauto.
Qed.

Variable getPointResolution :
  Projection -> number -> number * number -> ProjUnits -> number.
Variable metersPerDegree : number.
Variable measureText : string -> number.
Variable numberToString : number -> string.

(** The point resolution getScaleBarParams asks for. *)
Local Abbreviation resolutionOf frameState scaleBar :=
  (getPointResolution (projection (viewState frameState))
     (resolution (viewState frameState)) (center (viewState frameState))
     (if String.eqb (effectiveUnits (units scaleBar)) Units_DEGREES
      then ProjUnits_DEGREES else ProjUnits_METERS)).

Local Abbreviation consoleOf scaleBar :=
  (if isKnownUnits (effectiveUnits (units scaleBar))
   then [] else [invalidUnitsMessage]).

Lemma getScaleBarParams_unfold (fuel : nat) (frameState : FrameState)
  (scaleBar : ScaleBarSpec) (known : bool) (sfx : string) (pr : number) :
  unitLadder metersPerDegree (effectiveUnits (units scaleBar))
    (resolutionOf frameState scaleBar) = (known, sfx, pr) ->
  run (getScaleBarParams getPointResolution metersPerDegree fuel frameState
         (Some scaleBar))
  = (match scaleLoop fuel pr
             (mul (ofZ 3) (floorLog10 (mul minWidth pr))) with
     | None => OutOfFuel
     | Some None => Normal None
     | Some (Some (w, c)) =>
         Normal (Some {| width := w; scalenumber := c; suffix := sfx |})
     end,
     if known then [] else [invalidUnitsMessage]).
Proof.
  intros Hladder.
  unfold run, getScaleBarParams, bind, readUnits, ret.
  fold (effectiveUnits (units scaleBar)). rewrite Hladder.
  destruct known; cbn [console_error app];
    destruct (scaleLoop fuel pr _) as [[[w c] |] |]; reflexivity.
Qed.

Lemma getScaleBarParams_result (fuel : nat) (frameState : FrameState)
  (scaleBar : ScaleBarSpec) (q : Q) :
  resolutionOf frameState scaleBar = Fin q ->
  (0 < q)%Q ->
  (4 <= fuel)%nat ->
  exists (sfx : string) (q' : Q) (j : Z),
    unitLadder metersPerDegree (effectiveUnits (units scaleBar)) (Fin q)
    = (isKnownUnits (effectiveUnits (units scaleBar)), sfx, Fin q')
    /\ (0 < q')%Q
    /\ run (getScaleBarParams getPointResolution metersPerDegree fuel
              frameState (Some scaleBar))
       = (Normal (Some {| width := ofZ (pixelWidth (roundNumber j) q');
                          scalenumber := Fin (roundNumber j);
                          suffix := sfx |}),
          consoleOf scaleBar)
    /\ 64 <= pixelWidth (roundNumber j) q' <= 159
    /\ forall j' : Z, j' < j -> pixelWidth (roundNumber j') q' < 64.
Proof.
  intros Hres Hq Hfuel.
  destruct (unitLadder_positive metersPerDegree
              (effectiveUnits (units scaleBar)) q Hq)
    as (sfx & q' & Hladder & Hq').
  destruct (scaleLoop_result q' fuel Hq' Hfuel) as (j & Hloop & Hw & Hmin).
  exists sfx, q', j. split; [exact Hladder |]. split; [exact Hq' |].
  split; [| split; assumption].
  rewrite <- Hres in Hladder.
  rewrite (getScaleBarParams_unfold fuel frameState scaleBar _ _ _ Hladder).
  now rewrite Hloop.
Qed.

(** X1.  For every units value and every point resolution between 10^-9
    and 10^9, getScaleBarParams returns parameters (it neither loops nor
    returns undefined): the bar is between 64 and 159 pixels wide, and
    the console gets the invalid-units message exactly when the units
    (metric when the spec has none) are not one of the five known ones. *)
Theorem scale_bar_width_between_64_and_159
  (fuel : nat) (frameState : FrameState) (scaleBar : ScaleBarSpec) (q : Q) :
  resolutionOf frameState scaleBar = Fin q ->
  moderate q ->
  (4 <= fuel)%nat ->
  exists (params : ScaleBarParams) (w : Z),
    run (getScaleBarParams getPointResolution metersPerDegree fuel
           frameState (Some scaleBar))
    = (Normal (Some params), consoleOf scaleBar)
    /\ width params = ofZ w
    /\ 64 <= w <= 159.
Proof.
  intros Hres Hmoderate Hfuel.
  pose proof (moderate_positive q Hmoderate) as Hq.
  destruct (getScaleBarParams_result fuel frameState scaleBar q Hres Hq Hfuel)
    as (sfx & q' & j & _ & _ & Hrun & Hw & _).
  eexists. eexists. split; [exact Hrun |]. split; [reflexivity | exact Hw].
Qed.

(** *** Degenerate point resolutions *)

Lemma degenerate_mul (x : number) (c : Q) :
  degenerate x -> (0 < c)%Q -> degenerate (mul x (Fin c)).
Proof.
  intros Hx Hc. destruct x as [q | | |]; cbn in *; try exact I.
  - setoid_replace 0%Q with (0 * c)%Q by ring.
    apply Qmult_le_compat_r; [exact Hx | now apply Qlt_le_weak].
  - apply Qgt_alt in Hc. rewrite Hc. exact I.
  - apply Qgt_alt in Hc. rewrite Hc. exact I.
Qed.

Lemma degenerate_div (x : number) (c : Q) :
  degenerate x -> (0 < c)%Q -> degenerate (div x (Fin c)).
Proof.
  intros Hx Hc.
  assert (Hc0 : Qeq_bool c 0 = false).
  { destruct (Qeq_bool c 0) eqn:E; [| reflexivity].
    apply Qeq_bool_iff in E. rewrite E in Hc. discriminate Hc. }
  destruct x as [q | | |]; cbn [div]; rewrite ?Hc0; try exact I.
  - cbn. apply Qle_shift_div_r; [exact Hc |]. now rewrite Qmult_0_l.
  - cbn. apply Qgt_alt in Hc. rewrite Hc. exact I.
  - cbn. apply Qgt_alt in Hc. rewrite Hc. exact I.
Qed.

Lemma unitLadder_degenerate (u : string) (pr : number) :
  degenerate pr ->
  exists (sfx : string) (pr' : number),
    unitLadder metersPerDegree u pr = (isKnownUnits u, sfx, pr')
    /\ degenerate pr'.
Proof.
  intros Hpr.
  assert (Hmul : forall c : Z, 0 < c -> degenerate (mul pr (ofZ c))).
  { intros c Hc. apply degenerate_mul; [exact Hpr |].
    change 0%Q with (inject_Z 0). rewrite <- Zlt_Qlt. exact Hc. }
  assert (Hmuld : forall n d, 0 < n -> degenerate (mul pr (dec n d))).
  { intros n d Hn. apply degenerate_mul; [exact Hpr |].
    unfold Qlt. cbn. lia. }
  assert (Hdiv : forall n d, 0 < n -> degenerate (div pr (dec n d))).
  { intros n d Hn. apply degenerate_div; [exact Hpr |].
    unfold Qlt. cbn. lia. }
  assert (Hdivz : forall c : Z, 0 < c -> degenerate (div pr (ofZ c))).
  { intros c Hc. apply (Hdiv c 1%positive Hc). }
  unfold unitLadder, isKnownUnits, knownUnits. cbn [existsb].
  destruct (String.eqb u Units_DEGREES) eqn:Edeg.
  { rewrite !orb_true_r. cbn [orb].
    repeat match goal with
           | |- context [if ?b then _ else _] => destruct b
           end; eexists; eexists; (split; [reflexivity |]);
      auto using Hmul with zarith. }
  destruct (String.eqb u Units_IMPERIAL) eqn:Eimp.
  { rewrite !orb_true_r. cbn [orb].
    repeat match goal with
           | |- context [if ?b then _ else _] => destruct b
           end; eexists; eexists; (split; [reflexivity |]);
      apply Hdiv; lia. }
  destruct (String.eqb u Units_NAUTICAL) eqn:Enau.
  { rewrite !orb_true_r. cbn [orb].
    eexists; eexists; (split; [reflexivity |]). apply Hdivz; lia. }
  destruct (String.eqb u Units_METRIC) eqn:Emet.
  { cbn [orb].
    repeat match goal with
           | |- context [if ?b then _ else _] => destruct b
           end; eexists; eexists; (split; [reflexivity |]);
      first [exact Hpr | apply Hmul; lia | apply Hdivz; lia]. }
  destruct (String.eqb u Units_US) eqn:Eus.
  { cbn [orb].
    repeat match goal with
           | |- context [if ?b then _ else _] => destruct b
           end; eexists; eexists; (split; [reflexivity |]);
      first [apply Hmuld; lia | apply Hdiv; lia]. }
  cbn [orb]. eauto.
Qed.

(** With a degenerate point resolution the first iteration of the loop
    computes NaN and returns. *)
Lemma scaleLoop_degenerate (fuel : nat) (pr : number) :
  degenerate pr ->
  scaleLoop (S fuel) pr (mul (ofZ 3) (floorLog10 (mul minWidth pr)))
  = Some None.
Proof.
  intros Hpr.
  assert (Hstart : mul (ofZ 3) (floorLog10 (mul minWidth pr)) = NaN
                   \/ mul (ofZ 3) (floorLog10 (mul minWidth pr)) = NegInf
                   \/ mul (ofZ 3) (floorLog10 (mul minWidth pr)) = PosInf).
  { destruct pr as [q | | |]; cbn in Hpr.
    - change (mul minWidth (Fin q)) with (Fin (inject_Z 64 * q)).
      unfold floorLog10.
      assert (Hle : (inject_Z 64 * q <= 0)%Q).
      { setoid_replace 0%Q with (inject_Z 64 * 0)%Q by ring.
        apply Qmult_le_l; [reflexivity | exact Hpr]. }
      destruct (inject_Z 64 * q ?= 0)%Q eqn:E.
      + right. left. reflexivity.
      + left. reflexivity.
      + apply Qgt_alt in E. apply Qle_not_lt in Hle. contradiction.
    - right. right. reflexivity.
    - left. reflexivity.
    - left. reflexivity. }
  destruct Hstart as [-> | [-> | ->]]; cbn [scaleLoop]; destruct pr;
    reflexivity.
Qed.

(** X4.  When the point resolution is zero, negative, NaN or infinite,
    getScaleBarParams returns undefined after one iteration, whatever the
    units, and printScaleBar then throws a TypeError instead of drawing. *)
Theorem scale_bar_degenerate_resolution
  (fuel : nat) (ctx : Context2D) (frameState : FrameState)
  (scaleBar : ScaleBarSpec) :
  degenerate (resolutionOf frameState scaleBar) ->
  run (getScaleBarParams getPointResolution metersPerDegree (S fuel)
         frameState (Some scaleBar))
  = (Normal None, consoleOf scaleBar)
  /\ run (printScaleBar getPointResolution metersPerDegree measureText
            numberToString (S fuel) ctx frameState (Some scaleBar))
     = (Throw "TypeError", consoleOf scaleBar).
Proof.
  intros Hdeg.
  destruct (unitLadder_degenerate (effectiveUnits (units scaleBar)) _ Hdeg)
    as (sfx & pr' & Hladder & Hpr').
  assert (Hparams :
    run (getScaleBarParams getPointResolution metersPerDegree (S fuel)
           frameState (Some scaleBar))
    = (Normal None, consoleOf scaleBar)).
  { rewrite (getScaleBarParams_unfold _ _ _ _ _ _ Hladder).
    now rewrite scaleLoop_degenerate. }
  split; [exact Hparams |].
  unfold run in *. unfold printScaleBar, bind. rewrite Hparams. reflexivity.
Qed.

(** *** What printScaleBar draws, and where *)

Lemma position_match {A : Type} (position : option string) (a b : A) :
  match position with
  | Some "bottom-right" => a
  | _ => b
  end = if isBottomRight position then a else b.
Proof.
  destruct position as [s |]; [| reflexivity]. cbn [isBottomRight].
  do 12 (destruct s as [| [[] [] [] [] [] [] [] []] s]; try reflexivity).
  destruct s; reflexivity.
Qed.

(** X5.  For a point resolution between 10^-9 and 10^9 printScaleBar
    draws and does not throw: its calls are added after those the context
    has received, between a save and a restore, with one label, the scale
    number, a space and the suffix.  The bar starts at x = 10 unless the
    position is 'bottom-right'; there it starts at the width of the frame
    less the width of the bar, less the width the context reported for
    the label (measured with the font the context had on entry, not with
    the font the label is drawn in, so nothing is said about where the
    drawn label ends), less 20.  For a bar that starts at x = 10 the
    outline ends one pixel after the bar, the four sections are a quarter
    of the bar each and end where the bar ends, and the label starts 5
    pixels after it. *)
Theorem print_scale_bar_layout
  (fuel : nat) (ctx : Context2D) (frameState : FrameState)
  (scaleBar : ScaleBarSpec) (q : Q) :
  resolutionOf frameState scaleBar = Fin q ->
  moderate q ->
  (4 <= fuel)%nat ->
  exists (params : ScaleBarParams) (w : Z) (drawn : list CanvasOp),
    let label :=
      (numberToString (scalenumber params) ++ " " ++ suffix params)%string in
    run (getScaleBarParams getPointResolution metersPerDegree fuel
           frameState (Some scaleBar))
    = (Normal (Some params), consoleOf scaleBar)
    /\ run (printScaleBar getPointResolution metersPerDegree measureText
              numberToString fuel ctx frameState (Some scaleBar))
       = (Normal {| canvas_height := canvas_height ctx;
                    ops := (ops ctx ++ drawn)%list |},
          consoleOf scaleBar)
    /\ width params = ofZ w /\ 64 <= w <= 159
    /\ hd_error drawn = Some Save
    /\ Layers.lastValue drawn = Some Restore
    /\ map fst (filledTexts drawn) = [label]
    /\ hd_error (moveXs drawn)
       = Some (if isBottomRight (position scaleBar)
               then sub (sub (fst (size frameState))
                           (add (ofZ w) (measureText label))) (ofZ 20)
               else ofZ 10)
    /\ (isBottomRight (position scaleBar) = false ->
        exists e0 e1 e2 e3 e4 l : Q,
          moveXs drawn = [ofZ 10; ofZ 10; Fin e1; Fin e2; Fin e3]
          /\ lineXs drawn = [Fin e0; Fin e1; Fin e2; Fin e3; Fin e4]
          /\ map snd (filledTexts drawn) = [Fin l]
          /\ (e0 == inject_Z w + 11)%Q
          /\ (e1 == 10 + inject_Z w / 4)%Q
          /\ (e2 == 10 + inject_Z w / 2)%Q
          /\ (e3 == 10 + 3 * inject_Z w / 4)%Q
          /\ (e4 == 10 + inject_Z w)%Q
          /\ (l == inject_Z w + 15)%Q).
Proof.
  intros Hres Hmoderate Hfuel.
  pose proof (moderate_positive q Hmoderate) as Hq.
  destruct (getScaleBarParams_result fuel frameState scaleBar q Hres Hq Hfuel)
    as (sfx & q' & j & _ & _ & Hrun & Hw & _).
  set (w := pixelWidth (roundNumber j) q') in *.
  set (label := (numberToString (Fin (roundNumber j)) ++ " " ++ sfx)%string).
  eexists. exists w. eexists. cbv zeta.
  split; [exact Hrun |].
  split.
  { unfold run in *. unfold printScaleBar, bind. rewrite Hrun.
    unfold renderScaleBar, bind, readPosition, ret, draw.
    cbn [width scalenumber suffix]. rewrite position_match.
    fold label. reflexivity. }
  cbn [width scalenumber suffix]. fold label.
  split; [reflexivity |]. split; [exact Hw |].
  split; [reflexivity |]. split; [reflexivity |]. split; [reflexivity |].
  split; [reflexivity |].
  intros Hleft. rewrite Hleft.
  unfold moveXs, lineXs, filledTexts. cbn [flat_map app map fst snd].
  unfold ofZ, add, sub, neg, mul, div.
  change (Qeq_bool (inject_Z 4) 0) with false. cbv iota.
  do 6 eexists.
  split; [reflexivity |]. split; [reflexivity |]. split; [reflexivity |].
  change (inject_Z 1) with 1%Q. change (inject_Z 4) with 4%Q.
  change (inject_Z 5) with 5%Q. change (inject_Z 10) with 10%Q.
  repeat split; field.
Qed.

End ScaleBarTotal.

(** ** generateGetFeatureUrl: the rest of the query *)

Section GetFeatureUrlFacts.
Import Utils UrlFacts.

Lemma format_match (format : option string) (v : URL) :
  match format with
  | Some "geojson" => set "outputFormat" "application/json" v
  | _ => v
  end = (if isGeojson format
         then set "outputFormat" "application/json" v else v).
Proof.
  unfold isGeojson. destruct format as [f |]; [| reflexivity].
  destruct (String.eqb_spec f "geojson") as [-> | Hf]; [reflexivity |].
  repeat
    match goal with
    | |- context [match ?s with EmptyString => _ | String _ _ => _ end] =>
        destruct s; try reflexivity
    | |- context [match ?c with Ascii _ _ _ _ _ _ _ _ => _ end] =>
        destruct c
    | |- context [if ?b then _ else _] => destruct b; try reflexivity
    end; congruence.
Qed.

Lemma delete_none (name : string) (l : list (string * string)) :
  filter (fun kv => String.eqb (fst kv) name) l = [] ->
  searchParams_delete name l = l.
Proof.
  unfold searchParams_delete.
  induction l as [| [k v] l IH]; cbn; [reflexivity |].
  destruct (String.eqb k name); cbn; [discriminate |].
  intros H. now rewrite IH.
Qed.

Lemma filter_delete_same (name : string) (l : list (string * string)) :
  filter (fun kv => String.eqb (fst kv) name) (searchParams_delete name l)
  = [].
Proof.
  unfold searchParams_delete.
  induction l as [| [k v] l IH]; cbn; [reflexivity |].
  destruct (String.eqb k name) eqn:E; cbn; [exact IH |].
  now rewrite E.
Qed.

Lemma filter_delete_other (name other : string) (l : list (string * string)) :
  name <> other ->
  filter (fun kv => String.eqb (fst kv) name) (searchParams_delete other l)
  = filter (fun kv => String.eqb (fst kv) name) l.
Proof.
  intros Hne. unfold searchParams_delete.
  induction l as [| [k v] l IH]; cbn; [reflexivity |].
  destruct (String.eqb_spec k other) as [-> | Hk]; cbn.
  - destruct (String.eqb_spec other name); [congruence | exact IH].
  - destruct (String.eqb k name); [now rewrite IH | exact IH].
Qed.

Lemma occurrences_set_same (name value : string) (u : URL) :
  occurrences name (set name value u) = 1%nat.
Proof.
  unfold occurrences, set. cbn [searchParams].
  induction (searchParams u) as [| [k v] l IH]; cbn.
  - now rewrite String.eqb_refl.
  - destruct (String.eqb k name) eqn:E; cbn; rewrite E.
    + cbn. now rewrite filter_delete_same.
    + exact IH.
Qed.

Lemma occurrences_set_other (name other value : string) (u : URL) :
  name <> other ->
  occurrences name (set other value u) = occurrences name u.
Proof.
  intros Hne. unfold occurrences, set. cbn [searchParams].
  induction (searchParams u) as [| [k v] l IH]; cbn.
  - destruct (String.eqb_spec other name); [congruence | reflexivity].
  - destruct (String.eqb_spec k other) as [-> | Hk]; cbn.
    + destruct (String.eqb_spec other name); [congruence |].
      now rewrite filter_delete_other.
    + destruct (String.eqb k name); cbn; now rewrite IH.
Qed.

(** Setting a name to the value it has, where it occurs once, changes
    nothing. *)
Lemma set_fixed (name value : string) (u : URL) :
  occurrences name u = 1%nat ->
  get name u = Some value ->
  set name value u = u.
Proof.
  unfold occurrences, get, set. destruct u as [b l f]. cbn [searchParams
    beforeQuery fragment].
  intros Hocc Hget. f_equal.
  induction l as [| [k v] l IH]; cbn in *; [discriminate |].
  destruct (String.eqb_spec k name) as [-> | Hk].
  - injection Hget as ->. f_equal. apply delete_none.
    cbn in Hocc. destruct (filter _ l); [reflexivity | discriminate].
  - f_equal. now apply IH.
Qed.

Variable numberToString : number -> string.

Lemma set_beforeQuery_fragment (name value : string) (u : URL) :
  beforeQuery (set name value u) = beforeQuery u
  /\ fragment (set name value u) = fragment u.
Proof. now split. Qed.

(** Every name generateGetFeatureUrl sets occurs once in the URL. *)
Lemma getFeatureUrlObj_names_once
  (urlObj : URL) (wfsVersion layerName : string) (format : option string)
  (projCode : string) (extent : Extent) (name : string) :
  In name (namesSet wfsVersion format) ->
  occurrences name
    (getFeatureUrlObj numberToString urlObj wfsVersion layerName format
       projCode extent) = 1%nat.
Proof.
  unfold getFeatureUrlObj, namesSet. rewrite format_match.
  destruct (String.eqb wfsVersion "2.0.0"); destruct (isGeojson format);
    intros Hin; cbn in Hin;
    repeat (destruct Hin as [<- | Hin];
            [repeat first
               [ rewrite occurrences_set_same
               | rewrite occurrences_set_other by discriminate ];
             reflexivity |]);
    contradiction.
Qed.

(** X6.  In the URL generateGetFeatureUrl builds, every name it sets occurs
    exactly once, however often the base URL has it; every other query
    parameter keeps its value and its number of occurrences, and the part
    before the query and the fragment are those of the base URL. *)
Theorem get_feature_url_keeps_other_parameters
  (urlObj : URL) (wfsVersion layerName : string) (format : option string)
  (projCode : string) (extent : Extent) :
  let u := getFeatureUrlObj numberToString urlObj wfsVersion layerName
             format projCode extent in
  (forall name : string,
      In name (namesSet wfsVersion format) -> occurrences name u = 1%nat)
  /\ (forall name : string,
        ~ In name (namesSet wfsVersion format) ->
        get name u = get name urlObj
        /\ occurrences name u = occurrences name urlObj)
  /\ beforeQuery u = beforeQuery urlObj
  /\ fragment u = fragment urlObj.
Proof.
  intros u. split; [intros name; apply getFeatureUrlObj_names_once |].
  subst u. unfold getFeatureUrlObj, namesSet.
  rewrite format_match.
  destruct (String.eqb wfsVersion "2.0.0"); destruct (isGeojson format);
    (split; [| split; reflexivity]).
  all: intros name Hnot; cbn in Hnot;
    repeat first
      [ rewrite get_set_other by (intros E; apply Hnot; rewrite E; tauto)
      | rewrite occurrences_set_other
          by (intros E; apply Hnot; rewrite E; tauto) ];
    split; reflexivity.
Qed.

(** X7.  generateGetFeatureUrl is idempotent on URL objects: building the
    request URL again from the URL it has built, with the same arguments,
    changes nothing. *)
Theorem get_feature_url_idempotent
  (urlObj : URL) (wfsVersion layerName : string) (format : option string)
  (projCode : string) (extent : Extent) :
  let build u := getFeatureUrlObj numberToString u wfsVersion layerName
                   format projCode extent in
  build (build urlObj) = build urlObj.
Proof.
  intros build. subst build.
  set (u := getFeatureUrlObj numberToString urlObj wfsVersion layerName
              format projCode extent).
  pose proof (getFeatureUrlObj_params numberToString urlObj wfsVersion
                layerName format projCode extent)
    as (Hservice & Hversion & Hrequest & Hsrs & Hbbox & Hgeo & _ & Hv2 & Hv1).
  assert (Honce : forall name,
             In name (namesSet wfsVersion format) -> occurrences name u = 1%nat)
    by (intros name; apply getFeatureUrlObj_names_once).
  fold u in Hservice, Hversion, Hrequest, Hsrs, Hbbox, Hgeo, Hv2, Hv1.
  unfold getFeatureUrlObj at 1. rewrite format_match.
  assert (Hfix : forall name value,
             In name (namesSet wfsVersion format) ->
             get name u = Some value -> set name value u = u).
  { intros name value Hin Hget.
    apply set_fixed; [now apply Honce | exact Hget]. }
  unfold namesSet in Hfix.
  rewrite (Hfix "SERVICE" "WFS") by (cbn; tauto || exact Hservice).
  rewrite (Hfix "version" wfsVersion) by (cbn; tauto || exact Hversion).
  rewrite (Hfix "request" "GetFeature") by (cbn; tauto || exact Hrequest).
  assert (Hlabel :
    set (if String.eqb wfsVersion "2.0.0" then "typenames" else "typename")
      layerName u = u).
  { apply Hfix; [cbn; tauto |].
    destruct (String.eqb_spec wfsVersion "2.0.0") as [E | E].
    - exact (proj1 (Hv2 E)).
    - exact (proj1 (Hv1 E)). }
  rewrite Hlabel.
  rewrite (Hfix "srsName" projCode) by (cbn; tauto || exact Hsrs).
  rewrite (Hfix "bbox" _) by (cbn; tauto || exact Hbbox).
  destruct (isGeojson format) eqn:Efmt; [| reflexivity].
  apply Hfix.
  - apply in_or_app. right. cbn. tauto.
  - apply Hgeo. unfold isGeojson in Efmt. destruct format as [f |];
      [| discriminate].
    apply String.eqb_eq in Efmt. now subst.
Qed.

Variable parseURL : string -> option URL.
Variable href : URL -> string.

(** X8.  generateGetFeatureUrl never writes to the console.  A base URL
    whose first four characters are not "http" is returned as it is,
    whatever the other arguments, without being parsed; a base URL that
    starts with "http" and that the URL parser rejects makes it throw a
    TypeError. *)
Theorem get_feature_url_pass_through_and_errors
  (baseUrl wfsVersion layerName : string) (format : option string)
  (projCode : string) (extent : Extent) (console : Console) :
  let r := generateGetFeatureUrl parseURL href numberToString baseUrl
             wfsVersion layerName format projCode extent console in
  snd r = console
  /\ (substring 0 4 baseUrl <> "http" -> fst r = Normal baseUrl)
  /\ (substring 0 4 baseUrl = "http" -> parseURL baseUrl = None ->
      fst r = Throw "TypeError")
  /\ ((String.length baseUrl < 4)%nat -> fst r = Normal baseUrl).
Proof.
  intros r. subst r. unfold generateGetFeatureUrl.
  assert (Hshort : (String.length baseUrl < 4)%nat ->
                   substring 0 4 baseUrl <> "http").
  { intros Hlen E.
    assert (Hl : String.length (substring 0 4 baseUrl) = 4%nat)
      by (rewrite E; reflexivity).
    clear E. destruct baseUrl as [| a [| b [| c [| d s]]]]; cbn in *; lia. }
  destruct (String.eqb_spec (substring 0 4 baseUrl) "http") as [E | E];
    cbn [negb].
  - destruct (parseURL baseUrl) as [u |]; cbn;
      repeat split; intros; congruence || (exfalso; now apply Hshort).
  - cbn. repeat split; intros; congruence.
Qed.

End GetFeatureUrlFacts.

(** ** Layer creation: errors *)

Section LayerCreationFacts.
Import Frame Utils Layers UrlFacts.

Variable expandUrl : string -> list string.
Variable extentFromProjection : option Projection -> Extent.
Variable requiredTiles : TileSource -> FrameState -> list TileKey.
Variable frameExtent : FrameState -> Extent.
Variable readFeatures : FeatureFormat -> string -> option (list Feature).
Variable parseURL : string -> option URL.
Variable href : URL -> string.
Variable numberToString : number -> string.

Local Abbreviation createLayer :=
  (Layers.createLayer expandUrl extentFromProjection requiredTiles
     frameExtent parseURL href numberToString).
Local Abbreviation createLayerWFS :=
  (Layers.createLayerWFS frameExtent parseURL href numberToString).
Local Abbreviation createLayerWMTS :=
  (Layers.createLayerWMTS expandUrl extentFromProjection requiredTiles).

Lemma createLayerWMTS_outcome (layerSpec : Layer) (rootFrameState : FrameState)
  (console : Console) :
  let r := createLayerWMTS layerSpec rootFrameState console in
  snd r = console
  /\ ((exists t, fst r = Normal t) \/ fst r = Throw "TypeError")
  /\ (fst r = Throw "TypeError" <->
      tileGrid layerSpec = None
      \/ exists g, tileGrid layerSpec = Some g
                   /\ matrixIds g = None /\ resolutions g = None).
Proof.
  cbv zeta. unfold Layers.createLayerWMTS, bind, throw, ret.
  destruct (tileGrid layerSpec) as [g |]; cbn.
  - destruct (matrixIds g) as [ids |] eqn:Eids; cbn.
    + split; [reflexivity |]. split; [left; eauto |].
      split; [discriminate |].
      intros [H | (g' & Hg & Hids & _)]; [discriminate |].
      injection Hg as <-. congruence.
    + destruct (resolutions g) as [res |] eqn:Eres; cbn.
      * split; [reflexivity |]. split; [left; eauto |].
        split; [discriminate |].
        intros [H | (g' & Hg & _ & Hres)]; [discriminate |].
        injection Hg as <-. congruence.
      * split; [reflexivity |]. split; [now right |].
        split; [| reflexivity]. intros _. right. eauto.
  - split; [reflexivity |]. split; [now right |].
    split; [| reflexivity]. intros _. now left.
Qed.

Lemma createLayerWFS_outcome (layerSpec : Layer) (rootFrameState : FrameState)
  (console : Console) :
  let r := createLayerWFS layerSpec rootFrameState console in
  snd r = console
  /\ ((exists t, fst r = Normal t) \/ fst r = Throw "TypeError")
  /\ (fst r = Throw "TypeError" <->
      substring 0 4 (url layerSpec) = "http"
      /\ parseURL (url layerSpec) = None).
Proof.
  cbv zeta. unfold Layers.createLayerWFS, bind, generateGetFeatureUrl, ret,
    throw.
  destruct (String.eqb_spec (substring 0 4 (url layerSpec)) "http")
    as [E | E]; cbn [negb].
  - destruct (parseURL (url layerSpec)) as [u |]; cbn.
    + split; [reflexivity |]. split; [left; eauto |].
      split; [discriminate | intros [_ H]; discriminate].
    + split; [reflexivity |]. split; [now right |].
      split; [now split | reflexivity].
  - cbn. split; [reflexivity |]. split; [left; eauto |].
    split; [discriminate | intros [H _]; contradiction].
Qed.

(** X9.  createLayer returns undefined exactly for a type that is none
    of XYZ, WMS, WMTS and WFS, and then writes nothing to the console.
    It throws a TypeError, with nothing written to the console, for a
    WMTS layer without a tile grid or whose tile grid has neither matrix
    ids nor resolutions, and for a WFS layer whose URL starts with "http"
    and is rejected by the URL parser.  (It may throw in other cases too:
    the constructors of OpenLayers are not represented.) *)
Theorem createLayer_errors
  (layerSpec : Layer) (rootFrameState : FrameState) (console : Console) :
  let r := createLayer layerSpec rootFrameState console in
  (fst r = Normal None <-> ~ In (type layerSpec) knownTypes)
  /\ (~ In (type layerSpec) knownTypes -> r = (Normal None, console))
  /\ (type layerSpec = "WMTS" ->
      tileGrid layerSpec = None
      \/ (exists g, tileGrid layerSpec = Some g
                    /\ matrixIds g = None /\ resolutions g = None) ->
      r = (Throw "TypeError", console))
  /\ (type layerSpec = "WFS" ->
      substring 0 4 (url layerSpec) = "http" ->
      parseURL (url layerSpec) = None ->
      r = (Throw "TypeError", console)).
Proof.
  cbv zeta.
  assert (Hundefined :
    fst (createLayer layerSpec rootFrameState console) = Normal None
    <-> ~ In (type layerSpec) knownTypes).
  { unfold Layers.createLayer.
    destruct (String.eqb_spec (type layerSpec) "XYZ") as [E | Exyz].
    { rewrite E. cbn. split; [discriminate | tauto]. }
    destruct (String.eqb_spec (type layerSpec) "WMS") as [E | Ewms].
    { rewrite E. cbn. split; [discriminate | tauto]. }
    destruct (String.eqb_spec (type layerSpec) "WMTS") as [E | Ewmts].
    { rewrite E. unfold bind.
      destruct (Layers.createLayerWMTS _ _ _ _ _ console) as [[t | e |] c];
        cbn; (split; [discriminate | tauto]). }
    destruct (String.eqb_spec (type layerSpec) "WFS") as [E | Ewfs].
    { rewrite E. unfold bind.
      destruct (Layers.createLayerWFS _ _ _ _ _ _ console) as [[t | e |] c];
        cbn; (split; [discriminate | tauto]). }
    cbn. split; [| reflexivity].
    intros _ [H | [H | [H | [H | []]]]]; congruence. }
  split; [exact Hundefined |]. split; [| split].
  - intros Hunknown. apply Hundefined in Hunknown.
    unfold Layers.createLayer in *.
    destruct (String.eqb (type layerSpec) "XYZ"); [discriminate Hunknown |].
    destruct (String.eqb (type layerSpec) "WMS"); [discriminate Hunknown |].
    destruct (String.eqb (type layerSpec) "WMTS").
    { unfold bind in Hunknown.
      destruct (Layers.createLayerWMTS _ _ _ _ _ console) as [[t | e |] c];
        discriminate Hunknown. }
    destruct (String.eqb (type layerSpec) "WFS"); [| reflexivity].
    unfold bind in Hunknown.
    destruct (Layers.createLayerWFS _ _ _ _ _ _ console) as [[t | e |] c];
      discriminate Hunknown.
  - intros Htype Hgrid.
    destruct (createLayerWMTS_outcome layerSpec rootFrameState console)
      as (Hc & _ & Hthrow).
    apply Hthrow in Hgrid. unfold Layers.createLayer. rewrite Htype.
    cbn [String.eqb Ascii.eqb Bool.eqb]. unfold bind.
    destruct (Layers.createLayerWMTS _ _ _ _ _ console) as [v c].
    cbn [fst snd] in Hc, Hgrid. now subst.
  - intros Htype Hhttp Hparse.
    destruct (createLayerWFS_outcome layerSpec rootFrameState console)
      as (Hc & _ & Hthrow).
    assert (Hfails :
      fst (createLayerWFS layerSpec rootFrameState console)
      = Throw "TypeError") by (apply Hthrow; now split).
    unfold Layers.createLayer. rewrite Htype.
    cbn [String.eqb Ascii.eqb Bool.eqb]. unfold bind.
    destruct (Layers.createLayerWFS _ _ _ _ _ _ console) as [v c].
    cbn [fst snd] in Hc, Hfails. now subst.
Qed.

(** X10.  Every task createLayer returns renders with the root frame
    state and one layer state.  For the types XYZ, WMS (tiled or not) and
    WMTS the opacity of that layer state is the opacity of the layer, or
    1 when the layer has none; for WFS it is 1 whatever the layer says. *)
Theorem layer_task_frame_state
  (layerSpec : Layer) (rootFrameState : FrameState)
  (console console' : Console) (task : LayerTask) :
  createLayer layerSpec rootFrameState console
  = (Normal (Some task), console') ->
  Utils.rootFrameState (taskFrameState task) = rootFrameState
  /\ List.length (layerStatesArray (taskFrameState task)) = 1%nat
  /\ layerOpacity (taskFrameState task)
     = Some (if String.eqb (type layerSpec) "WFS" then ofZ 1
             else match Layers.opacity layerSpec with
                  | Some o => o
                  | None => ofZ 1
                  end).
Proof.
  unfold Layers.createLayer.
  destruct (String.eqb_spec (type layerSpec) "XYZ") as [E | _].
  { rewrite E. cbn. intros H. injection H as <- _. now repeat split. }
  destruct (String.eqb_spec (type layerSpec) "WMS") as [E | _].
  { rewrite E. cbn. unfold createLayerWMS.
    destruct (tiled layerSpec); intros H; injection H as <- _;
      now repeat split. }
  destruct (String.eqb_spec (type layerSpec) "WMTS") as [E | _].
  { rewrite E. cbn [String.eqb Ascii.eqb Bool.eqb].
    unfold bind, Layers.createLayerWMTS, throw, ret.
    destruct (tileGrid layerSpec) as [g |]; [| discriminate].
    unfold bind. destruct (matrixIds g) as [ids |].
    - cbn. intros H. injection H as <- _. now repeat split.
    - destruct (resolutions g) as [r |]; [| discriminate].
      cbn. intros H. injection H as <- _. now repeat split. }
  destruct (String.eqb (type layerSpec) "WFS"); [| discriminate].
  unfold Layers.createLayerWFS, bind, ret.
  destruct (generateGetFeatureUrl _ _ _ _ _ _ _ _ _ console)
    as [[u | e |] c]; try discriminate.
  intros H. injection H as <- _. now repeat split.
Qed.

End LayerCreationFacts.

(** ** Single-image and vector tasks *)

Section LayerTaskFacts.
Import Frame Utils Layers UrlFacts TaskFacts.

Variable expandUrl : string -> list string.
Variable requiredTiles : TileSource -> FrameState -> list TileKey.
Variable frameExtent : FrameState -> Extent.
Variable readFeatures : FeatureFormat -> string -> option (list Feature).
Variable parseURL : string -> option URL.
Variable href : URL -> string.
Variable numberToString : number -> string.

Local Abbreviation createLayerWFS :=
  (Layers.createLayerWFS frameExtent parseURL href numberToString).

Lemma createLayerWFS_fields (layerSpec : Layer) (rootFrameState : FrameState)
  (task : VectorTask) (console console' : Console) :
  createLayerWFS layerSpec rootFrameState console = (Normal task, console') ->
  vectorSpec task = layerSpec
  /\ vectorVersion task = effectiveVersion layerSpec
  /\ vectorFormat task
     = (if isGeojson (format layerSpec) then GeoJSON
        else WFS (effectiveVersion layerSpec))
  /\ vectorCanvas task
     = createCanvasContext2D (fst (size rootFrameState))
         (snd (size rootFrameState))
  /\ features task = []
  /\ vectorProgress task = newBehaviorSubject seed
  /\ generateGetFeatureUrl parseURL href numberToString (url layerSpec)
       (effectiveVersion layerSpec) (layerName layerSpec) (format layerSpec)
       (Frame.projection (viewState rootFrameState))
       (frameExtent rootFrameState) console
     = (Normal (requestUrl task), console').
Proof.
  unfold Layers.createLayerWFS, bind. fold (effectiveVersion layerSpec).
  destruct (generateGetFeatureUrl _ _ _ _ _ _ _ _ _ console)
    as [[u | e |] c]; try discriminate.
  cbn. intros H. injection H as <- <-. cbn.
  repeat split.
  unfold isGeojson. destruct (format layerSpec) as [f |]; [| reflexivity].
  destruct (String.eqb_spec f "geojson") as [-> | Hf]; [reflexivity |].
  repeat
    match goal with
    | |- context [match ?s with EmptyString => _ | String _ _ => _ end] =>
        destruct s; try reflexivity
    | |- context [match ?c with Ascii _ _ _ _ _ _ _ _ => _ end] =>
        destruct c
    | |- context [if ?b then _ else _] => destruct b; try reflexivity
    end; congruence.
Qed.

(** X11.  A WFS task works with the version of the layer spec, '1.1.0' when
    the spec has none or an empty one, and the parser it reads the response
    with matches what it asks the server for: a GeoJSON parser and
    outputFormat=application/json for format 'geojson', otherwise a WFS
    parser of the very version sent as the version parameter.  For a URL
    that does not start with "http" the request goes to that URL as it is. *)
Theorem wfs_parser_matches_request
  (layerSpec : Layer) (rootFrameState : FrameState) (task : VectorTask)
  (console console' : Console) :
  createLayerWFS layerSpec rootFrameState console = (Normal task, console') ->
  vectorVersion task = effectiveVersion layerSpec
  /\ vectorFormat task
     = (if isGeojson (format layerSpec) then GeoJSON
        else WFS (vectorVersion task))
  /\ (substring 0 4 (url layerSpec) <> "http" ->
      requestUrl task = url layerSpec)
  /\ (forall urlObj : URL,
        substring 0 4 (url layerSpec) = "http" ->
        parseURL (url layerSpec) = Some urlObj ->
        exists u : URL,
          requestUrl task = href u
          /\ get "version" u = Some (vectorVersion task)
          /\ (isGeojson (format layerSpec) = true ->
              get "outputFormat" u = Some "application/json")
          /\ (isGeojson (format layerSpec) = false ->
              get "outputFormat" u = get "outputFormat" urlObj)).
Proof.
  intros Hcreate.
  destruct (createLayerWFS_fields _ _ _ _ _ Hcreate)
    as (_ & Hversion & Hformat & _ & _ & _ & Hurl).
  rewrite Hversion. split; [reflexivity |]. split; [exact Hformat |].
  unfold generateGetFeatureUrl in Hurl. split.
  - intros Hhttp.
    destruct (String.eqb_spec (substring 0 4 (url layerSpec)) "http");
      [contradiction |].
    cbn in Hurl. now injection Hurl as <- _.
  - intros urlObj Hhttp Hparse. rewrite Hhttp, Hparse in Hurl. cbn in Hurl.
    injection Hurl as <- _.
    pose proof (getFeatureUrlObj_params numberToString urlObj
                  (effectiveVersion layerSpec) (layerName layerSpec)
                  (format layerSpec)
                  (Frame.projection (viewState rootFrameState))
                  (frameExtent rootFrameState))
      as (_ & Hv & _ & _ & _ & Hgeo & Hother & _).
    eexists. split; [reflexivity |]. split; [exact Hv |].
    unfold isGeojson. split.
    + intros E. apply Hgeo. destruct (format layerSpec) as [f |];
        [| discriminate].
      apply String.eqb_eq in E. now subst.
    + intros E. apply Hother. intros Hf. rewrite Hf in E. discriminate E.
Qed.

(** *** The subject of a task *)

Lemma atMostOneResult_stopped_next (v : LayerPrintStatus)
  (p : BehaviorSubject) :
  isStopped p = true -> complete (next v p) = p.
Proof.
  intros Hstopped. unfold next. rewrite Hstopped.
  destruct p as [vs stopped]. cbn in *. now subst.
Qed.

Lemma atMostOneResult_emit (canvas : Canvas) (errorUrl : option string)
  (p : BehaviorSubject) :
  atMostOneResult p ->
  atMostOneResult (complete (next (ofZ 1, Some canvas, errorUrl) p)).
Proof.
  intros [[Hvalues Hrunning] | (c & e & Hvalues & Hstopped)].
  - right. exists canvas, errorUrl. unfold next. rewrite Hrunning. cbn.
    now rewrite Hvalues.
  - rewrite atMostOneResult_stopped_next by exact Hstopped.
    right. eauto.
Qed.

Lemma imageStep_atMostOneResult (e : ImageEvent) (t : ImageTask) :
  atMostOneResult (imageProgress t) ->
  atMostOneResult (imageProgress (imageStep e t)).
Proof.
  intros H. destruct e; cbn.
  - destruct (onImageLoadError t); [| exact H].
    cbn. now apply atMostOneResult_emit.
  - destruct (onImageLoadEnd t); [| exact H].
    cbn. now apply atMostOneResult_emit.
Qed.

Lemma vectorStep_atMostOneResult (e : XhrEvent) (t : VectorTask) :
  atMostOneResult (vectorProgress t) ->
  atMostOneResult (vectorProgress (vectorStep readFeatures e t)).
Proof.
  intros H. destruct e as [| status text]; cbn.
  - now apply atMostOneResult_emit.
  - destruct (status =? 200).
    + destruct (readFeatures (vectorFormat t) text); [| exact H].
      cbn. now apply atMostOneResult_emit.
    + cbn. now apply atMostOneResult_emit.
Qed.

(** X12.  Whatever events reach a single-image WMS task or a WFS task, and
    in whatever order, its subject emits at most one value after the seed
    [0, null, undefined]: a status with progress 1 and a canvas, after which
    it is stopped. *)
Theorem task_emits_at_most_one_result :
  (forall (layerSpec : Layer) (rootFrameState : FrameState)
          (task : ImageTask) (events : list ImageEvent),
      createLayerWMS expandUrl requiredTiles layerSpec rootFrameState
      = SingleImage task ->
      atMostOneResult (imageProgress (imageRun events task)))
  /\ (forall (layerSpec : Layer) (rootFrameState : FrameState)
            (task : VectorTask) (console console' : Console)
            (events : list XhrEvent),
        createLayerWFS layerSpec rootFrameState console
        = (Normal task, console') ->
        atMostOneResult
          (vectorProgress (vectorRun readFeatures events task))).
Proof.
  split.
  - intros layerSpec rootFrameState task events Hcreate.
    assert (Hstart : atMostOneResult (imageProgress task)).
    { unfold createLayerWMS in Hcreate.
      destruct (tiled layerSpec); [discriminate |].
      injection Hcreate as <-. left. now split. }
    clear Hcreate. revert task Hstart.
    induction events as [| e events IH]; intros task Hstart; [exact Hstart |].
    cbn [imageRun fold_left].
    change (fold_left _ events ?x) with (imageRun events x).
    now apply IH, imageStep_atMostOneResult.
  - intros layerSpec rootFrameState task console console' events Hcreate.
    assert (Hstart : atMostOneResult (vectorProgress task)).
    { destruct (createLayerWFS_fields _ _ _ _ _ Hcreate)
        as (_ & _ & _ & _ & _ & Hp & _).
      rewrite Hp. left. now split. }
    clear Hcreate. revert task Hstart.
    induction events as [| e events IH]; intros task Hstart; [exact Hstart |].
    cbn [vectorRun fold_left].
    change (fold_left _ events ?x) with (vectorRun readFeatures events x).
    now apply IH, vectorStep_atMostOneResult.
Qed.

(** X13.  For a single-image WMS task the first of 'imageloadend' and
    'imageloaderror' decides the result, whatever follows: after
    'imageloadend' the value is [1, canvas, undefined] with one frame
    rendered on the canvas; after 'imageloaderror' it is [1, canvas, url of
    the layer] with a canvas on which nothing was rendered. *)
Theorem wms_first_event_decides
  (layerSpec : Layer) (rootFrameState : FrameState) (task : ImageTask)
  (events : list ImageEvent) :
  createLayerWMS expandUrl requiredTiles layerSpec rootFrameState
  = SingleImage task ->
  let blank :=
    createCanvasContext2D (fst (size rootFrameState))
      (snd (size rootFrameState)) in
  values (imageProgress (imageRun (ImageLoadEnd :: events) task))
  = [seed; (ofZ 1, Some (renderFrame blank), None)]
  /\ values (imageProgress (imageRun (ImageLoadError :: events) task))
     = [seed; (ofZ 1, Some blank, Some (url layerSpec))]
  /\ frames blank = 0%nat.
Proof.
  intros Hcreate blank. unfold createLayerWMS in Hcreate.
  destruct (tiled layerSpec); [discriminate |].
  injection Hcreate as <-.
  split; [| split; [| reflexivity]];
    cbn [imageRun fold_left];
    change (fold_left _ events ?x) with (imageRun events x);
    rewrite imageRun_stopped by reflexivity; reflexivity.
Qed.

(** X14.  For a WFS task: a response with status 200 whose body the parser
    reads ends the task with [1, canvas, undefined], the features added and
    one frame rendered; a failed request ends it with a canvas on which
    nothing was rendered; and a response with status 200 whose body makes
    the parser throw leaves the task exactly as it was: nothing is emitted
    and the subject is not stopped. *)
Theorem wfs_response_outcomes
  (layerSpec : Layer) (rootFrameState : FrameState) (task : VectorTask)
  (console console' : Console) (responseText : string)
  (events : list XhrEvent) :
  createLayerWFS layerSpec rootFrameState console = (Normal task, console') ->
  let blank :=
    createCanvasContext2D (fst (size rootFrameState))
      (snd (size rootFrameState)) in
  (forall parsed : list Feature,
      readFeatures (vectorFormat task) responseText = Some parsed ->
      features (vectorStep readFeatures (XhrLoad 200 responseText) task)
      = parsed
      /\ values (vectorProgress
                   (vectorRun readFeatures
                      (XhrLoad 200 responseText :: events) task))
         = [seed; (ofZ 1, Some (renderFrame blank), None)])
  /\ (readFeatures (vectorFormat task) responseText = None ->
      vectorStep readFeatures (XhrLoad 200 responseText) task = task
      /\ values (vectorProgress task) = [seed]
      /\ isStopped (vectorProgress task) = false)
  /\ (forall failure : XhrEvent,
        isXhrFailure failure = true ->
        values (vectorProgress
                  (vectorRun readFeatures (failure :: events) task))
        = [seed; (ofZ 1, Some blank, Some (url layerSpec))]).
Proof.
  intros Hcreate blank.
  destruct (createLayerWFS_fields _ _ _ _ _ Hcreate)
    as (Hspec & _ & _ & Hcanvas & Hfeatures & Hprogress & _).
  split; [| split].
  - intros parsed Hparsed.
    assert (Hstep :
      vectorStep readFeatures (XhrLoad 200 responseText) task
      = {| vectorSpec := vectorSpec task;
           vectorVersion := vectorVersion task;
           vectorFormat := vectorFormat task;
           vectorFrameState := vectorFrameState task;
           vectorCanvas := renderFrame (vectorCanvas task);
           requestUrl := requestUrl task;
           features := (features task ++ parsed)%list;
           vectorProgress :=
             complete
               (next (ofZ 1, Some (renderFrame (vectorCanvas task)), None)
                  (vectorProgress task)) |}).
    { cbn. now rewrite Hparsed. }
    split.
    + rewrite Hstep. cbn. now rewrite Hfeatures.
    + cbn [vectorRun fold_left].
      change (fold_left _ events ?x) with (vectorRun readFeatures events x).
      rewrite Hstep.
      rewrite vectorRun_stopped by reflexivity.
      cbn [vectorProgress]. rewrite Hprogress, Hcanvas. reflexivity.
  - intros Hthrows. cbn. rewrite Hthrows.
    rewrite Hprogress. repeat split.
  - intros failure Hfailure.
    cbn [vectorRun fold_left].
    change (fold_left _ events ?x) with (vectorRun readFeatures events x).
    rewrite vectorStep_failure by exact Hfailure.
    rewrite vectorRun_stopped by reflexivity.
    unfold onError. cbn [vectorProgress].
    rewrite Hprogress, Hcanvas, Hspec. reflexivity.
Qed.

End LayerTaskFacts.

(** ** Tiled layer tasks: the queue and the progress values *)

Section TiledFacts.
Import Frame Utils Layers TiledFacts.

Variable requiredTiles : TileSource -> FrameState -> list TileKey.
Variable reprioritize : list TileKey -> list TileKey.
Variable tileIdle : TileKey -> bool.

(** reprioritize reorders the queue and drops tiles: it adds none. *)
Hypothesis reprioritize_length :
  forall q, (List.length (reprioritize q) <= List.length q)%nat.

Local Abbreviation step := (tiledStep reprioritize tileIdle).
Local Abbreviation runEvents := (tiledRun reprioritize tileIdle).
Local Abbreviation newTask := (createTiledLayer requiredTiles).

Lemma step_queue_shrinks (e : TileEvent) (t : TiledLayer) :
  (List.length (queuedElements_ (step e t))
   <= List.length (queuedElements_ t))%nat.
Proof.
  destruct e as [| tile | tile]; cbn.
  - destruct (completed t); [lia |]. cbn.
    pose proof (loadMoreTiles_queue_shrinks tileIdle 12 4 0
                  (reprioritize (queuedElements_ t)) (tilesLoadingKeys_ t)).
    pose proof (reprioritize_length (queuedElements_ t)). lia.
  - lia.
  - destruct (isLoadingKey tile (tilesLoadingKeys_ t)); cbn; lia.
Qed.

Lemma runEvents_queue_shrinks (events : list TileEvent) (t : TiledLayer) :
  (List.length (queuedElements_ (runEvents events t))
   <= List.length (queuedElements_ t))%nat.
Proof.
  revert t. induction events as [| e events IH]; intros t; [cbn; lia |].
  rewrite runEvents_cons. specialize (IH (step e t)).
  pose proof (step_queue_shrinks e t). lia.
Qed.

(** X15.  The number of queued tiles of a tiled layer task never grows:
    no event increases it, a tile that settles leaves it as it is, and it
    is never more than the tile count, which stays the number of tiles
    queued by the first render. *)
Theorem tiled_queue_only_drains
  (source : TileSource) (rootFrameState : FrameState)
  (opacity : option number) (events : list TileEvent) (e : TileEvent) :
  let t0 := newTask source rootFrameState opacity in
  let t := runEvents events t0 in
  (List.length (queuedElements_ (step e t))
   <= List.length (queuedElements_ t))%nat
  /\ (List.length (queuedElements_ t) <= tileCount t0)%nat
  /\ tileCount (step e t) = List.length (queuedElements_ t0)
  /\ (forall tile : TileKey,
        queuedElements_ (step (TileLoadEnd tile) t) = queuedElements_ t
        /\ queuedElements_ (step (TileLoadError tile) t)
           = queuedElements_ t).
Proof.
  intros t0 t. split; [apply step_queue_shrinks |]. split; [| split].
  - apply (runEvents_queue_shrinks events t0).
  - rewrite step_tileCount. subst t. now rewrite runEvents_tileCount.
  - intros tile. split; [reflexivity |]. cbn.
    now destruct (isLoadingKey tile (tilesLoadingKeys_ t)).
Qed.

(** *** Progress between 0 and 1 *)

Lemma raw_in_unit (queued total : nat) :
  (0 < total)%nat -> (queued <= total)%nat ->
  exists p : Q,
    sub (ofZ 1) (div (ofNat queued) (ofNat total)) = Fin p
    /\ (0 <= p <= 1)%Q
    /\ (p == 1 - inject_Z (Z.of_nat queued) / inject_Z (Z.of_nat total))%Q.
Proof.
  intros Htotal Hle.
  rewrite raw_progress_positive_total by exact Htotal.
  eexists. split; [reflexivity |].
  assert (Hpos : (0 < inject_Z (Z.of_nat total))%Q).
  { change 0%Q with (inject_Z 0). rewrite <- Zlt_Qlt. lia. }
  assert (Hq0 : (0 <= inject_Z (Z.of_nat queued)
                      / inject_Z (Z.of_nat total))%Q).
  { apply Qle_shift_div_l; [exact Hpos |]. rewrite Qmult_0_l.
    change 0%Q with (inject_Z 0). rewrite <- Zle_Qle. lia. }
  assert (Hq1 : (inject_Z (Z.of_nat queued)
                 / inject_Z (Z.of_nat total) <= 1)%Q).
  { apply Qle_shift_div_r; [exact Hpos |]. rewrite Qmult_1_l.
    rewrite <- Zle_Qle. lia. }
  set (x := (inject_Z (Z.of_nat queued) / inject_Z (Z.of_nat total))%Q) in *.
  change (inject_Z 1) with 1%Q. split; [split; lra | ring].
Qed.

Lemma tiledStatus_in_unit (t : TiledLayer) :
  (0 < tileCount t)%nat ->
  (List.length (queuedElements_ t) <= tileCount t)%nat ->
  inUnitInterval (status_progress (snd (tiledStatus t))).
Proof.
  intros Hcount Hle.
  destruct (raw_in_unit _ _ Hcount Hle) as (p & Hraw & Hp & _).
  destruct (tiledStatus_cases t) as (Hdone & Hnudge & Hpartial).
  cbv zeta in Hdone, Hnudge, Hpartial.
  rewrite Hraw in Hdone, Hnudge, Hpartial.
  destruct (strictEq (Fin p) (ofZ 1)) eqn:Hone.
  - destruct (getTilesLoading t) as [| n] eqn:Hload.
    + rewrite (Hdone eq_refl eq_refl). cbn. split; discriminate.
    + rewrite (Hnudge eq_refl (Nat.lt_0_succ n)).
      unfold status_progress. cbn [fst snd]. unfold sub, neg, add.
      unfold strictEq, ofZ in Hone. apply Qeq_bool_iff in Hone.
      cbn [inUnitInterval]. rewrite Hone. split; discriminate.
  - rewrite (Hpartial eq_refl). exact Hp.
Qed.

Lemma step_progress_in_unit (e : TileEvent) (t : TiledLayer) :
  (0 < tileCount t)%nat ->
  (List.length (queuedElements_ t) <= tileCount t)%nat ->
  Forall (fun s => inUnitInterval (status_progress s)) (mapped t) ->
  Forall (fun s => inUnitInterval (status_progress s)) (mapped (step e t)).
Proof.
  intros Hcount Hle Hall. destruct e as [| tile | tile]; cbn.
  - destruct (completed t); [exact Hall |]. cbn.
    apply Forall_app. split; [exact Hall |].
    constructor; [| constructor].
    apply tiledStatus_in_unit; cbn; [exact Hcount |].
    pose proof (loadMoreTiles_queue_shrinks tileIdle 12 4 0
                  (reprioritize (queuedElements_ t)) (tilesLoadingKeys_ t)).
    pose proof (reprioritize_length (queuedElements_ t)). lia.
  - exact Hall.
  - destruct (isLoadingKey tile (tilesLoadingKeys_ t)); exact Hall.
Qed.

Lemma runEvents_progress_in_unit (events : list TileEvent) (t : TiledLayer) :
  (0 < tileCount t)%nat ->
  (List.length (queuedElements_ t) <= tileCount t)%nat ->
  Forall (fun s => inUnitInterval (status_progress s)) (mapped t) ->
  Forall (fun s => inUnitInterval (status_progress s))
    (mapped (runEvents events t)).
Proof.
  revert t.
  induction events as [| e evs IH]; intros t Hc Hle Hall; [exact Hall |].
  rewrite runEvents_cons. apply IH.
  - now rewrite step_tileCount.
  - rewrite step_tileCount. pose proof (step_queue_shrinks e t). lia.
  - now apply step_progress_in_unit.
Qed.

(** X16.  When the first render has queued at least one tile, every
    progress value a tiled layer task emits is a number between 0 and 1,
    also after throttleTime. *)
Theorem tiled_progress_between_0_and_1
  (source : TileSource) (rootFrameState : FrameState)
  (opacity : option number) (events : list TileEvent)
  (output : list LayerPrintStatus) :
  let t0 := newTask source rootFrameState opacity in
  (0 < tileCount t0)%nat ->
  throttleTime (mapped (runEvents events t0)) output ->
  Forall (fun s => inUnitInterval (status_progress s)) output.
Proof.
  intros t0 Hcount (Hsub & _).
  apply (subsequence_Forall _ _ _ Hsub).
  apply runEvents_progress_in_unit;
    [exact Hcount | subst t0; cbn; lia | constructor].
Qed.

(** *** Progress does not go back *)

Lemma numLe_trans (x y z : number) : numLe x y -> numLe y z -> numLe x z.
Proof.
  destruct x, y, z; cbn; try tauto. apply Qle_trans.
Qed.

Lemma nondecreasing_tail (x : number) (l : list number) :
  nondecreasing (x :: l) -> nondecreasing l.
Proof. now intros [_ H]. Qed.

Lemma nondecreasing_head (x : number) (l : list number) :
  nondecreasing (x :: l) -> Forall (numLe x) l.
Proof.
  revert x. induction l as [| y l IH]; intros x H; constructor.
  - apply H.
  - destruct H as [Hxy Hrest]. specialize (IH y Hrest).
    eapply Forall_impl; [| exact IH].
    intros z. now apply numLe_trans.
Qed.

Lemma nondecreasing_cons (x : number) (l : list number) :
  Forall (numLe x) l -> nondecreasing l -> nondecreasing (x :: l).
Proof.
  intros Hall Hl. split; [| exact Hl].
  destruct l as [| y l]; [exact I | now inversion Hall].
Qed.

Lemma nondecreasing_subsequence (xs ys : list number) :
  subsequence xs ys -> nondecreasing xs -> nondecreasing ys.
Proof.
  induction 1 as [| x xs ys Hsub IH | x xs ys Hsub IH]; intros Hxs.
  - exact I.
  - apply nondecreasing_cons.
    + apply (subsequence_Forall _ _ _ Hsub). now apply nondecreasing_head.
    + apply IH. now apply nondecreasing_tail in Hxs.
  - apply IH. now apply nondecreasing_tail in Hxs.
Qed.

Lemma subsequence_map {A B : Type} (f : A -> B) (xs ys : list A) :
  subsequence xs ys -> subsequence (map f xs) (map f ys).
Proof.
  induction 1; cbn; now constructor.
Qed.

Lemma nondecreasing_snoc (l : list LayerPrintStatus) (x : LayerPrintStatus) :
  nondecreasing (progressValues l) ->
  (forall s, lastValue l = Some s ->
             numLe (status_progress s) (status_progress x)) ->
  nondecreasing (progressValues (l ++ [x])).
Proof.
  induction l as [| a l IH]; intros Hl Hlast; [cbn; tauto |].
  destruct l as [| b l].
  - cbn. split; [| tauto]. now apply Hlast.
  - destruct Hl as [Hab Hrest]. split; [exact Hab |].
    apply IH; [exact Hrest |]. intros s Hs. apply Hlast. exact Hs.
Qed.

Lemma positive_count (n : nat) : (0 < n)%nat -> (0 < inject_Z (Z.of_nat n))%Q.
Proof.
  intros H. change 0%Q with (inject_Z 0). rewrite <- Zlt_Qlt. lia.
Qed.

Lemma progressFloor_antitone (t t' : TiledLayer) :
  tileCount t' = tileCount t ->
  (0 < tileCount t <= 1000)%nat ->
  (List.length (queuedElements_ t') <= List.length (queuedElements_ t))%nat ->
  (progressFloor t <= progressFloor t')%Q.
Proof.
  intros Hcount [Hpos Hmax] Hle. unfold progressFloor. rewrite Hcount.
  pose proof (positive_count _ Hpos) as Htc.
  destruct (List.length (queuedElements_ t)) as [| n] eqn:Hq.
  - assert (Hq' : List.length (queuedElements_ t') = 0%nat) by lia.
    rewrite Hq'. apply Qle_refl.
  - destruct (List.length (queuedElements_ t')) as [| m] eqn:Hq'.
    + assert (H : (1 # 1000
                   <= inject_Z (Z.of_nat (S n))
                      / inject_Z (Z.of_nat (tileCount t)))%Q).
      { apply Qle_shift_div_l; [exact Htc |].
        apply Qle_trans with (y := inject_Z 1).
        - apply Qle_trans
            with (y := ((1 # 1000) * inject_Z 1000)%Q).
          + apply Qmult_le_l; [reflexivity |]. rewrite <- Zle_Qle. lia.
          + discriminate.
        - rewrite <- Zle_Qle. lia. }
      lra.
    + assert (H : (inject_Z (Z.of_nat (S m))
                   / inject_Z (Z.of_nat (tileCount t))
                   <= inject_Z (Z.of_nat (S n))
                      / inject_Z (Z.of_nat (tileCount t)))%Q).
      { unfold Qdiv. apply Qmult_le_compat_r.
        - rewrite <- Zle_Qle. lia.
        - apply Qlt_le_weak, Qinv_lt_0_compat, Htc. }
      lra.
Qed.

(** The status of a tick is at least the floor of the task, and is the
    floor itself while tiles are loading. *)
Lemma tiledStatus_floor (t : TiledLayer) :
  (0 < tileCount t)%nat ->
  exists v : Q,
    status_progress (snd (tiledStatus t)) = Fin v
    /\ (progressFloor t <= v)%Q
    /\ ((0 < getTilesLoading t)%nat -> (v <= progressFloor t)%Q).
Proof.
  intros Hpos.
  destruct (tiledStatus_cases t) as (Hdone & Hnudge & Hpartial).
  cbv zeta in Hdone, Hnudge, Hpartial.
  pose proof (raw_progress_is_one (List.length (queuedElements_ t))
                (tileCount t) Hpos) as Hone.
  pose proof (raw_progress_positive_total (List.length (queuedElements_ t))
                (tileCount t) Hpos) as Hraw.
  unfold progressFloor.
  destruct (List.length (queuedElements_ t)) as [| n] eqn:Hq.
  - assert (H1 : strictEq
                   (sub (ofZ 1) (div (ofNat 0) (ofNat (tileCount t))))
                   (ofZ 1) = true) by now apply Hone.
    destruct (getTilesLoading t) as [| k] eqn:Hload.
    + rewrite (Hdone H1 eq_refl). exists (inject_Z 1).
      split; [reflexivity |]. split; [discriminate | lia].
    + rewrite (Hnudge H1 (Nat.lt_0_succ k)). rewrite Hraw.
      eexists. split; [reflexivity |].
      assert (H0 : (inject_Z (Z.of_nat 0)
                    / inject_Z (Z.of_nat (tileCount t)) == 0)%Q).
      { unfold Qdiv. apply Qmult_0_l. }
      change (inject_Z 1) with 1%Q.
      split; [| intros _]; rewrite H0; discriminate.
  - assert (H1 : strictEq
                   (sub (ofZ 1) (div (ofNat (S n)) (ofNat (tileCount t))))
                   (ofZ 1) = false).
    { destruct (strictEq _ _) eqn:E; [| reflexivity].
      destruct Hone as [Hzero _]. discriminate (Hzero eq_refl). }
    rewrite (Hpartial H1), Hraw. eexists. split; [reflexivity |].
    change (inject_Z 1) with 1%Q. split; [| intros _]; apply Qle_refl.
Qed.

Lemma step_progressInvariant (e : TileEvent) (t : TiledLayer) :
  (0 < tileCount t <= 1000)%nat ->
  progressInvariant t -> progressInvariant (step e t).
Proof.
  intros Hcount [Hsorted Hlast]. destruct e as [| tile | tile].
  - cbn [tiledStep]. destruct (completed t) eqn:Hc.
    { split; [exact Hsorted |]. intros H. rewrite Hc in H. discriminate H. }
    unfold tick.
    set (ql := loadMoreTiles tileIdle 12 4 0
                 (reprioritize (queuedElements_ t)) (tilesLoadingKeys_ t)).
    set (t1 := withTileQueue t (fst ql) (snd ql)).
    assert (Hq : (List.length (queuedElements_ t1)
                  <= List.length (queuedElements_ t))%nat).
    { subst t1 ql. cbn.
      pose proof (loadMoreTiles_queue_shrinks tileIdle 12 4 0
                    (reprioritize (queuedElements_ t)) (tilesLoadingKeys_ t)).
      pose proof (reprioritize_length (queuedElements_ t)). lia. }
    destruct (tiledStatus_floor t1) as (v & Hv & Hfloor & Hexact);
      [cbn; lia |].
    pose proof (progressFloor_antitone t t1 eq_refl Hcount Hq) as Hanti.
    split.
    + cbn [mapped]. apply nondecreasing_snoc; [exact Hsorted |].
      intros s Hs. rewrite Hv. specialize (Hlast eq_refl s Hs).
      destruct (status_progress s) as [p | | |]; cbn in Hlast |- *;
        try contradiction.
      lra.
    + cbn [completed mapped]. intros Hloading s Hs.
      rewrite lastValue_snoc in Hs. injection Hs as <-. rewrite Hv.
      cbn [numLe]. apply Nat.eqb_neq in Hloading.
      apply Hexact. lia.
  - split; [exact Hsorted | exact Hlast].
  - cbn [tiledStep]. destruct (isLoadingKey tile (tilesLoadingKeys_ t));
      split; [exact Hsorted | exact Hlast | exact Hsorted | exact Hlast].
Qed.

Lemma runEvents_progressInvariant (events : list TileEvent) (t : TiledLayer) :
  (0 < tileCount t <= 1000)%nat ->
  progressInvariant t -> progressInvariant (runEvents events t).
Proof.
  revert t. induction events as [| e evs IH]; intros t Hcount Hinv;
    [exact Hinv |].
  rewrite runEvents_cons. apply IH.
  - now rewrite step_tileCount.
  - now apply step_progressInvariant.
Qed.

(** X17.  With at most 1000 tiles (and at least one), the progress a
    tiled layer task reports never goes back: each value that leaves
    throttleTime is at least the one before it. *)
Theorem tiled_progress_never_goes_back
  (source : TileSource) (rootFrameState : FrameState)
  (opacity : option number) (events : list TileEvent)
  (output : list LayerPrintStatus) :
  let t0 := newTask source rootFrameState opacity in
  (0 < tileCount t0 <= 1000)%nat ->
  throttleTime (mapped (runEvents events t0)) output ->
  nondecreasing (progressValues output).
Proof.
  intros t0 Hcount (Hsub & _).
  apply (nondecreasing_subsequence
           (progressValues (mapped (runEvents events t0)))).
  - now apply subsequence_map.
  - apply runEvents_progressInvariant; [exact Hcount |].
    split; [exact I | discriminate].
Qed.

(** X18.  With more than 1000 tiles the correction by 0.001 makes the
    progress go back: the status of a task with one tile left in the
    queue is above the status of the same task once that tile has left
    the queue and is loading. *)
Theorem tiled_progress_goes_back_above_1000_tiles (t t' : TiledLayer) :
  (1000 < tileCount t)%nat ->
  tileCount t' = tileCount t ->
  List.length (queuedElements_ t) = 1%nat ->
  queuedElements_ t' = [] ->
  (0 < getTilesLoading t')%nat ->
  exists p p' : Q,
    status_progress (snd (tiledStatus t)) = Fin p
    /\ status_progress (snd (tiledStatus t')) = Fin p'
    /\ (p' < p)%Q.
Proof.
  intros Hcount Hsame Hq Hq' Hloading.
  assert (Hpos : (0 < tileCount t)%nat) by lia.
  destruct (tiledStatus_floor t Hpos) as (p & Hp & Hfloor & _).
  destruct (tiledStatus_floor t') as (p' & Hp' & _ & Hexact);
    [lia |].
  specialize (Hexact Hloading).
  exists p, p'. split; [exact Hp |]. split; [exact Hp' |].
  unfold progressFloor in Hfloor, Hexact. rewrite Hq in Hfloor.
  rewrite Hq' in Hexact. cbn [List.length] in Hexact.
  pose proof (positive_count _ Hpos) as Htc.
  assert (H : (inject_Z (Z.of_nat 1) / inject_Z (Z.of_nat (tileCount t))
               < 1 # 1000)%Q).
  { apply Qlt_shift_div_r; [exact Htc |].
    apply Qlt_le_trans with (y := ((1 # 1000) * inject_Z 1001)%Q).
    - reflexivity.
    - apply Qmult_le_l; [reflexivity |]. rewrite <- Zle_Qle. lia. }
  lra.
Qed.

(** *** The load error URL *)

Lemma step_new_statuses (e : TileEvent) (t : TiledLayer) :
  exists new : list LayerPrintStatus,
    mapped (step e t) = (mapped t ++ new)%list
    /\ Forall (fun s => status_url s = tileLoadErrorUrl t) new.
Proof.
  destruct e as [| tile | tile]; cbn [tiledStep].
  - destruct (completed t).
    + exists []. now rewrite app_nil_r.
    + unfold tick. cbn [mapped withTileQueue]. eexists.
      split; [reflexivity |]. constructor; [| constructor].
      set (t1 := withTileQueue t _ _).
      now destruct (tiledStatus_as_specified t1) as (_ & _ & Hurl).
  - exists []. cbn. now rewrite app_nil_r.
  - exists []. destruct (isLoadingKey tile (tilesLoadingKeys_ t)); cbn;
      now rewrite app_nil_r.
Qed.

Lemma runEvents_new_statuses (inv : TiledLayer -> Prop)
  (url : option string) (events : list TileEvent) :
  (forall t, inv t -> tileLoadErrorUrl t = url) ->
  forall t : TiledLayer,
    inv t ->
    (forall e t', In e events -> inv t' -> inv (step e t')) ->
    exists new : list LayerPrintStatus,
      mapped (runEvents events t) = (mapped t ++ new)%list
      /\ Forall (fun s => status_url s = url) new.
Proof.
  intros Hurl. induction events as [| e events IH]; intros t Hinv Hkeep.
  - exists []. cbn. now rewrite app_nil_r.
  - rewrite runEvents_cons.
    destruct (step_new_statuses e t) as (first & Hfirst & Hall).
    destruct (IH (step e t)) as (rest & Hrest & Hall').
    + apply Hkeep; [now left | exact Hinv].
    + intros e' t' Hin. apply Hkeep. now right.
    + exists (first ++ rest)%list. rewrite Hrest, Hfirst, app_assoc.
      split; [reflexivity |].
      apply Forall_app. split; [| exact Hall'].
      now rewrite (Hurl t Hinv) in Hall.
Qed.

(** X19.  The load error URL of a tiled layer task: as long as no tile
    has failed, every status carries undefined; once a tile that is
    loading has failed, every status emitted from then on carries the
    first URL of the source, whichever tile failed and whatever happens
    next. *)
Theorem tiled_error_url_is_kept
  (source : TileSource) (rootFrameState : FrameState)
  (opacity : option number) (before after : list TileEvent)
  (tile : TileKey) :
  let t0 := newTask source rootFrameState opacity in
  let t1 := runEvents before t0 in
  isLoadingKey tile (tilesLoadingKeys_ t1) = true ->
  (noTileFails before = true ->
   Forall (fun s => status_url s = None) (mapped t1))
  /\ exists new : list LayerPrintStatus,
       mapped (runEvents (before ++ TileLoadError tile :: after) t0)
       = (mapped t1 ++ new)%list
       /\ Forall (fun s => status_url s = nth_error (urls source) 0) new.
Proof.
  intros t0 t1 Hloading. split.
  - intros Hnone.
    destruct (runEvents_new_statuses
                (fun t => tileLoadErrorUrl t = None) None before
                (fun t H => H) t0 eq_refl)
      as (new & Hnew & Hall).
    + intros e t' Hin Hurl. unfold noTileFails in Hnone.
      rewrite forallb_forall in Hnone. specialize (Hnone e Hin).
      destruct e as [| k | k]; [| exact Hurl | discriminate Hnone].
      cbn [tiledStep]. now destruct (completed t').
    + fold t1 in Hnew. rewrite Hnew. exact Hall.
  - rewrite runEvents_app, runEvents_cons. fold t1.
    set (t2 := step (TileLoadError tile) t1).
    assert (Hsource : Layers.source t2 = source).
    { subst t2 t1 t0. now rewrite step_source, runEvents_source. }
    assert (Hrec : failureRecorded t2) by now apply tileLoadError_recorded.
    destruct (runEvents_new_statuses
                (fun t => Layers.source t = source /\ failureRecorded t)
                (nth_error (urls source) 0) after)
      with (t := t2) as (new & Hnew & Hall).
    + intros t [Hs Hr]. unfold failureRecorded in Hr. now rewrite Hr, Hs.
    + now split.
    + intros e t' _ [Hs Hr]. split.
      * now rewrite step_source.
      * now apply step_failureRecorded.
    + exists new. split; [| exact Hall]. rewrite Hnew. f_equal.
      subst t2. cbn [tiledStep]. now rewrite Hloading.
Qed.

(** *** The surface comes last *)

Lemma tiledStatus_surface (t : TiledLayer) :
  hasSurface (snd (tiledStatus t)) = true ->
  getTilesLoading t = 0%nat
  /\ snd (tiledStatus t)
     = (ofZ 1, Some (renderFrame (tiledCanvas t)), tileLoadErrorUrl t).
Proof.
  destruct (tiledStatus_cases t) as (Hdone & Hnudge & Hpartial).
  cbv zeta in Hdone, Hnudge, Hpartial.
  destruct (strictEq _ (ofZ 1)) eqn:Hone.
  - destruct (getTilesLoading t) as [| n] eqn:Hload.
    + rewrite (Hdone eq_refl eq_refl). now split.
    + rewrite (Hnudge eq_refl (Nat.lt_0_succ n)). discriminate.
  - rewrite (Hpartial eq_refl). discriminate.
Qed.

Lemma step_surfaceInvariant (e : TileEvent) (t : TiledLayer) :
  surfaceInvariant t -> surfaceInvariant (step e t).
Proof.
  intros [Hinit Hrunning]. destruct e as [| tile | tile].
  - cbn [tiledStep]. destruct (completed t) eqn:Hc.
    { split; [exact Hinit |]. intros H. rewrite Hc in H. discriminate H. }
    unfold tick.
    set (ql := loadMoreTiles tileIdle 12 4 0
                 (reprioritize (queuedElements_ t)) (tilesLoadingKeys_ t)).
    set (t1 := withTileQueue t (fst ql) (snd ql)).
    split; cbn [mapped completed].
    + rewrite removelast_last. now apply Hrunning.
    + intros Hloading. apply Forall_app. split; [now apply Hrunning |].
      constructor; [| constructor].
      destruct (hasSurface (snd (tiledStatus t1))) eqn:Hs; [| reflexivity].
      apply tiledStatus_surface in Hs. destruct Hs as [Hzero _].
      rewrite Hzero in Hloading. discriminate Hloading.
  - split; [exact Hinit | exact Hrunning].
  - cbn [tiledStep]. destruct (isLoadingKey tile (tilesLoadingKeys_ t));
      split; [exact Hinit | exact Hrunning | exact Hinit | exact Hrunning].
Qed.

Lemma runEvents_surfaceInvariant (events : list TileEvent) (t : TiledLayer) :
  surfaceInvariant t -> surfaceInvariant (runEvents events t).
Proof.
  revert t. induction events as [| e evs IH]; intros t Hinv; [exact Hinv |].
  rewrite runEvents_cons. now apply IH, step_surfaceInvariant.
Qed.

Lemma step_after_completion (e : TileEvent) (t : TiledLayer) :
  completed t = true -> tilesLoadingKeys_ t = [] -> step e t = t.
Proof.
  intros Hc Hl. destruct e as [| tile | tile]; cbn [tiledStep].
  - now rewrite Hc.
  - rewrite Hl. destruct t. cbn in *. now subst.
  - now rewrite Hl.
Qed.

Lemma runEvents_after_completion (events : list TileEvent) (t : TiledLayer) :
  completed t = true -> tilesLoadingKeys_ t = [] -> runEvents events t = t.
Proof.
  intros Hc Hl. induction events as [| e evs IH]; [reflexivity |].
  rewrite runEvents_cons, step_after_completion; assumption.
Qed.

Lemma subsequence_split {A : Type} (xs ys : list A) :
  subsequence xs ys ->
  forall (es : list A) (s : A) (ls : list A),
    ys = (es ++ s :: ls)%list ->
    exists xs1 xs2 : list A,
      xs = (xs1 ++ s :: xs2)%list /\ subsequence xs2 ls.
Proof.
  induction 1 as [| x xs ys Hsub IH | x xs ys Hsub IH]; intros es s ls Hsplit.
  - destruct es; discriminate Hsplit.
  - destruct es as [| e es].
    + injection Hsplit as -> ->. now exists [], xs.
    + injection Hsplit as -> Hrest.
      destruct (IH es s ls Hrest) as (xs1 & xs2 & -> & Hsub2).
      now exists (e :: xs1), xs2.
  - destruct (IH es s ls Hsplit) as (xs1 & xs2 & -> & Hsub2).
    now exists (x :: xs1), xs2.
Qed.

(** X20.  A tiled layer task emits a surface at most once and as its
    very last value: in what leaves throttleTime, a status that carries
    a canvas is followed by no other, it is the last status of the task
    and the stream has completed with it; and every event after the
    completion leaves the task as it is. *)
Theorem tiled_surface_is_final
  (source : TileSource) (rootFrameState : FrameState)
  (opacity : option number) (events : list TileEvent)
  (output : list LayerPrintStatus) :
  let t := runEvents events (newTask source rootFrameState opacity) in
  throttleTime (mapped t) output ->
  (forall (earlier later : list LayerPrintStatus) (s : LayerPrintStatus),
      output = (earlier ++ s :: later)%list ->
      hasSurface s = true ->
      later = [] /\ completed t = true /\ lastValue (mapped t) = Some s)
  /\ (completed t = true ->
      forall more : list TileEvent, runEvents more t = t).
Proof.
  intros t (Hsub & _ & Hlast).
  assert (Hsurface : surfaceInvariant t)
    by (apply runEvents_surfaceInvariant; split;
        [constructor | constructor]).
  assert (Hinv : tiledInvariant t).
  { apply (runEvents_invariant reprioritize tileIdle reprioritize_length).
    apply createTiledLayer_invariant. }
  split.
  - intros earlier later s Hsplit Hs.
    destruct Hsurface as [Hinit Hrunning].
    assert (Hin : forall l, Forall (fun x => hasSurface x = false) l ->
                            In s l -> False).
    { intros l Hall Hin. rewrite Forall_forall in Hall.
      rewrite (Hall s Hin) in Hs. discriminate Hs. }
    destruct (subsequence_split _ _ Hsub earlier s later Hsplit)
      as (xs1 & xs2 & Hmapped & Hrest).
    assert (Hxs2 : xs2 = []).
    { destruct xs2 as [| x2 xs2]; [reflexivity |]. exfalso.
      apply (Hin _ Hinit). rewrite Hmapped.
      change (xs1 ++ s :: x2 :: xs2)%list
        with (xs1 ++ [s] ++ x2 :: xs2)%list.
      rewrite app_assoc, removelast_app by discriminate.
      apply in_or_app. left. apply in_or_app. right. now left. }
    subst xs2.
    assert (Hlater : later = []) by now inversion Hrest.
    split; [exact Hlater |]. split.
    + destruct (completed t) eqn:Hc; [reflexivity |]. exfalso.
      apply (Hin _ (Hrunning eq_refl)). rewrite Hmapped.
      apply in_or_app. right. now left.
    + rewrite Hmapped. apply lastValue_snoc.
  - intros Hc more. apply runEvents_after_completion; [exact Hc |].
    now apply Hinv.
Qed.

(** *** A layer without tiles *)

Lemma noTiles_run (events : list TileEvent) (t : TiledLayer) :
  tileCount t = 0%nat -> queuedElements_ t = [] -> tilesLoadingKeys_ t = [] ->
  tileLoadErrorUrl t = None ->
  mapped (runEvents events t)
  = (if existsb isTick events && negb (completed t)
     then mapped t ++ [(NaN, None, None)]
     else mapped t)%list
  /\ (existsb isTick events = true -> completed (runEvents events t) = true).
Proof.
  revert t. induction events as [| e evs IH];
    intros t Hcount Hq Hl Hurl; [split; [reflexivity | discriminate] |].
  rewrite runEvents_cons. destruct e as [| tile | tile].
  - cbn [existsb isTick orb]. destruct (completed t) eqn:Hc.
    + rewrite step_after_completion by assumption. cbn [negb andb].
      rewrite runEvents_after_completion by assumption.
      split; [reflexivity | now intros _].
    + cbn [negb andb].
      assert (Htick : step Tick t
                      = {| source := Layers.source t;
                           tiledFrameState := tiledFrameState t;
                           tiledCanvas := tiledCanvas t;
                           queuedElements_ := [];
                           tilesLoadingKeys_ := [];
                           tileCount := 0;
                           tileLoadErrorUrl := None;
                           mapped := (mapped t ++ [(NaN, None, None)])%list;
                           completed := true |}).
      { cbn [tiledStep]. rewrite Hc. unfold tick.
        rewrite Hq, Hl,
          (reprioritize_nil reprioritize reprioritize_length).
        unfold tiledStatus. cbn. rewrite Hcount, Hurl. reflexivity. }
      rewrite Htick. rewrite runEvents_after_completion by reflexivity.
      split; reflexivity.
  - assert (Hstep : step (TileLoadEnd tile) t = t).
    { cbn [tiledStep]. rewrite Hl. destruct t. cbn in *. now subst. }
    rewrite Hstep. cbn [existsb isTick orb]. now apply IH.
  - assert (Hstep : step (TileLoadError tile) t = t).
    { cbn [tiledStep]. now rewrite Hl. }
    rewrite Hstep. cbn [existsb isTick orb]. now apply IH.
Qed.

(** X21.  A tiled layer for which the first render queues no tile never
    yields a surface: its task emits the single status (NaN, null,
    undefined) at the first tick, completes with it, and emits nothing
    else, whatever the events. *)
Theorem tiled_without_tiles_yields_no_surface
  (source : TileSource) (rootFrameState : FrameState)
  (opacity : option number) (events : list TileEvent)
  (output : list LayerPrintStatus) :
  let t := runEvents events (newTask source rootFrameState opacity) in
  requiredTiles source rootFrameState = [] ->
  throttleTime (mapped t) output ->
  output = (if existsb isTick events then [(NaN, None, None)] else [])
  /\ completed t = existsb isTick events.
Proof.
  intros t Hnone Hthrottle. subst t.
  set (t0 := newTask source rootFrameState opacity) in *.
  assert (Hq : queuedElements_ t0 = []) by (subst t0; cbn; now rewrite Hnone).
  assert (Hcount : tileCount t0 = 0%nat)
    by (subst t0; cbn; now rewrite Hnone).
  destruct (noTiles_run events t0 Hcount Hq eq_refl eq_refl)
    as [Hmapped Hcompleted].
  change (completed t0) with false in Hmapped.
  change (mapped t0) with (@nil LayerPrintStatus) in Hmapped.
  cbn [negb app] in Hmapped. rewrite andb_true_r in Hmapped.
  rewrite Hmapped in Hthrottle.
  destruct Hthrottle as (Hsub & Hhead & _).
  destruct (existsb isTick events) eqn:Hticks.
  - split; [| now apply Hcompleted].
    inversion Hsub as [| x xs ys Hrest | x xs ys Hrest]; subst.
    + inversion Hrest. reflexivity.
    + inversion Hrest; subst. discriminate Hhead.
  - split; [now inversion Hsub |].
    clear Hmapped Hcompleted Hsub Hhead.
    assert (Hgen : forall t, completed t = false ->
                             existsb isTick events = false ->
                             completed (runEvents events t) = false).
    { clear. induction events as [| e evs IH]; intros t Hc Hticks;
        [exact Hc |].
      rewrite runEvents_cons.
      destruct e as [| tile | tile]; [discriminate Hticks | |];
        apply IH; try exact Hticks; cbn [tiledStep]; [exact Hc |].
      now destruct (isLoadingKey tile (tilesLoadingKeys_ t)). }
    now apply Hgen.
Qed.

(** *** All tiles load *)

Lemma settleAndTick_no_failure (t : TiledLayer) :
  tileLoadErrorUrl (settleAndTick reprioritize tileIdle (fun _ => false) t)
  = tileLoadErrorUrl t.
Proof.
  unfold settleAndTick, settleAll.
  assert (Hrun : forall keys x,
             tileLoadErrorUrl
               (runEvents (map (fun k => TileLoadEnd k) keys) x)
             = tileLoadErrorUrl x).
  { induction keys as [| k keys IH]; intros x; [reflexivity |].
    cbn [map]. rewrite runEvents_cons, IH. reflexivity. }
  cbn [tiledStep].
  destruct (completed _); [apply Hrun |]. cbn. apply Hrun.
Qed.

Lemma settleAndTickTimes_no_failure (n : nat) (t : TiledLayer) :
  tileLoadErrorUrl
    (settleAndTickTimes reprioritize tileIdle (fun _ => false) n t)
  = tileLoadErrorUrl t.
Proof.
  revert t. induction n as [| m IH]; intros t; [reflexivity |].
  cbn [settleAndTickTimes]. now rewrite IH, settleAndTick_no_failure.
Qed.

(** X22.  A tiled layer task whose tiles all load ends without a load
    error URL: when the tiles that are loading load between the ticks,
    the task of a layer with at least one tile completes within one tick
    more than it has tiles, and its last value is progress 1 with the
    canvas and undefined. *)
Theorem tiled_all_tiles_load
  (source : TileSource) (rootFrameState : FrameState)
  (opacity : option number) (n : nat) :
  let t0 := newTask source rootFrameState opacity in
  let t := settleAndTickTimes reprioritize tileIdle (fun _ => false) n t0 in
  (0 < tileCount t0 < n)%nat ->
  completed t = true
  /\ lastValue (mapped t) = Some (ofZ 1, Some (tiledCanvas t), None).
Proof.
  intros t0 t [Hpos Hn].
  assert (Hcompleted : completed t = true).
  { apply (settleAndTickTimes_completes reprioritize tileIdle
             reprioritize_length).
    right. exact Hn. }
  split; [exact Hcompleted |].
  assert (Hinv : tiledInvariant t).
  { apply (settleAndTickTimes_preserves reprioritize tileIdle tiledInvariant).
    - intros e x.
      apply (step_invariant reprioritize tileIdle reprioritize_length).
    - apply createTiledLayer_invariant. }
  assert (Hcount : (0 < tileCount t)%nat).
  { apply (settleAndTickTimes_preserves reprioritize tileIdle
             (fun x => (0 < tileCount x)%nat)); [| exact Hpos].
    intros e x Hx. now rewrite step_tileCount. }
  assert (Hurl : tileLoadErrorUrl t = None).
  { subst t. now rewrite settleAndTickTimes_no_failure. }
  destruct Hinv as [_ Hdone]. destruct (Hdone Hcompleted) as [_ Hlast].
  rewrite (Hlast Hcount). now rewrite Hurl.
Qed.

End TiledFacts.

(** ** The Image of the worker thread: listeners, src and size *)

Section ImageFacts.
Import Polyfills ImageFacts.

Lemma imageOps_cons (op : ImageOp) (ops : list ImageOp) (img : Image) :
  imageOps (op :: ops) img = imageOps ops (imageOp op img).
Proof. reflexivity. Qed.

Lemma loadListeners_cons (op : ImageOp) (ops : list ImageOp) :
  loadListeners (op :: ops) = (loadListeners [op] ++ loadListeners ops)%list.
Proof. unfold loadListeners. cbn. now rewrite app_nil_r. Qed.

Lemma imageOp_promise (op : ImageOp) (img : Image) :
  (loadResolved img = true -> loadReactions img = []) ->
  let img' := imageOp op img in
  loadResolved img' = loadResolved img || isDecoded op
  /\ (called img' ++ loadReactions img'
      = called img ++ loadReactions img ++ loadListeners [op])%list
  /\ (loadResolved img' = true -> loadReactions img' = [])
  /\ (loadResolved img' = false -> called img' = called img).
Proof.
  intros Hres. destruct op as [url outcome | eventName callback | |];
    cbn [imageOp isDecoded loadListeners flat_map].
  - destruct outcome; cbn [set_src];
      try (rewrite orb_false_r, !app_nil_r; now repeat split).
    unfold loadPromiseResolver. cbn [drawImage loadResolved].
    destruct (loadResolved img) eqn:E; cbn.
    + rewrite (Hres eq_refl), !app_nil_r. now repeat split.
    + rewrite !app_nil_r. repeat split; discriminate.
  - unfold addEventListener. destruct (String.eqb eventName "load"); cbn.
    + rewrite orb_false_r. destruct (loadResolved img) eqn:E.
      * rewrite (Hres eq_refl), !app_nil_r.
        repeat split; intros; try reflexivity; discriminate.
      * rewrite app_assoc. repeat split; intros; try reflexivity; discriminate.
    + rewrite orb_false_r, !app_nil_r. now repeat split.
  - cbn. rewrite orb_false_r, !app_nil_r. now repeat split.
  - cbn. rewrite orb_false_r, !app_nil_r. now repeat split.
Qed.

Lemma imageOps_promise (ops : list ImageOp) (img : Image) :
  (loadResolved img = true -> loadReactions img = []) ->
  let img' := imageOps ops img in
  loadResolved img' = loadResolved img || anyDecoded ops
  /\ (called img' ++ loadReactions img'
      = called img ++ loadReactions img ++ loadListeners ops)%list
  /\ (loadResolved img' = true -> loadReactions img' = [])
  /\ (loadResolved img' = false -> called img' = called img).
Proof.
  revert img. induction ops as [| op ops IH]; intros img Hres.
  - cbn. rewrite orb_false_r, !app_nil_r. now repeat split.
  - destruct (imageOp_promise op img Hres) as (H1 & H2 & H3 & H4).
    destruct (IH (imageOp op img) H3) as (I1 & I2 & I3 & I4).
    cbv zeta. rewrite imageOps_cons, loadListeners_cons.
    unfold anyDecoded. cbn [existsb]. fold (anyDecoded ops).
    split; [now rewrite I1, H1, orb_assoc |].
    split; [now rewrite I2, app_assoc, H2, <- !app_assoc |].
    split; [exact I3 |].
    intros Hfalse. rewrite (I4 Hfalse). apply H4.
    rewrite I1 in Hfalse. now apply orb_false_elim in Hfalse.
Qed.

(** X23.  Whatever is done with an image of the worker thread, each
    callback registered for 'load' is called once, in the order of
    registration, as soon as one fetch has ended with a decoded bitmap,
    and none is called before: a later assignment of src does not call
    them again, and removeEventListener removes nothing. *)
Theorem image_load_listeners_called_once (ops : list ImageOp) :
  let img := imageOps ops newImage in
  called img = (if anyDecoded ops then loadListeners ops else [])
  /\ loadReactions img = (if anyDecoded ops then [] else loadListeners ops)
  /\ forall (eventName : string) (callback : Callback),
       called (imageOp (RemoveEventListener eventName callback) img)
       = called img
       /\ loadReactions (imageOp (RemoveEventListener eventName callback) img)
          = loadReactions img.
Proof.
  intros img.
  destruct (imageOps_promise ops newImage) as (H1 & H2 & H3 & H4);
    [discriminate |].
  cbv zeta in H1, H2, H3, H4. fold img in H1, H2, H3, H4.
  change (loadResolved newImage) with false in H1.
  change (called newImage) with (@nil Callback) in H2, H4.
  change (loadReactions newImage) with (@nil Callback) in H2.
  cbn [orb app] in H1, H2.
  split; [| split; [| now split]].
  - destruct (anyDecoded ops).
    + rewrite (H3 H1), app_nil_r in H2. exact H2.
    + now apply H4.
  - destruct (anyDecoded ops).
    + now apply H3.
    + rewrite (H4 H1) in H2. exact H2.
Qed.

Lemma imageOps_fields (ops : list ImageOp) (img : Image) :
  let img' := imageOps ops img in
  src_ img' = src_ img
  /\ (width img', height img')
     = fold_left
         (fun size op =>
            match op with
            | HintImageSize w h => (w, h)
            | _ => size
            end) ops (width img, height img)
  /\ (naturalWidth img = width img -> naturalWidth img' = width img')
  /\ (naturalHeight img = height img -> naturalHeight img' = height img')
  /\ drawn img' = (drawn img + decodedCount ops)%nat.
Proof.
  revert img. induction ops as [| op ops IH]; intros img.
  - cbn. rewrite Nat.add_0_r. now repeat split.
  - cbv zeta. rewrite imageOps_cons.
    destruct (IH (imageOp op img)) as (I1 & I2 & I3 & I4 & I5).
    rewrite I1, I2, I5. clear IH I1 I2 I5.
    destruct op as [url outcome | eventName callback | |].
    + destruct outcome; cbn [imageOp set_src] in *;
        try (unfold decodedCount; cbn; now repeat split).
      unfold loadPromiseResolver in *. cbn [drawImage loadResolved] in *.
      destruct (loadResolved img); cbn in *;
        (repeat split; [now apply I3 | now apply I4 |
                        unfold decodedCount; cbn; lia]).
    + cbn [imageOp] in *. unfold addEventListener in *.
      destruct (String.eqb eventName "load"); cbn in *;
        unfold decodedCount; cbn; now repeat split.
    + cbn in *. unfold decodedCount; cbn; now repeat split.
    + cbn in *. unfold decodedCount; cbn.
      repeat split; intros _; [now apply I3 | now apply I4].
Qed.

(** X24.  Reading src of an image of the worker thread gives null
    whatever was assigned to it; the size of the image is the one of the
    last call of hintImageSize (1 x 1 without one), with the natural size
    equal to it; and each decoded fetch draws one bitmap. *)
Theorem image_src_stays_null_and_size_is_hinted (ops : list ImageOp) :
  let img := imageOps ops newImage in
  get_src img = None
  /\ (width img, height img) = lastHint ops
  /\ naturalWidth img = width img
  /\ naturalHeight img = height img
  /\ drawn img = decodedCount ops.
Proof.
  intros img.
  destruct (imageOps_fields ops newImage) as (H1 & H2 & H3 & H4 & H5).
  repeat split; [exact H1 | exact H2 | now apply H3 | now apply H4 | exact H5].
Qed.

End ImageFacts.

(** ** The mock of a tile source *)

Section SourceMockFacts.
Import SourceMock.

Lemma register_errorCallback (regs : list Registration) (s : ModuleState) :
  errorCallback (register regs s)
  = fold_left
      (fun found r =>
         if String.eqb (snd (fst r)) "tileloaderror" then Some (snd r)
         else found) regs (errorCallback s)
  /\ invoked (register regs s) = invoked s.
Proof.
  revert s. induction regs as [| [[self type] callback] regs IH]; intros s;
    [now split |].
  cbn [register fold_left fst snd].
  change (fold_left _ regs ?x) with (register regs x) at 1 3.
  destruct (IH (on self type callback s)) as [H1 H2]. rewrite H1, H2.
  unfold on. now destruct (String.eqb type "tileloaderror").
Qed.

(** X25.  The mock sources share one error callback: after any calls of
    [on], by whichever instances, triggerLoadError calls the callback of
    the last registration for 'tileloaderror' and no other, and throws a
    TypeError when there was none. *)
Theorem mock_sources_share_the_error_callback
  (regs : list Registration) (event : Event) :
  triggerLoadError event (register regs initial)
  = match lastErrorListener regs with
    | Some callback =>
        (Normal tt,
         {| errorCallback := Some callback;
            invoked := [(callback, event)] |})
    | None => (Throw "TypeError", initial)
    end.
Proof.
  destruct (register_errorCallback regs initial) as [Hcb Hinv].
  change (fold_left _ regs (errorCallback initial))
    with (lastErrorListener regs) in Hcb.
  unfold triggerLoadError. rewrite Hcb, Hinv.
  destruct (lastErrorListener regs) as [callback |] eqn:E; [reflexivity |].
  f_equal. destruct (register regs initial) as [cb inv].
  cbn in Hcb, Hinv. now subst.
Qed.

End SourceMockFacts.

(** ** The entry points: print and getJobStatus *)

Section IndexFacts.
Import Index.

Variable PrintSpec : Type.
Variable newJob : Observed (PrintStatus PrintSpec).
Variable getJobStatusObservable :
  number -> Observed (PrintStatus PrintSpec).

Lemma takeWhileInclusive_stops {A : Type} (predicate : A -> bool)
  (before after : list A) (x : A) (sourceCompleted : bool) :
  forallb predicate before = true -> predicate x = false ->
  takeWhileInclusive predicate (before ++ x :: after) sourceCompleted
  = {| emitted := (before ++ [x])%list; completed := true |}.
Proof.
  intros Hbefore Hx. induction before as [| y before IH]; cbn.
  - now rewrite Hx.
  - cbn in Hbefore. apply andb_prop in Hbefore.
    destruct Hbefore as [Hy Hbefore]. rewrite Hy, (IH Hbefore). reflexivity.
Qed.

Lemma takeWhileInclusive_all {A : Type} (predicate : A -> bool)
  (values : list A) (sourceCompleted : bool) :
  forallb predicate values = true ->
  takeWhileInclusive predicate values sourceCompleted
  = {| emitted := values; completed := sourceCompleted |}.
Proof.
  intros Hall. induction values as [| y values IH]; cbn; [reflexivity |].
  cbn in Hall. apply andb_prop in Hall. destruct Hall as [Hy Hall].
  rewrite Hy, (IH Hall). reflexivity.
Qed.

(** The statuses up to the first one whose progress is not below 1. *)
Lemma split_at_first_finished (values : list (PrintStatus PrintSpec)) :
  forallb inProgress values = true
  \/ exists before x after,
       values = (before ++ x :: after)%list
       /\ forallb inProgress before = true /\ inProgress x = false.
Proof.
  induction values as [| y values IH]; [now left |].
  destruct (inProgress y) eqn:Hy.
  - destruct IH as [Hall | (before & x & after & Hsplit & Hbefore & Hx)].
    + left. cbn. now rewrite Hy.
    + right. exists (y :: before), x, after. rewrite Hsplit. cbn.
      now rewrite Hy.
  - right. now exists [], y, values.
Qed.

(** X26.  The stream of getJobStatus is the status stream of the job up
    to and including the first status whose progress is not below 1 (a
    progress of NaN counts as such), and it completes with that status;
    what the job emits afterwards does not pass.  Without such a status
    the stream is the whole status stream. *)
Theorem getJobStatus_ends_with_first_finished_status (jobId : number) :
  let source := getJobStatusObservable jobId in
  let result := getJobStatus getJobStatusObservable jobId in
  (forall (before : list (PrintStatus PrintSpec)) x after,
      emitted source = (before ++ x :: after)%list ->
      forallb inProgress before = true -> inProgress x = false ->
      result = {| emitted := (before ++ [x])%list; completed := true |})
  /\ (forallb inProgress (emitted source) = true ->
      result
      = {| emitted := emitted source; completed := completed source |})
  /\ (forall x : PrintStatus PrintSpec,
        progress x = NaN -> inProgress x = false)
  /\ forallb inProgress (removelast (emitted result)) = true.
Proof.
  intros source result. unfold result, getJobStatus, takeWhile. fold source.
  split; [| split; [| split]].
  - intros before x after Hsplit Hbefore Hx. rewrite Hsplit.
    now apply takeWhileInclusive_stops.
  - intros Hall. now apply takeWhileInclusive_all.
  - intros x Hx. unfold inProgress. now rewrite Hx.
  - destruct (split_at_first_finished (emitted source))
      as [Hall | (before & x & after & Hsplit & Hbefore & Hx)].
    + rewrite (takeWhileInclusive_all _ _ _ Hall). cbn [emitted].
      clear - Hall. induction (emitted source) as [| y l IH]; [reflexivity |].
      cbn in Hall. apply andb_prop in Hall. destruct Hall as [Hy Hall].
      destruct l as [| z l]; [reflexivity |].
      change (removelast (y :: z :: l)) with (y :: removelast (z :: l)).
      cbn [forallb]. rewrite Hy. now apply IH.
    + rewrite Hsplit, (takeWhileInclusive_stops _ _ _ _ _ Hbefore Hx).
      cbn [emitted]. now rewrite removelast_last.
Qed.

(** X27.  print posts one job request and resolves with the image blob
    of the first status, of the first job announced, whose progress is
    not below 1: later statuses and later jobs are ignored, and a status
    without a blob resolves it with undefined.  While the job reports
    only progress below 1 and its stream has not completed, the promise
    stays pending, as it does while no job is announced. *)
Theorem print_resolves_with_first_finished_status
  (printSpec : PrintSpec) (posted : list (Message PrintSpec)) :
  let result := print newJob getJobStatusObservable printSpec posted in
  snd result = (posted ++ [MESSAGE_JOB_REQUEST PrintSpec printSpec])%list
  /\ (forall job others (before : list (PrintStatus PrintSpec)) x after,
        emitted newJob = job :: others ->
        emitted (getJobStatusObservable (id job))
        = (before ++ x :: after)%list ->
        forallb inProgress before = true -> inProgress x = false ->
        fst result = Resolved (imageBlob x))
  /\ (forall job others,
        emitted newJob = job :: others ->
        forallb inProgress (emitted (getJobStatusObservable (id job)))
        = true ->
        completed (getJobStatusObservable (id job)) = false ->
        fst result = Pending)
  /\ (emitted newJob = [] -> completed newJob = false ->
      fst result = Pending).
Proof.
  intros result. split; [reflexivity |]. subst result.
  unfold print, take1, switchMap, takeWhile. cbn [fst].
  split; [| split].
  - intros job others before x after Hjob Hsplit Hbefore Hx.
    rewrite Hjob. cbn [emitted completed andb]. rewrite Hsplit.
    rewrite (takeWhileInclusive_stops _ _ _ _ _ Hbefore Hx).
    unfold toPromise, mapObserved. cbn [emitted completed].
    rewrite map_app. cbn [map]. now rewrite lastValue_snoc.
  - intros job others Hjob Hall Hrunning.
    rewrite Hjob. cbn [emitted completed andb].
    rewrite (takeWhileInclusive_all _ _ _ Hall).
    unfold toPromise, mapObserved. cbn [emitted completed].
    now rewrite Hrunning.
  - intros Hnone Hrunning. rewrite Hnone. cbn [emitted completed].
    unfold toPromise, mapObserved. cbn. now rewrite Hrunning.
Qed.

End IndexFacts.

(** ** Instances *)

Lemma scale_bar_width_between_64_and_159_witness :
  ScaleBarEdge.moderate 1
  /\ exists (params : ScaleBar.ScaleBarParams) (w : Z),
       run (Sample.getScaleBarParams 4 Sample.frame
              (Some Examples.cornerScaleBar))
       = (Normal (Some params), [])
       /\ ScaleBar.width params = ofZ w
       /\ 64 <= w <= 159.
Proof.
  assert (Hmoderate : ScaleBarEdge.moderate 1) by (split; discriminate).
  split; [exact Hmoderate |].
  exact (scale_bar_width_between_64_and_159 Sample.getPointResolution
           Sample.metersPerDegree 4 Sample.frame Examples.cornerScaleBar 1
           eq_refl Hmoderate (Nat.le_refl 4)).
Defined.

Lemma scale_bar_degenerate_resolution_witness :
  ScaleBarEdge.degenerate
    (Frame.resolution (Frame.viewState Examples.stillFrame))
  /\ run (Sample.getScaleBarParams 1 Examples.stillFrame
            (Some Sample.defaultScaleBar))
     = (Normal None, [])
  /\ run (Sample.printScaleBar 1 Sample.context Examples.stillFrame
            (Some Sample.defaultScaleBar))
     = (Throw "TypeError", []).
Proof.
  assert (H : ScaleBarEdge.degenerate
                (Frame.resolution (Frame.viewState Examples.stillFrame)))
    by (cbn; discriminate).
  split; [exact H |].
  exact (scale_bar_degenerate_resolution Sample.getPointResolution
           Sample.metersPerDegree Sample.measureText showNumber 0
           Sample.context Examples.stillFrame Sample.defaultScaleBar H).
Defined.

Lemma print_scale_bar_layout_witness :
  ScaleBarEdge.moderate 1
  /\ exists (w : Z) (drawn : list ScaleBar.CanvasOp),
       run (Sample.printScaleBar 4 Sample.context Sample.frame
              (Some Examples.cornerScaleBar))
       = (Normal {| ScaleBar.canvas_height := ofZ 600;
                    ScaleBar.ops := drawn |}, [])
       /\ 64 <= w <= 159
       /\ hd_error drawn = Some ScaleBar.Save
       /\ Layers.lastValue drawn = Some ScaleBar.Restore.
Proof.
  assert (Hmoderate : ScaleBarEdge.moderate 1) by (split; discriminate).
  split; [exact Hmoderate |].
  destruct (print_scale_bar_layout Sample.getPointResolution
              Sample.metersPerDegree Sample.measureText showNumber 4
              Sample.context Sample.frame Examples.cornerScaleBar 1
              eq_refl Hmoderate (Nat.le_refl 4))
    as (params & w & drawn & _ & Hprint & _ & Hw & Hfirst & Hlast & _).
  exists w, drawn. repeat split; try assumption; apply Hw.
Defined.

Lemma layer_task_frame_state_witness :
  Sample.createLayer Examples.wmsLayer Sample.frame []
  = (Normal
       (Some (Layers.createLayerWMS Sample.expandUrl Sample.requiredTiles
                Examples.wmsLayer Sample.frame)), [])
  /\ Utils.layerOpacity
       (Layers.taskFrameState
          (Layers.createLayerWMS Sample.expandUrl Sample.requiredTiles
             Examples.wmsLayer Sample.frame))
     = Some (Fin (1 # 4)).
Proof.
  split; [reflexivity |].
  exact (proj2 (proj2 (layer_task_frame_state Sample.expandUrl
                         Sample.extentFromProjection Sample.requiredTiles
                         Sample.frameExtent Sample.parseURL Sample.href
                         showNumber Examples.wmsLayer Sample.frame [] [] _
                         eq_refl))).
Defined.

Lemma wfs_parser_matches_request_witness :
  exists task : Layers.VectorTask,
    run (Sample.createLayerWFS Sample.wfsLayer Sample.frame)
    = (Normal task, [])
    /\ Layers.vectorVersion task = "1.1.0"
    /\ Layers.vectorFormat task = Layers.GeoJSON.
Proof.
  destruct (Sample.createLayerWFS Sample.wfsLayer Sample.frame [])
    as [[task | e |] c] eqn:E; try (vm_compute in E; discriminate E).
  assert (Hc : c = []) by (vm_compute in E; congruence).
  subst c. exists task. split; [exact E |].
  destruct (wfs_parser_matches_request Sample.frameExtent Sample.parseURL
              Sample.href showNumber Sample.wfsLayer Sample.frame task [] []
              E) as (Hversion & Hformat & _).
  split; [exact Hversion | exact Hformat].
Defined.

Lemma wms_first_event_decides_witness :
  exists task : Layers.ImageTask,
    Layers.createLayerWMS Sample.expandUrl Sample.requiredTiles
      Examples.wmsLayer Sample.frame = Layers.SingleImage task
    /\ Layers.values
         (Layers.imageProgress
            (Layers.imageRun [Layers.ImageLoadError; Layers.ImageLoadEnd]
               task))
       = [TaskFacts.seed;
          (ofZ 1,
           Some (Layers.createCanvasContext2D (ofZ 800) (ofZ 600)),
           Some "https://example.org/wms")].
Proof.
  eexists. split; [reflexivity |].
  exact (proj1 (proj2 (wms_first_event_decides Sample.expandUrl
                         Sample.requiredTiles Examples.wmsLayer Sample.frame
                         _ [Layers.ImageLoadEnd] eq_refl))).
Defined.

Lemma wfs_response_outcomes_witness :
  exists task : Layers.VectorTask,
    run (Sample.createLayerWFS Sample.wfsLayer Sample.frame)
    = (Normal task, [])
    /\ Layers.vectorStep Sample.readFeatures (Layers.XhrLoad 200 "") task
       = task
    /\ Layers.values
         (Layers.vectorProgress
            (Layers.vectorRun Sample.readFeatures
               [Layers.XhrLoad 404 ""; Layers.XhrLoad 200 "{}"] task))
       = [TaskFacts.seed;
          (ofZ 1,
           Some (Layers.createCanvasContext2D (ofZ 800) (ofZ 600)),
           Some "https://example.org/wfs")].
Proof.
  destruct (Sample.createLayerWFS Sample.wfsLayer Sample.frame [])
    as [[task | e |] c] eqn:E; try (vm_compute in E; discriminate E).
  assert (Hc : c = []) by (vm_compute in E; congruence).
  subst c. exists task. split; [exact E |].
  assert (Hformat : Layers.vectorFormat task = Layers.GeoJSON).
  { vm_compute in E. injection E as <-. reflexivity. }
  destruct (wfs_response_outcomes Sample.frameExtent Sample.readFeatures
              Sample.parseURL Sample.href showNumber Sample.wfsLayer
              Sample.frame task [] [] "" [Layers.XhrLoad 200 "{}"] E)
    as (_ & Hthrows & Hfails).
  split.
  - apply Hthrows. rewrite Hformat. reflexivity.
  - exact (Hfails (Layers.XhrLoad 404 "") eq_refl).
Defined.

Lemma tiled_queue_only_drains_witness :
  (forall q, (List.length (Sample.reprioritize q) <= List.length q)%nat)
  /\ (List.length
        (Layers.queuedElements_
           (Sample.tiledRun Sample.twoTicks Sample.tiledTask))
      <= Layers.tileCount Sample.tiledTask)%nat
  /\ Layers.tileCount
       (Layers.tiledStep Sample.reprioritize Sample.tileIdle Layers.Tick
          (Sample.tiledRun Sample.twoTicks Sample.tiledTask))
     = 6%nat.
Proof.
  assert (Hlen : forall q,
             (List.length (Sample.reprioritize q) <= List.length q)%nat)
    by (intros q; apply Nat.le_refl).
  split; [exact Hlen |].
  destruct (tiled_queue_only_drains Sample.requiredTiles Sample.reprioritize
              Sample.tileIdle Hlen Sample.xyzSource Sample.frame None
              Sample.twoTicks Layers.Tick)
    as (_ & Hbound & Hcount & _).
  split; [exact Hbound | exact Hcount].
Defined.

Lemma tiled_progress_between_0_and_1_witness :
  (forall q, (List.length (Sample.reprioritize q) <= List.length q)%nat)
  /\ (0 < Layers.tileCount Sample.tiledTask)%nat
  /\ Forall (fun s => TiledFacts.inUnitInterval (Layers.status_progress s))
       (Layers.mapped (Sample.tiledRun Examples.fullRun Sample.tiledTask)).
Proof.
  assert (Hlen : forall q,
             (List.length (Sample.reprioritize q) <= List.length q)%nat)
    by (intros q; apply Nat.le_refl).
  assert (Hcount : (0 < Layers.tileCount Sample.tiledTask)%nat)
    by (vm_compute; lia).
  split; [exact Hlen |]. split; [exact Hcount |].
  exact (tiled_progress_between_0_and_1 Sample.requiredTiles
           Sample.reprioritize Sample.tileIdle Hlen Sample.xyzSource
           Sample.frame None Examples.fullRun _ Hcount
           (throttleTime_refl _)).
Defined.

Lemma tiled_progress_never_goes_back_witness :
  (forall q, (List.length (Sample.reprioritize q) <= List.length q)%nat)
  /\ (0 < Layers.tileCount Sample.tiledTask <= 1000)%nat
  /\ TiledFacts.nondecreasing
       (TiledFacts.progressValues
          (Layers.mapped (Sample.tiledRun Examples.fullRun Sample.tiledTask))).
Proof.
  assert (Hlen : forall q,
             (List.length (Sample.reprioritize q) <= List.length q)%nat)
    by (intros q; apply Nat.le_refl).
  assert (Hcount : (0 < Layers.tileCount Sample.tiledTask <= 1000)%nat)
    by (vm_compute; lia).
  split; [exact Hlen |]. split; [exact Hcount |].
  exact (tiled_progress_never_goes_back Sample.requiredTiles
           Sample.reprioritize Sample.tileIdle Hlen Sample.xyzSource
           Sample.frame None Examples.fullRun _ Hcount
           (throttleTime_refl _)).
Defined.

Lemma tiled_progress_goes_back_above_1000_tiles_witness :
  (1000 < Layers.tileCount Examples.lastQueued)%nat
  /\ exists p p' : Q,
       Layers.status_progress (snd (Layers.tiledStatus Examples.lastQueued))
       = Fin p
       /\ Layers.status_progress
            (snd (Layers.tiledStatus Examples.lastLoading)) = Fin p'
       /\ (p' < p)%Q.
Proof.
  assert (Hcount : (1000 < Layers.tileCount Examples.lastQueued)%nat)
    by (cbn; lia).
  split; [exact Hcount |].
  exact (tiled_progress_goes_back_above_1000_tiles Examples.lastQueued
           Examples.lastLoading Hcount eq_refl eq_refl eq_refl
           (Nat.lt_0_succ 0)).
Defined.

Lemma tiled_surface_is_final_witness :
  (forall q, (List.length (Sample.reprioritize q) <= List.length q)%nat)
  /\ Layers.completed (Sample.tiledRun Examples.fullRun Sample.tiledTask)
     = true
  /\ forall more : list Layers.TileEvent,
       Sample.tiledRun more
         (Sample.tiledRun Examples.fullRun Sample.tiledTask)
       = Sample.tiledRun Examples.fullRun Sample.tiledTask.
Proof.
  assert (Hlen : forall q,
             (List.length (Sample.reprioritize q) <= List.length q)%nat)
    by (intros q; apply Nat.le_refl).
  assert (Hdone : Layers.completed
                    (Sample.tiledRun Examples.fullRun Sample.tiledTask)
                  = true) by (vm_compute; reflexivity).
  split; [exact Hlen |]. split; [exact Hdone |].
  exact (proj2 (tiled_surface_is_final Sample.requiredTiles
                  Sample.reprioritize Sample.tileIdle Hlen Sample.xyzSource
                  Sample.frame None Examples.fullRun _ (throttleTime_refl _))
           Hdone).
Defined.

Lemma tiled_without_tiles_yields_no_surface_witness :
  (forall q, (List.length (Sample.reprioritize q) <= List.length q)%nat)
  /\ Examples.noTiles Sample.xyzSource Sample.frame = []
  /\ Layers.mapped
       (Sample.tiledRun [Layers.Tick; Layers.Tick]
          (Layers.createTiledLayer Examples.noTiles Sample.xyzSource
             Sample.frame None))
     = [(NaN, None, None)].
Proof.
  assert (Hlen : forall q,
             (List.length (Sample.reprioritize q) <= List.length q)%nat)
    by (intros q; apply Nat.le_refl).
  split; [exact Hlen |]. split; [reflexivity |].
  exact (proj1 (tiled_without_tiles_yields_no_surface Examples.noTiles
                  Sample.reprioritize Sample.tileIdle Hlen Sample.xyzSource
                  Sample.frame None [Layers.Tick; Layers.Tick] _ eq_refl
                  (throttleTime_refl _))).
Defined.

Lemma tiled_all_tiles_load_witness :
  (forall q, (List.length (Sample.reprioritize q) <= List.length q)%nat)
  /\ (0 < Layers.tileCount Sample.tiledTask < 7)%nat
  /\ Layers.completed
       (Layers.settleAndTickTimes Sample.reprioritize Sample.tileIdle
          (fun _ => false) 7 Sample.tiledTask) = true.
Proof.
  assert (Hlen : forall q,
             (List.length (Sample.reprioritize q) <= List.length q)%nat)
    by (intros q; apply Nat.le_refl).
  assert (Hcount : (0 < Layers.tileCount Sample.tiledTask < 7)%nat)
    by (vm_compute; lia).
  split; [exact Hlen |]. split; [exact Hcount |].
  exact (proj1 (tiled_all_tiles_load Sample.requiredTiles Sample.reprioritize
                  Sample.tileIdle Hlen Sample.xyzSource Sample.frame None 7
                  Hcount)).
Defined.

Lemma tiled_error_url_is_kept_witness :
  Layers.isLoadingKey "2/1/1"
    (Layers.tilesLoadingKeys_ (Sample.tiledRun [Layers.Tick] Sample.tiledTask))
  = true
  /\ Forall (fun s => Layers.status_url s = None)
       (Layers.mapped (Sample.tiledRun [Layers.Tick] Sample.tiledTask))
  /\ exists new : list Layers.LayerPrintStatus,
       Layers.mapped
         (Sample.tiledRun
            ([Layers.Tick] ++ Layers.TileLoadError "2/1/1" :: [Layers.Tick])
            Sample.tiledTask)
       = (Layers.mapped (Sample.tiledRun [Layers.Tick] Sample.tiledTask)
          ++ new)%list
       /\ Forall
            (fun s =>
               Layers.status_url s
               = Some "https://tile.example.org/{z}/{x}/{y}.png") new.
Proof.
  assert (Hloading :
            Layers.isLoadingKey "2/1/1"
              (Layers.tilesLoadingKeys_
                 (Sample.tiledRun [Layers.Tick] Sample.tiledTask)) = true)
    by (vm_compute; reflexivity).
  split; [exact Hloading |].
  destruct (tiled_error_url_is_kept Sample.requiredTiles Sample.reprioritize
              Sample.tileIdle Sample.xyzSource Sample.frame None
              [Layers.Tick] [Layers.Tick] "2/1/1" Hloading)
    as [Hbefore Hafter].
  split; [exact (Hbefore eq_refl) | exact Hafter].
Defined.
